(** * lazywhisper: recording lifecycle, transcription store and UI state machine

    A shallow embedding of the Go sources [config/config.go], the [audio]
    package (Recorder and Transcriber) and [main.go] (the Bubble Tea model),
    together with the properties of the specification that concern them.

    Go values are modelled as follows: [string] for Go strings (bytes as
    [ascii]), [Z] for [int], [option] for nilable pointers and for [error]
    values, a finite map from cleaned paths to nodes for the file system,
    and explicit state passing for the mutable [Recorder] and the world the
    commands act on.  Runtime panics (slice and index out of range) are an
    explicit outcome. *)

From Stdlib Require Import ZArith Lia Ascii String List Bool DecimalString
  DecimalN Sorted Permutation.
From stdpp Require Import base option list gmap strings.

Local Open Scope Z_scope.

(* ===================================================================== *)
(** * Definitions *)
(* ===================================================================== *)

(** ** Go strings *)

Definition chars (s : string) : list ascii := list_ascii_of_string s.
Definition str (l : list ascii) : string := string_of_list_ascii l.

(** [len(s)] as a Go [int]. *)
Definition len (s : string) : Z := Z.of_nat (String.length s).

(** [s[:n]]: the first [n] bytes; out of range is a runtime panic ([None]). *)
Definition slice_to (s : string) (n : Z) : option string :=
  if (0 <=? n) && (n <=? len s)
  then Some (str (take (Z.to_nat n) (chars s)))
  else None.

(** [strings.HasSuffix]. *)
Definition HasSuffix (s suffix : string) : bool :=
  bool_decide (drop (String.length s - String.length suffix)%nat (chars s) = chars suffix).

(** [strings.TrimSuffix]. *)
Definition TrimSuffix (s suffix : string) : string :=
  if HasSuffix s suffix
  then str (take (String.length s - String.length suffix)%nat (chars s))
  else s.

(** [strings.Contains]: [substr] occurs somewhere in [s]. *)
Fixpoint Contains_go (s : list ascii) (sub : list ascii) : bool :=
  bool_decide (take (length sub) s = sub) ||
  match s with
  | [] => false
  | _ :: s' => Contains_go s' sub
  end.
Definition Contains (s substr : string) : bool := Contains_go (chars s) (chars substr).

(** [strings.Split(s, sep)] for a one-byte separator. *)
Fixpoint split_go (sep : ascii) (cur : list ascii) (s : list ascii) : list string :=
  match s with
  | [] => [str (rev cur)]
  | c :: s' =>
      if Ascii.eqb c sep then str (rev cur) :: split_go sep [] s'
      else split_go sep (c :: cur) s'
  end.
Definition Split (s : string) (sep : ascii) : list string := split_go sep [] (chars s).

(** [strings.Join]. *)
Fixpoint JoinStrings (elems : list string) (sep : string) : string :=
  match elems with
  | [] => ""
  | [e] => e
  | e :: rest => e +:+ sep +:+ JoinStrings rest sep
  end.

(** ASCII white space as [unicode.IsSpace] sees it. *)
Definition isSpace (c : ascii) : bool :=
  let n := nat_of_ascii c in
  ((9 <=? n)%nat && (n <=? 13)%nat) || (n =? 32)%nat.

(** [strings.Fields]: the maximal runs of non-space bytes. *)
Fixpoint Fields_go (cur : list ascii) (s : list ascii) : list string :=
  match s with
  | [] => match cur with [] => [] | _ => [str (rev cur)] end
  | c :: s' =>
      if isSpace c
      then match cur with
           | [] => Fields_go [] s'
           | _ => str (rev cur) :: Fields_go [] s'
           end
      else Fields_go (c :: cur) s'
  end.
Definition Fields (s : string) : list string := Fields_go [] (chars s).

(** ** [path/filepath] on Unix *)

Definition Separator : ascii := "/"%char.

Definition isRooted (path : string) : bool :=
  match path with
  | String c _ => Ascii.eqb c Separator
  | EmptyString => false
  end.

(** One step of the lexical clean-up over the stack of kept elements (most
    recent first): empty and [.] elements are dropped, [..] removes the
    element before it, or is dropped at the root, or is kept when there is
    nothing left to remove in a relative path. *)
Definition clean_step (rooted : bool) (stack : list string) (elem : string) : list string :=
  if bool_decide (elem = "") || bool_decide (elem = ".") then stack
  else if bool_decide (elem = "..") then
    match stack with
    | top :: rest => if bool_decide (top = "..") then elem :: stack else rest
    | [] => if rooted then [] else [elem]
    end
  else elem :: stack.

(** [filepath.Clean]. *)
Definition Clean (path : string) : string :=
  if bool_decide (path = "") then "."
  else
    let rooted := isRooted path in
    let kept := rev (fold_left (clean_step rooted) (Split path Separator) []) in
    let body := JoinStrings kept "/" in
    if rooted then "/" +:+ body
    else if bool_decide (body = "") then "." else body.

(** [filepath.Join]: empty leading elements are skipped, the rest is joined
    with the separator and cleaned. *)
Fixpoint Join (elem : list string) : string :=
  match elem with
  | [] => ""
  | e :: rest =>
      if bool_decide (e = "") then Join rest
      else Clean (JoinStrings elem "/")
  end.

(** [filepath.Base]: trailing separators are stripped, then the last element
    is taken; the scan runs from the end of the path as in Go. *)
Fixpoint strip_seps (r : list ascii) : list ascii :=
  match r with
  | c :: r' => if Ascii.eqb c Separator then strip_seps r' else r
  | [] => []
  end.

Fixpoint until_sep (r : list ascii) : list ascii :=
  match r with
  | c :: r' => if Ascii.eqb c Separator then [] else c :: until_sep r'
  | [] => []
  end.

Definition Base (path : string) : string :=
  if bool_decide (path = "") then "."
  else
    match strip_seps (rev (chars path)) with
    | [] => "/"
    | r => str (rev (until_sep r))
    end.

(** [filepath.Ext]: the suffix from the last dot of the last element. *)
Fixpoint ext_go (r : list ascii) (acc : list ascii) : list ascii :=
  match r with
  | [] => []
  | c :: r' =>
      if Ascii.eqb c Separator then []
      else if Ascii.eqb c "."%char then c :: acc
      else ext_go r' (c :: acc)
  end.
Definition Ext (path : string) : string := str (ext_go (rev (chars path)) []).

(** ** [time]: instants and the layout [2006-01-02-15-04-05] *)

(** A [time.Time] as [time.Now()] returns it: the instant (seconds and
    nanoseconds since the Unix epoch) and the offset east of UTC, in
    seconds, that the local zone has at that instant. *)
Record Time := mkTime { unixSec : Z; nsec : Z; zoneOffset : Z }.

(** Nanoseconds since the epoch, as [Time.UnixNano] counts them. *)
Definition UnixNano (t : Time) : Z := unixSec t * 1000000000 + nsec t.

Definition isLeap (year : Z) : bool :=
  (year mod 4 =? 0) && (negb (year mod 100 =? 0) || (year mod 400 =? 0)).

(** Days since 0001-01-01 to year and day of the year, cutting off 400-,
    100-, 4- and 1-year cycles. *)
Definition yearDay (d : Z) : Z * Z :=
  let n400 := d / 146097 in
  let d1 := d - 146097 * n400 in
  let c100 := d1 / 36524 in
  let n100 := c100 - Z.shiftr c100 2 in
  let d2 := d1 - 36524 * n100 in
  let n4 := d2 / 1461 in
  let d3 := d2 - 1461 * n4 in
  let c1 := d3 / 365 in
  let n1 := c1 - Z.shiftr c1 2 in
  (1 + 400 * n400 + 100 * n100 + 4 * n4 + n1, d3 - 365 * n1).

Definition daysBefore : list Z :=
  [0; 31; 59; 90; 120; 151; 181; 212; 243; 273; 304; 334; 365].

(** Month (January is 1) and day of the month from the day of the year. *)
Definition monthDay (leap : bool) (yday : Z) : Z * Z :=
  if leap && (yday =? 31 + 29 - 1) then (2, 29)
  else
    let day := if leap && (31 + 29 - 1 <? yday) then yday - 1 else yday in
    let month := day / 31 in
    let end_ := nth (Z.to_nat (month + 1)) daysBefore 0 in
    if end_ <=? day then (month + 2, day - end_ + 1)
    else (month + 1, day - nth (Z.to_nat month) daysBefore 0 + 1).

(** Days from 0001-01-01 to 1970-01-01. *)
Definition unixEpochDay : Z := 719162.

(** The wall clock reading of the local zone, in seconds. *)
Definition wallSeconds (t : Time) : Z := unixSec t + zoneOffset t.

(** Year, month, day, hour, minute, second of the wall clock. *)
Definition civil (w : Z) : Z * Z * Z * Z * Z * Z :=
  let '(year, yday) := yearDay (w / 86400 + unixEpochDay) in
  let '(month, day) := monthDay (isLeap year) yday in
  let secs := w mod 86400 in
  (year, month, day, secs / 3600, secs mod 3600 / 60, secs mod 60).

Fixpoint zeros (n : nat) : string :=
  match n with O => "" | S n' => String "0" (zeros n') end.

(** Decimal digits of a natural number, without leading zeros. *)
Definition digits (u : N) : string := NilEmpty.string_of_uint (N.to_uint u).

(** [appendInt]: a sign for negative numbers, then the digits padded with
    zeros on the left up to [width]. *)
Definition appendInt (x : Z) (width : nat) : string :=
  let ds := digits (Z.abs_N x) in
  (if x <? 0 then "-" else "") +:+ zeros (width - String.length ds) +:+ ds.

(** [t.Format("2006-01-02-15-04-05")]. *)
Definition Format (t : Time) : string :=
  let '(year, month, day, hour, minute, second) := civil (wallSeconds t) in
  appendInt year 4 +:+ "-" +:+ appendInt month 2 +:+ "-" +:+ appendInt day 2 +:+ "-" +:+
  appendInt hour 2 +:+ "-" +:+ appendInt minute 2 +:+ "-" +:+ appendInt second 2.

(** ** Errors *)

(** Go [error] values: the errors of package [os] that the code can meet,
    [fmt.Errorf] without a cause ([ErrorNew]) and with a wrapped cause
    ([Errorf], the verb [%w]). *)
Inductive error : Type :=
| ErrNotExist (path : string)
| ErrNotDir (path : string)
| ErrIsDir (path : string)
| ErrNotEmpty (path : string)
| ErrHomeNotDefined
| ErrExec (msg : string)
| ErrNetwork (msg : string)
| ErrDecode (msg : string)
| ErrorNew (msg : string)
| Errorf (msg : string) (cause : error).

(** [errors.Is(err, fs.ErrNotExist)]: a not-found error, possibly wrapped. *)
Fixpoint isNotExist (e : error) : bool :=
  match e with
  | ErrNotExist _ => true
  | Errorf _ e' => isNotExist e'
  | _ => false
  end.

(** ** The file system *)

Inductive Node : Type :=
| RegularFile (content : string)
| Directory.

(** Cleaned paths to nodes.  The root and the working directory are not
    entries of the map; they always exist. *)
Abbreviation FS := (gmap string Node).

Record DirEntry := mkDirEntry { Name : string; IsDir : bool }.

Definition isDirectory (n : Node) : bool :=
  match n with Directory => true | RegularFile _ => false end.

(** The directory a cleaned path lies in. *)
Definition parentDir (path : string) : string :=
  let r := rev (chars path) in
  str (rev (drop (S (length (until_sep r))) r)).

Definition dirExists (fs : FS) (dir : string) : bool :=
  bool_decide (dir = "") ||
  match fs !! dir with Some Directory => true | _ => false end.

(** The name under which [path] is an entry of [dir], if it is one. *)
Definition entryName (dir path : string) : option string :=
  let name := str (rev (until_sep (rev (chars path)))) in
  if bool_decide (name <> "") && bool_decide (path = dir +:+ "/" +:+ name)
  then Some name else None.

Definition hasEntries (fs : FS) (dir : string) : bool :=
  existsb (fun kv => bool_decide (is_Some (entryName dir kv.1))) (map_to_list fs).

(** Insertion sort by a [less] function, the order [sort.Slice] and
    [os.ReadDir] produce on names that are pairwise distinct. *)
Section Sorting.
Context {A : Type} (less : A -> A -> bool).

Fixpoint insert_sorted (x : A) (l : list A) : list A :=
  match l with
  | [] => [x]
  | y :: l' => if less y x then y :: insert_sorted x l' else x :: l
  end.

Fixpoint sort_by (l : list A) : list A :=
  match l with
  | [] => []
  | x :: l' => insert_sorted x (sort_by l')
  end.
End Sorting.

(** [os.Stat(path)] succeeds. *)
Definition Stat (fs : FS) (path : string) : bool :=
  bool_decide (is_Some (fs !! path)).

(** [os.MkdirAll]: every missing directory on the way is created; a regular
    file on the way is an error. *)
Fixpoint ancestors (acc : string) (first : bool) (comps : list string) : list string :=
  match comps with
  | [] => []
  | c :: rest =>
      let p := if first then c else acc +:+ "/" +:+ c in
      (if bool_decide (p = "") then [] else [p]) ++ ancestors p false rest
  end.

Fixpoint mkdirs (fs : FS) (dirs : list string) : FS * option error :=
  match dirs with
  | [] => (fs, None)
  | d :: rest =>
      match fs !! d with
      | Some Directory => mkdirs fs rest
      | Some (RegularFile _) => (fs, Some (ErrNotDir d))
      | None => mkdirs (<[d := Directory]> fs) rest
      end
  end.

Definition MkdirAll (fs : FS) (path : string) : FS * option error :=
  mkdirs fs (ancestors "" true (Split path Separator)).

(** [os.Remove]: a file or an empty directory. *)
Definition Remove (fs : FS) (path : string) : FS * option error :=
  match fs !! path with
  | None => (fs, Some (ErrNotExist path))
  | Some (RegularFile _) => (delete path fs, None)
  | Some Directory =>
      if hasEntries fs path then (fs, Some (ErrNotEmpty path))
      else (delete path fs, None)
  end.

(** [os.ReadDir]: the entries of a directory, sorted by name. *)
Definition ReadDir (fs : FS) (dir : string) : list DirEntry + error :=
  match fs !! dir with
  | Some Directory =>
      inl (sort_by (fun a b => String.ltb (Name a) (Name b))
             (omap (fun kv => (fun n => mkDirEntry n (isDirectory kv.2)) <$> entryName dir kv.1)
                   (map_to_list fs)))
  | Some (RegularFile _) => inr (ErrNotDir dir)
  | None => inr (ErrNotExist dir)
  end.

(** [os.ReadFile]. *)
Definition ReadFile (fs : FS) (path : string) : string + error :=
  match fs !! path with
  | Some (RegularFile content) => inl content
  | Some Directory => inr (ErrIsDir path)
  | None => inr (ErrNotExist path)
  end.

(** [os.WriteFile]: creates or truncates the file; its directory must exist. *)
Definition WriteFile (fs : FS) (path : string) (data : string) : FS * option error :=
  match fs !! path with
  | Some Directory => (fs, Some (ErrIsDir path))
  | _ =>
      if dirExists fs (parentDir path) then (<[path := RegularFile data]> fs, None)
      else (fs, Some (ErrNotExist path))
  end.

(** ** Package [config] *)

Definition AppName : string := "open_whisper".
Definition RecordingsDir : string := "recordings".
Definition TranscriptionsDir : string := "transcriptions".

(** The part of the process environment the program reads. *)
Record Host := mkHost {
  HOME : string;          (* the value of $HOME, empty when unset *)
  Getpid : Z              (* os.Getpid() *)
}.

(** [os.UserHomeDir]. *)
Definition UserHomeDir (h : Host) : string + error :=
  if bool_decide (HOME h = "") then inr ErrHomeNotDefined else inl (HOME h).

(** The loop of [GetAppDataDir] over the directories to create. *)
Fixpoint createDirs (fs : FS) (dirs : list string) : FS * option error :=
  match dirs with
  | [] => (fs, None)
  | dir :: rest =>
      match MkdirAll fs dir with
      | (fs', Some err) =>
          (fs', Some (Errorf ("failed to create directory " +:+ dir) err))
      | (fs', None) => createDirs fs' rest
      end
  end.

(** [config.GetAppDataDir]: the application data directory; the directory
    and its two subdirectories are created when they are missing. *)
Definition GetAppDataDir (h : Host) (fs : FS) : FS * (string + error) :=
  match UserHomeDir h with
  | inr err => (fs, inr (Errorf "failed to get home directory" err))
  | inl homeDir =>
      let appDataDir := Join [homeDir; "." +:+ AppName] in
      match createDirs fs [appDataDir;
                           Join [appDataDir; RecordingsDir];
                           Join [appDataDir; TranscriptionsDir]] with
      | (fs', Some err) => (fs', inr err)
      | (fs', None) => (fs', inl appDataDir)
      end
  end.

(** ** Package [audio]: the Recorder *)

(** What the recorder does to the outside world, in the order it does it. *)
Inductive Effect : Type :=
| EStart (argv : list string) (pid : option Z)   (* cmd.Start(), with the child's pid *)
| ENewTimer (d : Z)                              (* time.NewTimer(d), nanoseconds *)
| ETimerStop                                     (* timer.Stop() *)
| EInterrupt (pid : Z)                           (* Process.Signal(os.Interrupt) *)
| EKill (pid : Z)                                (* Process.Kill() *)
| EWait (pid : Z)                                (* cmd.Wait(), at most two seconds *)
| ERun (argv : list string)                      (* exec.Command(...).Run() or Output() *)
| ERunStdin (argv : list string) (stdin : string) (* the same with cmd.Stdin set *)
| EPost (url authorization fileName fileData model : string) (* the multipart POST *)
| EWarning (msg : string)                        (* a line on standard error *)
| EStatFile (path : string) (found : bool)       (* os.Stat *)
| ESleep (ms : Z).                               (* time.Sleep, milliseconds *)

(** [exec.Cmd]: the command line and, once started, the process. *)
Record exec_Cmd := mkCmd { Args : list string; Process : option Z }.

(** [time.Timer], by its duration in nanoseconds. *)
Record Timer := mkTimer { duration : Z }.

Record Recorder := mkRecorder {
  cmd : option exec_Cmd;
  outputFile : string;
  isRecording : bool;
  appDataDir : string;
  timer : option Timer
}.

Definition Minute : Z := 60 * 1000000000.

(** What [StartRecording] asks of the outside: the clock and whether the
    capture process could be started (its pid) or not. *)
Record StartEnv := mkStartEnv {
  Now : Time;
  startResult : Z + error
}.

(** What [StopRecording] meets outside: whether the interrupt was delivered,
    whether the process exited within two seconds, the process table, the
    outcome of [kill -INT] per pid, and what other processes do to the file
    system before each look at the output file. *)
Record StopEnv := mkStopEnv {
  signalResult : option error;
  exitedInTime : bool;
  psOutput : string + error;
  killIntResult : string -> option error;
  interference : nat -> FS -> FS
}.

(** [NewRecorder]: [log.Fatal] on failure is the [inr] case. *)
Definition NewRecorder (h : Host) (fs : FS) : FS * (Recorder + error) :=
  match GetAppDataDir h fs with
  | (fs', inr err) => (fs', inr err)
  | (fs', inl dir) => (fs', inl (mkRecorder None "" false dir None))
  end.

Definition StartRecording (env : StartEnv) (r : Recorder)
  : Recorder * list Effect * option error :=
  if isRecording r then
    (r, [], Some (ErrorNew "recording is already in progress"))
  else
    let timestamp := Format (Now env) in
    let outputFile' := Join [appDataDir r; RecordingsDir; timestamp +:+ ".wav"] in
    let argv := ["ffmpeg"; "-f"; "avfoundation"; "-i"; ":1"; "-y"; outputFile'] in
    match startResult env with
    | inr err =>
        (mkRecorder (Some (mkCmd argv None)) outputFile' false (appDataDir r) (timer r),
         [EStart argv None],
         Some (Errorf "failed to start recording" err))
    | inl pid =>
        (mkRecorder (Some (mkCmd argv (Some pid))) outputFile' true (appDataDir r)
                    (Some (mkTimer (20 * Minute))),
         [EStart argv (Some pid); ENewTimer (20 * Minute)],
         None)
    end.

(** The body of the loop of [killOrphanedFFmpegProcesses] for one line of
    the process table. *)
Definition killOrphanLine (h : Host) (env : StopEnv) (line : string) : list Effect :=
  if Contains line "ffmpeg" && Contains line ".open_whisper" then
    match Fields line with
    | pid :: _ :: _ =>
        if bool_decide (pid = appendInt (Getpid h) 0) then []
        else
          ERun ["kill"; "-INT"; pid] ::
          match killIntResult env pid with
          | Some _ =>
              [EWarning ("Warning: Failed to interrupt ffmpeg process " +:+ pid);
               ERun ["kill"; "-9"; pid]]
          | None => []
          end
    | _ => []
    end
  else [].

Definition killOrphanedFFmpegProcesses (h : Host) (env : StopEnv) : list Effect :=
  ERun ["ps"; "-eo"; "pid,command"] ::
  match psOutput env with
  | inr _ => [EWarning "Warning: Failed to list processes"]
  | inl output => flat_map (killOrphanLine h env) (Split output "010"%char)
  end.

(** The wait for the output file: at most [n] looks, 100 ms apart, the
    first of them numbered [i]. *)
Fixpoint waitForFile (env : StopEnv) (path : string) (n : nat) (i : nat) (fs : FS)
  : FS * list Effect :=
  match n with
  | O => (fs, [])
  | S n' =>
      let fs1 := interference env i fs in
      if Stat fs1 path then (fs1, [EStatFile path true])
      else
        let '(fs2, effs) := waitForFile env path n' (S i) fs1 in
        (fs2, EStatFile path false :: ESleep 100 :: effs)
  end.

(** The graceful-then-forced shutdown of the capture process. *)
Definition stopProcess (env : StopEnv) (c : option exec_Cmd) : list Effect :=
  match c with
  | Some (mkCmd _ (Some pid)) =>
      EInterrupt pid ::
      match signalResult env with
      | Some _ => [EWarning "Warning: Failed to interrupt ffmpeg process"; EKill pid]
      | None => []
      end ++
      EWait pid ::
      (if exitedInTime env then [] else [EKill pid])
  | _ => []
  end.

Definition StopRecording (h : Host) (env : StopEnv) (r : Recorder) (fs : FS)
  : Recorder * FS * list Effect * option error :=
  if negb (isRecording r) then
    (r, fs, [], Some (ErrorNew "no recording in progress"))
  else
    let effsTimer := match timer r with Some _ => [ETimerStop] | None => [] end in
    let effsProc := stopProcess env (cmd r) in
    let effsOrphans := killOrphanedFFmpegProcesses h env in
    let '(fs', effsWait) := waitForFile env (outputFile r) 20 0 fs in
    (mkRecorder None (outputFile r) false (appDataDir r) None,
     fs',
     effsTimer ++ effsProc ++ effsOrphans ++ effsWait,
     None).

(** [Cleanup]: the orphan scan on a fresh recorder. *)
Definition Cleanup (h : Host) (env : StopEnv) : list Effect :=
  killOrphanedFFmpegProcesses h env.

Definition GetOutputFile (r : Recorder) : string := outputFile r.
Definition IsRecording (r : Recorder) : bool := isRecording r.

(** The goroutine armed by [StartRecording]: when the timer fires and a
    recording is in progress, it stops the recording. *)
Definition autoStop (h : Host) (env : StopEnv) (r : Recorder) (fs : FS)
  : Recorder * FS * list Effect :=
  match timer r with
  | Some _ =>
      if isRecording r then
        let '(r', fs', effs, _) := StopRecording h env r fs in (r', fs', effs)
      else (r, fs, [])
  | None => (r, fs, [])
  end.

(** Calls on one recorder, each with what it meets outside. *)
Inductive Call : Type :=
| CallStart (env : StartEnv)
| CallStop (env : StopEnv)
| TimerFires (env : StopEnv).

Definition call (h : Host) (c : Call) (st : Recorder * FS) : Recorder * FS :=
  match c with
  | CallStart env => ((StartRecording env st.1).1.1, st.2)
  | CallStop env => let '(r', fs', _, _) := StopRecording h env st.1 st.2 in (r', fs')
  | TimerFires env => let '(r', fs', _) := autoStop h env st.1 st.2 in (r', fs')
  end.

Definition calls (h : Host) (cs : list Call) (st : Recorder * FS) : Recorder * FS :=
  fold_left (fun st c => call h c st) cs st.

(** ** Package [audio]: the Transcriber *)

(** A call either returns or panics at run time. *)
Inductive Outcome (A : Type) : Type :=
| Returns (a : A)
| Panics (msg : string).
Arguments Returns {A} a.
Arguments Panics {A} msg.

#[global] Instance Outcome_ret : MRet Outcome := @Returns.
#[global] Instance Outcome_bind : MBind Outcome := fun A B f o =>
  match o with
  | Returns a => f a
  | Panics msg => Panics msg
  end.

#[global] Instance Outcome_fmap : FMap Outcome := fun A B f o =>
  match o with
  | Returns a => Returns (f a)
  | Panics msg => Panics msg
  end.

Record Transcriber := mkTranscriber { apiKey : string; t_appDataDir : string }.

Record Response := mkResponse { StatusCode : Z; Body : string }.

(** What [Transcribe] meets outside: the outcome of sending the request, and
    the [encoding/json] decoder, which gives the [Text] of the
    [TranscriptionResponse] a body decodes to, or an error. *)
Record TranscribeEnv := mkTranscribeEnv {
  sendResult : Response + error;
  decodeText : string -> string + error
}.

Definition NewTranscriber (h : Host) (key : string) (fs : FS) : FS * (Transcriber + error) :=
  match GetAppDataDir h fs with
  | (fs', inr err) => (fs', inr err)
  | (fs', inl dir) => (fs', inl (mkTranscriber key dir))
  end.

Definition StatusOK : Z := 200.

Definition apiURL : string := "https://api.openai.com/v1/audio/transcriptions".

Definition Transcribe (env : TranscribeEnv) (t : Transcriber) (audioFile : string) (fs : FS)
  : Outcome (FS * list Effect * (string * option error)) :=
  match fs !! audioFile with
  | None =>
      Returns (fs, [], ("", Some (Errorf "failed to open audio file" (ErrNotExist audioFile))))
  | Some Directory =>
      Returns (fs, [], ("", Some (Errorf "failed to copy file data" (ErrIsDir audioFile))))
  | Some (RegularFile data) =>
      let post := EPost apiURL ("Bearer " +:+ apiKey t) (Base audioFile) data "whisper-1" in
      match sendResult env with
      | inr err => Returns (fs, [post], ("", Some (Errorf "failed to send request" err)))
      | inl resp =>
          if negb (StatusCode resp =? StatusOK) then
            Returns (fs, [post],
                     ("", Some (ErrorNew ("API request failed with status " +:+
                                          appendInt (StatusCode resp) 0 +:+ ": " +:+ Body resp))))
          else
            match decodeText env (Body resp) with
            | inr err => Returns (fs, [post], ("", Some (Errorf "failed to decode response" err)))
            | inl text =>
                match slice_to audioFile (len audioFile - 4) with
                | None => Panics "slice bounds out of range"
                | Some stem =>
                    let timestamp := Base stem in
                    let transcriptionFile :=
                      Join [t_appDataDir t; TranscriptionsDir; timestamp +:+ ".txt"] in
                    match WriteFile fs transcriptionFile text with
                    | (fs', Some err) =>
                        Returns (fs', [post], ("", Some (Errorf "failed to save transcription" err)))
                    | (fs', None) => Returns (fs', [post], (text, None))
                    end
                end
            end
      end
  end.

(** ** Package [main]: messages, commands and the model *)

Definition nl : string := String "010"%char "".

(** [%d]. *)
Definition itoa (x : Z) : string := appendInt x 0.

(** [err.Error()]. *)
Fixpoint Error (e : error) : string :=
  match e with
  | ErrNotExist p => p +:+ ": no such file or directory"
  | ErrNotDir p => p +:+ ": not a directory"
  | ErrIsDir p => p +:+ ": is a directory"
  | ErrNotEmpty p => p +:+ ": directory not empty"
  | ErrHomeNotDefined => "$HOME is not defined"
  | ErrExec msg => msg
  | ErrNetwork msg => msg
  | ErrDecode msg => msg
  | ErrorNew msg => msg
  | Errorf msg cause => msg +:+ ": " +:+ Error cause
  end.

(** [key.Binding]: the keys it answers to and its help entry. *)
Record Binding := mkBinding { bindingKeys : list string; helpKey : string; helpDesc : string }.

Definition keys_Record := mkBinding ["r"] "<r>" "Record".
Definition keys_StopRecording := mkBinding [" "; "enter"] "<space>" "Stop recording".
Definition keys_CopyToClip := mkBinding ["c"; "y"] "<c/y>" "Copy transcription".
Definition keys_ListTranscriptions := mkBinding ["l"] "<l>" "List transcriptions".
Definition keys_Help := mkBinding ["?"] "<?>" "Toggle help".
Definition keys_Back := mkBinding ["esc"] "<esc>" "Back".
Definition keys_Up := mkBinding ["up"; "k"] "<up/k>" "Move up".
Definition keys_Down := mkBinding ["down"; "j"] "<down/j>" "Move down".
Definition keys_Quit := mkBinding ["q"; "ctrl+c"] "<q>" "Quit".
Definition keys_Delete := mkBinding ["d"] "<d>" "Delete".
Definition keys_Confirm := mkBinding ["enter"] "<enter>" "Confirm".
Definition keys_Note :=
  mkBinding [] "Note" "Recording will automatically stop after 20 minutes".

(** [key.Matches(msg, b)] for a key message that reads [k]. *)
Definition Matches (k : string) (b : Binding) : bool :=
  bool_decide (k ∈ bindingKeys b).

Inductive Msg : Type :=
| KeyMsg (key : string)
| WindowSizeMsg (Width Height : Z)
| recordingStartedMsg
| recordingStoppedMsg (err : option error)
| transcriptionFinishedMsg (text : string) (err : option error)
| copyToClipboardMsg (err : option error)
| tickMsg
| filesMsg (files : list string)        (* a message of type []string *)
| errMsg (err : error)
| QuitMsg
| otherMsg.                             (* any message the model has no case for *)

(** [tea.Cmd]: the commands the model hands to the runtime. *)
#[warnings="-register-all"]
Inductive tea_Cmd : Type :=
| nilCmd
| Blink                                   (* textarea.Blink *)
| startRecordingCmd                       (* startRecording(m.recorder) *)
| stopRecordingCmd                        (* stopRecording(m.recorder) *)
| transcribeCmd                           (* transcribe(m.recorder, m.transcriber) *)
| copyToClipboardCmd (text : string)      (* copyToClipboard(text) *)
| loadTranscriptionsCmd                   (* loadTranscriptions *)
| deleteTranscriptionCmd (filename : string)
| tickCmd                                 (* tick *)
| windowSizeCmd (Width Height : Z)        (* the closure returning a WindowSizeMsg *)
| Quit                                    (* tea.Quit *)
| Sequence (cmds : list tea_Cmd)          (* tea.Sequence(cmds...) *)
| Batch (cmds : list tea_Cmd).            (* tea.Batch(cmds...) *)

Inductive RecordingState : Type :=
| Idle
| Recording
| Transcribing
| TranscriptionComplete.

#[global] Instance RecordingState_eq_dec : EqDecision RecordingState.
Proof. solve_decision. Defined.

(** What the viewport shows: a text, or the two panes of the list view with
    their widths.  Styles add colour and padding around a text and leave the
    text as it is; only the text is kept. *)
Inductive Content : Type :=
| Text (s : string)
| Panes (left : string) (leftWidth : Z) (right : string) (rightWidth : Z).

Definition Render (s : string) : string := s.

Record Viewport := mkViewport { vpWidth : Z; vpHeight : Z; vpContent : Content }.

Record model := mkModel {
  viewport : Viewport;
  helpShowAll : bool;                     (* m.help.ShowAll *)
  recordingState : RecordingState;
  err : option error;
  transcription : string;
  showCopied : bool;
  width : Z;
  height : Z;
  showingTranscriptions : bool;
  transcriptionFiles : list string;
  selectedIndex : Z;
  selectedContent : string;
  showingDeleteConfirmation : bool
}.

(** Assignments to the fields of the model. *)
Definition set_viewport (v : Viewport) (m : model) : model :=
  mkModel v (helpShowAll m) (recordingState m) (err m) (transcription m) (showCopied m) (width m) (height m) (showingTranscriptions m) (transcriptionFiles m) (selectedIndex m) (selectedContent m) (showingDeleteConfirmation m).
Definition set_helpShowAll (v : bool) (m : model) : model :=
  mkModel (viewport m) v (recordingState m) (err m) (transcription m) (showCopied m) (width m) (height m) (showingTranscriptions m) (transcriptionFiles m) (selectedIndex m) (selectedContent m) (showingDeleteConfirmation m).
Definition set_recordingState (v : RecordingState) (m : model) : model :=
  mkModel (viewport m) (helpShowAll m) v (err m) (transcription m) (showCopied m) (width m) (height m) (showingTranscriptions m) (transcriptionFiles m) (selectedIndex m) (selectedContent m) (showingDeleteConfirmation m).
Definition set_err (v : option error) (m : model) : model :=
  mkModel (viewport m) (helpShowAll m) (recordingState m) v (transcription m) (showCopied m) (width m) (height m) (showingTranscriptions m) (transcriptionFiles m) (selectedIndex m) (selectedContent m) (showingDeleteConfirmation m).
Definition set_transcription (v : string) (m : model) : model :=
  mkModel (viewport m) (helpShowAll m) (recordingState m) (err m) v (showCopied m) (width m) (height m) (showingTranscriptions m) (transcriptionFiles m) (selectedIndex m) (selectedContent m) (showingDeleteConfirmation m).
Definition set_showCopied (v : bool) (m : model) : model :=
  mkModel (viewport m) (helpShowAll m) (recordingState m) (err m) (transcription m) v (width m) (height m) (showingTranscriptions m) (transcriptionFiles m) (selectedIndex m) (selectedContent m) (showingDeleteConfirmation m).
Definition set_width (v : Z) (m : model) : model :=
  mkModel (viewport m) (helpShowAll m) (recordingState m) (err m) (transcription m) (showCopied m) v (height m) (showingTranscriptions m) (transcriptionFiles m) (selectedIndex m) (selectedContent m) (showingDeleteConfirmation m).
Definition set_height (v : Z) (m : model) : model :=
  mkModel (viewport m) (helpShowAll m) (recordingState m) (err m) (transcription m) (showCopied m) (width m) v (showingTranscriptions m) (transcriptionFiles m) (selectedIndex m) (selectedContent m) (showingDeleteConfirmation m).
Definition set_showingTranscriptions (v : bool) (m : model) : model :=
  mkModel (viewport m) (helpShowAll m) (recordingState m) (err m) (transcription m) (showCopied m) (width m) (height m) v (transcriptionFiles m) (selectedIndex m) (selectedContent m) (showingDeleteConfirmation m).
Definition set_transcriptionFiles (v : list string) (m : model) : model :=
  mkModel (viewport m) (helpShowAll m) (recordingState m) (err m) (transcription m) (showCopied m) (width m) (height m) (showingTranscriptions m) v (selectedIndex m) (selectedContent m) (showingDeleteConfirmation m).
Definition set_selectedIndex (v : Z) (m : model) : model :=
  mkModel (viewport m) (helpShowAll m) (recordingState m) (err m) (transcription m) (showCopied m) (width m) (height m) (showingTranscriptions m) (transcriptionFiles m) v (selectedContent m) (showingDeleteConfirmation m).
Definition set_selectedContent (v : string) (m : model) : model :=
  mkModel (viewport m) (helpShowAll m) (recordingState m) (err m) (transcription m) (showCopied m) (width m) (height m) (showingTranscriptions m) (transcriptionFiles m) (selectedIndex m) v (showingDeleteConfirmation m).
Definition set_showingDeleteConfirmation (v : bool) (m : model) : model :=
  mkModel (viewport m) (helpShowAll m) (recordingState m) (err m) (transcription m) (showCopied m) (width m) (height m) (showingTranscriptions m) (transcriptionFiles m) (selectedIndex m) (selectedContent m) v.

(** [m.viewport.SetContent(c)]. *)
Definition SetContent (c : Content) (m : model) : model :=
  set_viewport (mkViewport (vpWidth (viewport m)) (vpHeight (viewport m)) c) m.

(** [xs[i]] for a Go [int] index; out of range is a runtime panic. *)
Definition index {A : Type} (xs : list A) (i : Z) : Outcome A :=
  if i <? 0 then Panics "index out of range"
  else match xs !! Z.to_nat i with
       | Some x => Returns x
       | None => Panics "index out of range"
       end.

Definition llen {A : Type} (xs : list A) : Z := Z.of_nat (length xs).

Definition loadTranscriptionContent (h : Host) (filename : string) (fs : FS)
  : FS * (string + error) :=
  match GetAppDataDir h fs with
  | (fs', inr e) => (fs', inr (Errorf "failed to get app data directory" e))
  | (fs', inl dir) =>
      let transcriptionPath := Join [dir; TranscriptionsDir; filename] in
      match ReadFile fs' transcriptionPath with
      | inr e => (fs', inr (Errorf "failed to read transcription" e))
      | inl content => (fs', inl content)
      end
  end.

(** The loop of [loadTranscriptions] over the directory entries. *)
Fixpoint collectTxt (files : list DirEntry) : list string :=
  match files with
  | [] => []
  | file :: rest =>
      if negb (IsDir file) && bool_decide (Ext (Name file) = ".txt")
      then Name file :: collectTxt rest
      else collectTxt rest
  end.

Definition loadTranscriptions (h : Host) (fs : FS) : FS * Msg :=
  match GetAppDataDir h fs with
  | (fs', inr e) => (fs', errMsg (Errorf "failed to get app data directory" e))
  | (fs', inl dir) =>
      let transcriptionsPath := Join [dir; TranscriptionsDir] in
      match ReadDir fs' transcriptionsPath with
      | inr e => (fs', errMsg (Errorf "failed to read transcriptions directory" e))
      | inl files =>
          (fs', filesMsg (sort_by (fun a b => String.ltb b a) (collectTxt files)))
      end
  end.

Definition deleteTranscription (h : Host) (filename : string) (fs : FS) : FS * Msg :=
  match GetAppDataDir h fs with
  | (fs0, inr e) => (fs0, errMsg (Errorf "failed to get app data directory" e))
  | (fs0, inl dir) =>
      let transcriptionPath := Join [dir; TranscriptionsDir; filename] in
      match Remove fs0 transcriptionPath with
      | (fs1, Some e) => (fs1, errMsg (Errorf "failed to delete transcription" e))
      | (fs1, None) =>
          let audioFilename := TrimSuffix filename ".txt" +:+ ".wav" in
          let audioPath := Join [dir; RecordingsDir; audioFilename] in
          let fs2 := (Remove fs1 audioPath).1 in
          loadTranscriptions h fs2
      end
  end.

(** ** The views *)

Definition smallMicrophone : string := "
     @@@@@@@
   @@@@@@@@@@@
   @@@@@@@@@@@
  @@@@@@@@@@@@@
  @@@@@@@@@@@@@
  @@@@@@@@@@@@@
  @@@@@@@@@@@@@
@@@@@@@@@@@@@@@@@@
@@@ @@@@@@@@@@ @@@
@@@ @@@@@@@@@@ @@@
 @@@@ @@@@@@ @@@@
  @@@@@@@@@@@@@@
    @@@@@@@@@
       @@                
       @@
    @@@@@@@@@


".

Definition copiedNote : string := "Copied to clipboard! ✓".

Definition recordingView (m : model) : string :=
  match recordingState m with
  | Recording => Render "Recording... Press SPACE to stop"
  | Transcribing => Render "Transcribing..."
  | Idle =>
      match err m with
      | Some e => Render ("Error: " +:+ Error e +:+ nl +:+ "Press 'r' to start recording")
      | None =>
          let microphone :=
            if (30 <=? width m) && (25 <=? height m) then smallMicrophone else "" in
          Render (microphone +:+ "Press 'r' to start recording")
      end
  | TranscriptionComplete =>
      let mainContent := "Transcription complete:" +:+ nl +:+ nl +:+ transcription m in
      if showCopied m
      then Render mainContent +:+ nl +:+ nl +:+ Render copiedNote
      else Render mainContent
  end.

Definition noTranscriptions : string :=
  "No transcriptions found." +:+ nl +:+ nl +:+ "Press ESC to go back".

(** The lines of the left pane, one per file, the selected one marked. *)
Fixpoint leftPaneLines (files : list string) (i : Z) (selected : Z) : string :=
  match files with
  | [] => ""
  | file :: rest =>
      (if i =? selected then "▶ " else "  ") +:+ file +:+ nl +:+
      leftPaneLines rest (i + 1) selected
  end.

Definition minWidthForSidebar : Z := 100.

Definition transcriptionListView (m : model) : Outcome Content :=
  if llen (transcriptionFiles m) =? 0 then Returns (Text (Render noTranscriptions))
  else if showingDeleteConfirmation m then
    filename ← index (transcriptionFiles m) (selectedIndex m);
    let audioFilename := TrimSuffix filename ".txt" +:+ ".wav" in
    Returns (Text (Render (
      "Are you sure you want to delete:" +:+ nl +:+
      "• Transcription: " +:+ filename +:+ nl +:+
      "• Audio: " +:+ audioFilename +:+ nl +:+ nl +:+
      "Press ENTER to confirm or ESC to cancel")))
  else
    let maxWidth :=
      fold_left (fun mw file => if mw <? len file then len file else mw)
                (transcriptionFiles m) (len "Transcriptions:") in
    let leftWidth := maxWidth + 6 in
    let copied := if showCopied m then nl +:+ nl +:+ Render copiedNote else "" in
    if width m <? minWidthForSidebar then
      Returns (Text (Render (
        "Selected Transcription (" +:+ itoa (selectedIndex m + 1) +:+ "/" +:+
        itoa (llen (transcriptionFiles m)) +:+ "):" +:+ nl +:+ nl +:+
        selectedContent m +:+ copied)))
    else
      let leftPane :=
        "Transcriptions:" +:+ nl +:+ nl +:+
        leftPaneLines (transcriptionFiles m) 0 (selectedIndex m) in
      let rightPane :=
        "Selected Transcription:" +:+ nl +:+ nl +:+ selectedContent m +:+ copied in
      Returns (Panes leftPane leftWidth rightPane (width m - leftWidth - 5)).

(** ** The help panel *)

Definition ShortHelp (m : model) : list Binding :=
  if showingTranscriptions m then
    if showingDeleteConfirmation m then [keys_Confirm; keys_Back; keys_Help]
    else if width m <? 100 then [keys_Up; keys_Down; keys_CopyToClip; keys_Help]
    else [keys_CopyToClip; keys_Delete; keys_Help]
  else
    match recordingState m with
    | Idle => [keys_Record; keys_ListTranscriptions; keys_Help]
    | Recording => [keys_StopRecording; keys_Help]
    | Transcribing => [keys_Help]
    | TranscriptionComplete =>
        [keys_Record; keys_CopyToClip; keys_ListTranscriptions; keys_Help]
    end.

Definition FullHelp (m : model) : list (list Binding) :=
  if showingTranscriptions m then
    if showingDeleteConfirmation m
    then [[keys_Confirm; keys_Back]; [keys_Help; keys_Quit]]
    else [[keys_Up; keys_Down; keys_Back; keys_CopyToClip; keys_Delete];
          [keys_Help; keys_Quit]]
  else
    match recordingState m with
    | Recording => [[keys_StopRecording]; [keys_Help; keys_Quit]; [keys_Note]]
    | TranscriptionComplete =>
        [[keys_Record; keys_CopyToClip; keys_ListTranscriptions]; [keys_Help; keys_Quit]]
    | _ => [[keys_Record; keys_ListTranscriptions]; [keys_Help; keys_Quit]; [keys_Note]]
    end.

(** [lipgloss.Height(m.help.View(m))]: one line for the short help, and for
    the full help the length of its longest column of bindings that have
    keys. *)
Definition helpHeight (m : model) : Z :=
  if helpShowAll m then
    Z.max 1 (fold_left Z.max
      (map (fun col => llen (filter (fun b => bindingKeys b <> []) col)) (FullHelp m)) 0)
  else 1.

(** The content for the current view, as the end of [Update] and the
    window-size case set it. *)
Definition refreshContent (m : model) : Outcome model :=
  if showingTranscriptions m then
    c ← transcriptionListView m; Returns (SetContent c m)
  else Returns (SetContent (Text (recordingView m)) m).

(** ** The update functions *)

Definition handleRecordingUpdate (m : model) (msg : Msg) : model * tea_Cmd :=
  match msg with
  | KeyMsg k =>
      if Matches k keys_Record then
        if bool_decide (recordingState m = Idle) ||
           bool_decide (recordingState m = TranscriptionComplete)
        then (set_transcription "" m, startRecordingCmd)
        else (m, nilCmd)
      else if Matches k keys_StopRecording then
        if bool_decide (recordingState m = Recording)
        then (m, Sequence [stopRecordingCmd; transcribeCmd])
        else (m, nilCmd)
      else if Matches k keys_CopyToClip then
        if bool_decide (transcription m <> "") &&
           bool_decide (recordingState m = TranscriptionComplete)
        then (m, copyToClipboardCmd (transcription m))
        else (m, nilCmd)
      else (m, nilCmd)
  | _ => (m, nilCmd)
  end.

(** The common body of the Up and Down cases once the index has moved. *)
Definition reloadSelection (h : Host) (m : model) (fs : FS)
  : Outcome (model * tea_Cmd * FS) :=
  let m := set_showCopied false m in
  filename ← index (transcriptionFiles m) (selectedIndex m);
  match loadTranscriptionContent h filename fs with
  | (fs', inl content) =>
      let m := set_selectedContent content m in
      c ← transcriptionListView m;
      Returns (SetContent c m, nilCmd, fs')
  | (fs', inr _) => Returns (m, nilCmd, fs')
  end.

Definition handleTranscriptionListUpdate (h : Host) (m : model) (msg : Msg) (fs : FS)
  : Outcome (model * tea_Cmd * FS) :=
  match msg with
  | KeyMsg k =>
      if showingDeleteConfirmation m then
        if Matches k keys_Confirm then
          if 0 <? llen (transcriptionFiles m) then
            let m := set_showingDeleteConfirmation false m in
            filename ← index (transcriptionFiles m) (selectedIndex m);
            Returns (m, deleteTranscriptionCmd filename, fs)
          else Returns (m, nilCmd, fs)
        else if Matches k keys_Back then
          let m := set_showingDeleteConfirmation false m in
          c ← transcriptionListView m;
          Returns (SetContent c m, nilCmd, fs)
        else Returns (m, nilCmd, fs)
      else if Matches k keys_Delete then
        if 0 <? llen (transcriptionFiles m) then
          let m := set_showingDeleteConfirmation true m in
          c ← transcriptionListView m;
          Returns (SetContent c m, nilCmd, fs)
        else Returns (m, nilCmd, fs)
      else if Matches k keys_Record then
        let m := set_showingTranscriptions false m in
        let m := set_showCopied false m in
        let m := set_transcription "" m in
        let m := set_recordingState Idle m in
        Returns (SetContent (Text (recordingView m)) m, startRecordingCmd, fs)
      else if Matches k keys_Up then
        if 0 <? selectedIndex m
        then reloadSelection h (set_selectedIndex (selectedIndex m - 1) m) fs
        else Returns (m, nilCmd, fs)
      else if Matches k keys_Down then
        if selectedIndex m <? llen (transcriptionFiles m) - 1
        then reloadSelection h (set_selectedIndex (selectedIndex m + 1) m) fs
        else Returns (m, nilCmd, fs)
      else if Matches k keys_CopyToClip then
        if bool_decide (selectedContent m <> "") then
          Returns (set_showCopied false m, copyToClipboardCmd (selectedContent m), fs)
        else Returns (m, nilCmd, fs)
      else if Matches k keys_Back then
        let m := set_showingTranscriptions false m in
        let m := set_showCopied false m in
        let m := set_recordingState Idle m in
        Returns (SetContent (Text (recordingView m)) m, nilCmd, fs)
      else Returns (m, nilCmd, fs)
  | _ => Returns (m, nilCmd, fs)
  end.

(** The end of [Update], reached by the cases that do not return early. *)
Definition finishUpdate (m : model) (fs : FS) : Outcome (model * tea_Cmd * FS) :=
  m ← refreshContent m; Returns (m, nilCmd, fs).

Definition Update (h : Host) (m : model) (msg : Msg) (fs : FS)
  : Outcome (model * tea_Cmd * FS) :=
  match msg with
  | WindowSizeMsg w ht =>
      let verticalMarginHeight := 2 in
      let vp := mkViewport w (ht - helpHeight m - verticalMarginHeight)
                           (vpContent (viewport m)) in
      let m := set_viewport vp m in
      let m := set_width w m in
      let m := set_height ht m in
      m ← refreshContent m;
      finishUpdate m fs
  | recordingStartedMsg =>
      let m := set_recordingState Recording m in
      let m := set_err None m in
      finishUpdate m fs
  | recordingStoppedMsg e =>
      match e with
      | Some _ => finishUpdate (set_recordingState Idle (set_err e m)) fs
      | None => finishUpdate (set_recordingState Transcribing m) fs
      end
  | transcriptionFinishedMsg text e =>
      let m := set_recordingState TranscriptionComplete m in
      match e with
      | Some _ => finishUpdate (set_err e m) fs
      | None =>
          let m := set_transcription text m in
          if showingTranscriptions m then Returns (m, loadTranscriptionsCmd, fs)
          else finishUpdate m fs
      end
  | copyToClipboardMsg e =>
      match e with
      | Some _ => finishUpdate (set_err e m) fs
      | None => Returns (set_showCopied true m, Batch [nilCmd; Sequence [tickCmd]], fs)
      end
  | tickMsg => finishUpdate (set_showCopied false m) fs
  | filesMsg files =>
      let m := set_transcriptionFiles files m in
      let '(fs, m) :=
        match files with
        | first :: _ =>
            match loadTranscriptionContent h first fs with
            | (fs', inl content) => (fs', set_selectedContent content m)
            | (fs', inr _) => (fs', m)
            end
        | [] => (fs, m)
        end in
      c ← transcriptionListView m;
      Returns (SetContent c m, nilCmd, fs)
  | errMsg e => Returns (set_err (Some e) m, nilCmd, fs)
  | KeyMsg k =>
      if Matches k keys_Back && helpShowAll m then
        Returns (set_helpShowAll false m, windowSizeCmd (width m) (height m), fs)
      else if Matches k keys_Help then
        Returns (set_helpShowAll (negb (helpShowAll m)) m,
                 windowSizeCmd (width m) (height m), fs)
      else if Matches k keys_Quit then Returns (m, Quit, fs)
      else if Matches k keys_ListTranscriptions then
        let m := set_showingTranscriptions (negb (showingTranscriptions m)) m in
        if showingTranscriptions m then
          let m := set_selectedIndex 0 m in
          let m := set_selectedContent "" m in
          let content :=
            Render ("Loading transcriptions..." +:+ nl +:+ nl +:+ "Press ESC to go back") in
          Returns (SetContent (Text content) m, loadTranscriptionsCmd, fs)
        else Returns (m, nilCmd, fs)
      else if helpShowAll m then Returns (m, nilCmd, fs)
      else if showingTranscriptions m then handleTranscriptionListUpdate h m msg fs
      else Returns (let '(m', c) := handleRecordingUpdate m msg in (m', c, fs))
  | QuitMsg | otherMsg => finishUpdate m fs
  end.

(** ** The world the commands act on *)

(** The recorder and the transcriber the model points to, the file system,
    and the effects on the outside world so far (latest last). *)
Record World := mkWorld {
  w_fs : FS;
  w_recorder : Recorder;
  w_transcriber : Transcriber;
  w_effects : list Effect
}.

(** What the commands of one run meet outside. *)
Record CmdEnv := mkCmdEnv {
  startEnv : StartEnv;
  stopEnv : StopEnv;
  transcribeEnv : TranscribeEnv;
  pbcopyResult : option error
}.

Definition initialModel : model :=
  mkModel (mkViewport 0 0 (Text "")) false Idle None "" false 0 0 false [] 0 "" false.

(** The recorder and transcriber [initialModel] creates; a failure of
    [GetAppDataDir] is fatal. *)
Definition initialWorld (h : Host) (key : string) (fs : FS) : World + error :=
  match NewRecorder h fs with
  | (_, inr e) => inr e
  | (fs1, inl r) =>
      match NewTranscriber h key fs1 with
      | (_, inr e) => inr e
      | (fs2, inl t) => inl (mkWorld fs2 r t [])
      end
  end.

(** The closures behind the commands: each runs once and yields at most one
    message. *)
Definition startRecording (env : StartEnv) (w : World) : World * Msg :=
  let '(r, effs, e) := StartRecording env (w_recorder w) in
  (mkWorld (w_fs w) r (w_transcriber w) (w_effects w ++ effs),
   match e with
   | Some _ => recordingStoppedMsg e
   | None => recordingStartedMsg
   end).

Definition stopRecording (h : Host) (env : StopEnv) (w : World) : World * Msg :=
  let '(r, fs, effs, e) := StopRecording h env (w_recorder w) (w_fs w) in
  (mkWorld fs r (w_transcriber w) (w_effects w ++ effs), recordingStoppedMsg e).

Definition transcribe (env : TranscribeEnv) (w : World) : Outcome (World * Msg) :=
  let audioFile := GetOutputFile (w_recorder w) in
  '(fs, effs, (text, e)) ← Transcribe env (w_transcriber w) audioFile (w_fs w);
  Returns (mkWorld fs (w_recorder w) (w_transcriber w) (w_effects w ++ effs),
           match e with
           | Some _ => transcriptionFinishedMsg "" e
           | None => transcriptionFinishedMsg text None
           end).

Definition copyToClipboard (result : option error) (text : string) (w : World) : World * Msg :=
  (mkWorld (w_fs w) (w_recorder w) (w_transcriber w)
           (w_effects w ++ [ERunStdin ["pbcopy"] text]),
   copyToClipboardMsg result).

Definition tick (w : World) : World * Msg :=
  (mkWorld (w_fs w) (w_recorder w) (w_transcriber w) (w_effects w ++ [ESleep 2000]), tickMsg).

Definition with_fs (w : World) (fs : FS) : World :=
  mkWorld fs (w_recorder w) (w_transcriber w) (w_effects w).

(** Running a command that is not a composition. *)
Definition runCmd (h : Host) (env : CmdEnv) (c : tea_Cmd) (w : World)
  : Outcome (World * option Msg) :=
  match c with
  | nilCmd => Returns (w, None)
  | Blink => Returns (w, Some otherMsg)
  | startRecordingCmd =>
      let '(w', msg) := startRecording (startEnv env) w in Returns (w', Some msg)
  | stopRecordingCmd =>
      let '(w', msg) := stopRecording h (stopEnv env) w in Returns (w', Some msg)
  | transcribeCmd =>
      '(w', msg) ← transcribe (transcribeEnv env) w; Returns (w', Some msg)
  | copyToClipboardCmd text =>
      let '(w', msg) := copyToClipboard (pbcopyResult env) text w in Returns (w', Some msg)
  | loadTranscriptionsCmd =>
      let '(fs, msg) := loadTranscriptions h (w_fs w) in Returns (with_fs w fs, Some msg)
  | deleteTranscriptionCmd filename =>
      let '(fs, msg) := deleteTranscription h filename (w_fs w) in
      Returns (with_fs w fs, Some msg)
  | tickCmd => let '(w', msg) := tick w in Returns (w', Some msg)
  | windowSizeCmd wd ht => Returns (w, Some (WindowSizeMsg wd ht))
  | Quit => Returns (w, Some QuitMsg)
  | Sequence _ | Batch _ => Returns (w, None)
  end.

(** One message through [Update], with the file system of the world. *)
Definition deliver (h : Host) (msg : Msg) (st : model * World)
  : Outcome (model * World * tea_Cmd) :=
  '(m, c, fs) ← Update h st.1 msg (w_fs st.2);
  Returns (m, with_fs st.2 fs, c).

(** A run in which every command returned by [Update] is carried out at
    once, the parts of a composition in their order, and its message is
    delivered before anything else happens.  [fuel] bounds the nesting of
    commands that lead to further commands. *)
Fixpoint carryOut (fuel : nat) (h : Host) (env : CmdEnv) (c : tea_Cmd) (st : model * World)
  : Outcome (model * World) :=
  match fuel with
  | O => Returns st
  | S fuel' =>
      match c with
      | Sequence cs | Batch cs =>
          fold_left (fun acc c' => st' ← acc; carryOut fuel' h env c' st') cs (Returns st)
      | _ =>
          '(w, msg) ← runCmd h env c st.2;
          match msg with
          | None => Returns (st.1, w)
          | Some msg =>
              '(m, w', c') ← deliver h msg (st.1, w);
              carryOut fuel' h env c' (m, w')
          end
      end
  end.

Definition press (h : Host) (env : CmdEnv) (key : string) (st : model * World)
  : Outcome (model * World) :=
  '(m, w, c) ← deliver h (KeyMsg key) st;
  carryOut 8 h env c (m, w).

Definition presses (h : Host) (env : CmdEnv) (keys : list string) (st : model * World)
  : Outcome (model * World) :=
  fold_left (fun acc key => st' ← acc; press h env key st') keys (Returns st).

(** The list view can be drawn: outside the delete confirmation it always
    can, inside it the selected file must exist. *)
Definition listViewDefined (m : model) : bool :=
  negb (showingDeleteConfirmation m) ||
  (llen (transcriptionFiles m) =? 0) ||
  ((0 <=? selectedIndex m) && (selectedIndex m <? llen (transcriptionFiles m))).

(** The selection invariant of the list view. *)
Definition selectionInBounds (m : model) : Prop :=
  transcriptionFiles m = [] \/ 0 <= selectedIndex m < llen (transcriptionFiles m).

(** ** The runtime that carries out the commands *)

(** The runtime is the Bubble Tea library, which the program only calls: it
    is modelled as the library describes [tea.Sequence] (the commands run
    one at a time, in order) and [tea.Batch] (the commands run side by
    side).  A task is a goroutine of that runtime working through the
    commands of one composition in their order: it runs the next command,
    hands the message to the event loop, and goes on once the loop has taken
    the message.  A command that is not a composition is a task of one
    step.  Taking a message and passing it to [Update] is one step of the
    loop. *)
Record Task := mkTask { pending : option Msg; remaining : list tea_Cmd }.

Inductive Event : Type :=
| Ran (task : nat) (c : tea_Cmd) (msg : option Msg)   (* a task ran its next command *)
| Delivered (task : option nat) (msg : Msg).          (* the loop passed a message to Update *)

Record Runtime := mkRuntime {
  rt_model : model;
  rt_world : World;
  rt_tasks : list Task;
  rt_trace : list Event
}.

(** The tasks a command returned by [Update] gives rise to: the parts of a
    batch run side by side, a sequence is one task. *)
Fixpoint spawn (c : tea_Cmd) : list Task :=
  match c with
  | nilCmd => []
  | Batch cs => flat_map spawn cs
  | Sequence cs => [mkTask None cs]
  | _ => [mkTask None [c]]
  end.

(** What can happen next: a message from outside (a key, a window size)
    reaches the loop; a task that is not waiting runs its next command; the
    loop takes the message a task is waiting to hand over. *)
Inductive Action : Type :=
| Input (msg : Msg)
| RunNext (task : nat) (env : CmdEnv)
| Deliver (task : nat).

Definition update (h : Host) (origin : option nat) (msg : Msg) (tasks : list Task)
    (rt : Runtime) : option Runtime :=
  match Update h (rt_model rt) msg (w_fs (rt_world rt)) with
  | Returns (m, c, fs) =>
      Some (mkRuntime m (with_fs (rt_world rt) fs) (tasks ++ spawn c)
                      (rt_trace rt ++ [Delivered origin msg]))
  | Panics _ => None
  end.

Definition act (h : Host) (a : Action) (rt : Runtime) : option Runtime :=
  match a with
  | Input msg => update h None msg (rt_tasks rt) rt
  | RunNext i env =>
      match rt_tasks rt !! i with
      | Some (mkTask None (c :: rest)) =>
          match c with
          | Sequence _ | Batch _ =>
              Some (mkRuntime (rt_model rt) (rt_world rt)
                              (<[i := mkTask None rest]> (rt_tasks rt) ++ spawn c)
                              (rt_trace rt ++ [Ran i c None]))
          | _ =>
              match runCmd h env c (rt_world rt) with
              | Returns (w, msg) =>
                  Some (mkRuntime (rt_model rt) w (<[i := mkTask msg rest]> (rt_tasks rt))
                                  (rt_trace rt ++ [Ran i c msg]))
              | Panics _ => None
              end
          end
      | _ => None
      end
  | Deliver i =>
      match rt_tasks rt !! i with
      | Some (mkTask (Some msg) rest) =>
          update h (Some i) msg (<[i := mkTask None rest]> (rt_tasks rt)) rt
      | _ => None
      end
  end.

(** An execution: the actions of a schedule one after the other; [None]
    when an action is not possible or the program panics. *)
Definition exec (h : Host) (schedule : list Action) (rt : Runtime) : option Runtime :=
  fold_left (fun acc a => rt' ← acc; act h a rt') schedule (Some rt).

(** The program at its start: the initial model and the command of [Init]. *)
Definition startProgram (w : World) : Runtime :=
  mkRuntime initialModel w (spawn Blink) [].

(** In [trace], task [i] ran the stop command, which produced a
    recording-stopped message, and the loop later took that message from
    the task. *)
Definition stopProducedThenObserved (i : nat) (trace : list Event) : Prop :=
  exists e p1 p2 p3,
    trace = p1 ++ Ran i stopRecordingCmd (Some (recordingStoppedMsg e)) ::
            p2 ++ Delivered (Some i) (recordingStoppedMsg e) :: p3.

(** Every run of the transcribe command comes after its task's stop command
    has produced its message and the loop has observed it. *)
Definition transcribeAfterStop (trace : list Event) : Prop :=
  forall pre i msg post,
    trace = pre ++ Ran i transcribeCmd msg :: post -> stopProducedThenObserved i pre.

(** No transcribe command anywhere in a command. *)
Fixpoint transcribeFree (c : tea_Cmd) : bool :=
  match c with
  | transcribeCmd => false
  | Sequence cs | Batch cs => forallb transcribeFree cs
  | _ => true
  end.

(** The stages of a task with respect to the stop-then-transcribe
    sequence. *)
Definition taskOrdered (trace : list Event) (i : nat) (t : Task) : Prop :=
  (pending t = None /\ remaining t = [stopRecordingCmd; transcribeCmd]) \/
  (exists e p1 p2,
     pending t = Some (recordingStoppedMsg e) /\ remaining t = [transcribeCmd] /\
     trace = p1 ++ Ran i stopRecordingCmd (Some (recordingStoppedMsg e)) :: p2) \/
  (pending t = None /\ remaining t = [transcribeCmd] /\ stopProducedThenObserved i trace) \/
  forallb transcribeFree (remaining t) = true.

Definition runtimeOrdered (rt : Runtime) : Prop :=
  transcribeAfterStop (rt_trace rt) /\
  forall i t, rt_tasks rt !! i = Some t -> taskOrdered (rt_trace rt) i t.

(** ** Auxiliary notions for the properties *)

(** Reading back what [appendInt] wrote. *)
Definition parseDigits (s : string) : option N :=
  N.of_uint <$> NilEmpty.uint_of_string s.

Definition parseInt (s : string) : option Z :=
  match s with
  | String "-" s' => (fun n => - Z.of_N n) <$> parseDigits s'
  | _ => Z.of_N <$> parseDigits s
  end.

(** The day of the year of a month and day, the inverse of [monthDay]. *)
Definition dayOfYear (leap : bool) (md : Z * Z) : Z :=
  nth (Z.to_nat (md.1 - 1)) daysBefore 0 + md.2 - 1 +
  (if leap && (2 <? md.1) then 1 else 0).

(** Bytes of a timestamp: digits and dashes, never a separator. *)
Definition noSeparator (s : string) : Prop := Separator ∉ chars s.

(** An element that the clean-up keeps as it is. *)
Definition plain (f : string) : Prop :=
  noSeparator f /\ f <> "" /\ f <> "." /\ f <> "..".

(** The kept elements, each followed by a separator. *)
Fixpoint dirPart (kept : list string) : string :=
  match kept with
  | [] => ""
  | k :: rest => k +:+ "/" +:+ dirPart rest
  end.

(** What [Clean] puts in front of a plain last element. *)
Definition cleanPrefix (p : string) : string :=
  let rooted := isRooted (p +:+ "/") in
  (if rooted then "/" else "") +:+
  dirPart (rev (fold_left (clean_step rooted) (Split p Separator) [])).

(** The directory part [Join] computes for a plain name in [dir/sub]. *)
Definition joinPrefix (dir sub : string) : string :=
  if bool_decide (dir = "") then cleanPrefix sub else cleanPrefix (dir +:+ "/" +:+ sub).

(** A directory prefix is empty or ends in a separator. *)
Definition endsDir (x : string) : Prop :=
  x = "" \/ exists y, x = y +:+ "/".

(** Descending order on names: each name is at least every later one. *)
Definition descending : list string -> Prop :=
  StronglySorted (fun a b => String.le b a).

(** The directory bootstrap only adds directories that are missing: every
    entry stays as it is and no regular file appears. *)
Definition onlyAddsDirectories (fs fs' : FS) : Prop :=
  (forall p n, fs !! p = Some n -> fs' !! p = Some n) /\
  (forall p c, fs' !! p = Some (RegularFile c) -> fs !! p = Some (RegularFile c)).

(** ** Example data *)

Definition fs_example : FS :=
  list_to_map [("/home/u", Directory);
               ("/home/u/.open_whisper/transcriptions/2024-01-01-00-00-00.txt", RegularFile "a");
               ("/home/u/.open_whisper/transcriptions/2024-06-01-00-00-00.txt", RegularFile "b");
               ("/home/u/.open_whisper/transcriptions/old", Directory);
               ("/home/u/.open_whisper/transcriptions/old/x.txt", RegularFile "c");
               ("/home/u/.open_whisper/recordings/2024-01-01-00-00-00.wav", RegularFile "w")].

Definition host_example : Host := mkHost "/home/u" 4242.

Definition recorder_idle : Recorder :=
  mkRecorder None "" false "/home/u/.open_whisper" None.

Definition start_ok : StartEnv := mkStartEnv (mkTime 1717200000 0 0) (inl 501).
Definition start_fails : StartEnv :=
  mkStartEnv (mkTime 1717200000 0 0) (inr (ErrExec "exec: ffmpeg: not found")).

Definition ps_example : string :=
  "  PID COMMAND" +:+ nl +:+
  "  501 ffmpeg -f avfoundation -i :1 -y /home/u/.open_whisper/recordings/a.wav" +:+ nl +:+
  " 4242 lazywhisper ffmpeg .open_whisper" +:+ nl +:+
  "  777 ffmpeg -i other.mp4 out.mp4" +:+ nl.

Definition stop_quiet : StopEnv :=
  mkStopEnv None true (inl ps_example) (fun _ => None) (fun _ fs => fs).

(** The capture process writes its file before the third look. *)
Definition stop_late_flush : StopEnv :=
  mkStopEnv (Some (ErrExec "os: process already finished")) false (inl ps_example)
    (fun pid => if bool_decide (pid = "501") then Some (ErrExec "exit status 1") else None)
    (fun i fs => if (i =? 2)%nat
                 then <["/home/u/.open_whisper/recordings/2024-06-01-00-00-00.wav" := RegularFile "RIFF"]> fs
                 else fs).

Definition recorder_active : Recorder := (StartRecording start_ok recorder_idle).1.1.

Definition june : string := "2024-06-01-00-00-00.txt".
Definition january : string := "2024-01-01-00-00-00.txt".

Definition fs_store : FS :=
  list_to_map [("/home", Directory);
               ("/home/u", Directory);
               ("/home/u/.open_whisper", Directory);
               ("/home/u/.open_whisper/recordings", Directory);
               ("/home/u/.open_whisper/transcriptions", Directory);
               ("/home/u/.open_whisper/transcriptions/2024-01-01-00-00-00.txt", RegularFile "first");
               ("/home/u/.open_whisper/transcriptions/2024-06-01-00-00-00.txt", RegularFile "second");
               ("/home/u/.open_whisper/recordings/2024-01-01-00-00-00.wav", RegularFile "RIFF1");
               ("/home/u/.open_whisper/recordings/2024-06-01-00-00-00.wav", RegularFile "RIFF2")].

Definition dq : string := String "034"%char "".

(** The body [{"text":"hello"}]. *)
Definition body_hello : string :=
  "{" +:+ dq +:+ "text" +:+ dq +:+ ":" +:+ dq +:+ "hello" +:+ dq +:+ "}".

Definition transcribe_hello : TranscribeEnv :=
  mkTranscribeEnv (inl (mkResponse 200 body_hello))
    (fun body => if bool_decide (body = body_hello) then inl "hello"
                 else inr (ErrDecode "invalid character")).

Definition env_example : CmdEnv :=
  mkCmdEnv start_ok stop_late_flush transcribe_hello None.

(** The same run against a service that cannot be reached. *)
Definition transcribe_unreachable : TranscribeEnv :=
  mkTranscribeEnv (inr (ErrNetwork "connection refused"))
    (fun _ => inr (ErrDecode "unexpected end of JSON input")).

Definition env_unreachable : CmdEnv :=
  mkCmdEnv start_ok stop_late_flush transcribe_unreachable None.

Definition world_store : World :=
  mkWorld fs_store recorder_idle (mkTranscriber "sk-test" "/home/u/.open_whisper") [].

(** The list view on two files, the older one selected, the delete
    confirmation showing. *)
Definition model_confirming : model :=
  mkModel (mkViewport 80 20 (Text "")) false Idle None "" false 80 24 true
          [june; january] 1 "first" true.

(** Two starts an hour apart around the end of daylight saving time in a
    zone that goes from four to five hours west of UTC: both read 01:30:00
    on 3 November 2024. *)
Definition start_before_fall_back : StartEnv :=
  mkStartEnv (mkTime 1730611800 0 (-14400)) (inl 501).
Definition start_after_fall_back : StartEnv :=
  mkStartEnv (mkTime 1730615400 0 (-18000)) (inl 502).

Definition start_one_second_later : StartEnv :=
  mkStartEnv (mkTime 1717200001 0 0) (inl 503).

(** A store with two audio files that [StartRecording] did not name. *)
Definition fs_flac : FS :=
  <["/tmp/a.flac" := RegularFile "fLaC"]> (<["rec" := RegularFile "RIFF"]> fs_store).

(** A schedule in which one recording is started, stopped and
    transcribed. *)
Definition schedule_example : list Action :=
  [Input (KeyMsg "r"); RunNext 1 env_example; Deliver 1;
   Input (KeyMsg " "); RunNext 2 env_example; RunNext 0 env_example; Deliver 2;
   RunNext 2 env_example; Deliver 2].

(** ** Notions for the further properties of the Recorder *)

(** What holds of a recorder between calls: an active one holds the
    started process of a command line that ends in its output file, and an
    armed 20-minute timer; an inactive one holds no process and no timer. *)
Definition recorderConsistent (r : Recorder) : Prop :=
  if isRecording r then
    exists argv pid,
      cmd r = Some (mkCmd (argv ++ [outputFile r]) (Some pid)) /\
      timer r = Some (mkTimer (20 * Minute))
  else
    timer r = None /\ forall c, cmd r = Some c -> Process c = None.

(** The time spent in [time.Sleep], in milliseconds. *)
Fixpoint sleepTotal (effs : list Effect) : Z :=
  match effs with
  | [] => 0
  | ESleep ms :: rest => ms + sleepTotal rest
  | _ :: rest => sleepTotal rest
  end.

(** The looks at a file among the effects. *)
Fixpoint statCount (effs : list Effect) : nat :=
  match effs with
  | [] => 0
  | EStatFile _ _ :: rest => S (statCount rest)
  | _ :: rest => statCount rest
  end.

(** What is done to processes through their handle: signals and waits. *)
Definition onProcess (e : Effect) : bool :=
  match e with
  | EInterrupt _ | EKill _ | EWait _ => true
  | _ => false
  end.

(** ** Notions for the further properties of the model *)


(** [key.Matches(msg, b)] for any message: only a key message matches. *)
Definition pressed (msg : Msg) (b : Binding) : bool :=
  match msg with
  | KeyMsg k => Matches k b
  | _ => false
  end.

(* ===================================================================== *)
(** * Properties *)
(* ===================================================================== *)

(** Equations between closed terms, decided by evaluating both sides. *)
Ltac by_vm :=
  lazymatch goal with |- _ = ?y => vm_cast_no_check (@eq_refl _ y) end.

Example Join_ex1 : Join ["/home/u"; ".open_whisper"] = "/home/u/.open_whisper".
Proof. vm_compute. reflexivity. Qed.
Example Join_ex2 : Join [""; "a//b/"; "../c"; "."; "x.txt"] = "a/c/x.txt".
Proof. vm_compute. reflexivity. Qed.
Example Clean_ex1 : Clean "/../a/./b/../../.." = "/".
Proof. vm_compute. reflexivity. Qed.
Example Clean_ex2 : Clean "a/../../b" = "../b".
Proof. vm_compute. reflexivity. Qed.
Example Base_ex : Base "/a/b.wav//" = "b.wav" /\ Base "///" = "/" /\ Base "" = ".".
Proof. vm_compute. auto. Qed.
Example Ext_ex : Ext "/a.b/c.tar.gz" = ".gz" /\ Ext "/a.b/c" = "" /\ Ext "x." = ".".
Proof. vm_compute. auto. Qed.
Example Fields_ex : Fields "  12 ffmpeg  -y x " = ["12"; "ffmpeg"; "-y"; "x"].
Proof. vm_compute. reflexivity. Qed.
Example Trim_ex : TrimSuffix "a.txt" ".txt" = "a" /\ TrimSuffix "a.tx" ".txt" = "a.tx".
Proof. vm_compute. auto. Qed.

Example Format_epoch : Format (mkTime 0 0 0) = "1970-01-01-00-00-00".
Proof. vm_compute. reflexivity. Qed.
Example Format_leap_day : Format (mkTime 1709251199 5 0) = "2024-02-29-23-59-59".
Proof. vm_compute. reflexivity. Qed.
Example Format_2000 : Format (mkTime 951868800 0 3600) = "2000-03-01-01-00-00".
Proof. vm_compute. reflexivity. Qed.
Example Format_2100 : Format (mkTime 4107542400 0 0) = "2100-03-01-00-00-00".
Proof. vm_compute. reflexivity. Qed.
Example Format_end_of_year : Format (mkTime 1735689599 0 0) = "2024-12-31-23-59-59".
Proof. vm_compute. reflexivity. Qed.
Example Format_before_epoch : Format (mkTime (-1) 0 0) = "1969-12-31-23-59-59".
Proof. vm_compute. reflexivity. Qed.
Example Format_year_601 : Format (mkTime (-43200000000) 0 0) = "0601-01-18-00-00-00".
Proof. vm_compute. reflexivity. Qed.

Example GetAppDataDir_ex :
  (GetAppDataDir (mkHost "/home/u" 7) fs_example).2 = inl "/home/u/.open_whisper".
Proof. vm_compute. reflexivity. Qed.

Example ReadDir_ex :
  ReadDir (GetAppDataDir (mkHost "/home/u" 7) fs_example).1 "/home/u/.open_whisper/transcriptions"
  = inl [mkDirEntry "2024-01-01-00-00-00.txt" false;
         mkDirEntry "2024-06-01-00-00-00.txt" false;
         mkDirEntry "old" true].
Proof. vm_compute. reflexivity. Qed.

(** ** The Recorder *)

Example StartRecording_ex :
  StartRecording start_ok recorder_idle =
  (mkRecorder
     (Some (mkCmd ["ffmpeg"; "-f"; "avfoundation"; "-i"; ":1"; "-y";
                   "/home/u/.open_whisper/recordings/2024-06-01-00-00-00.wav"] (Some 501)))
     "/home/u/.open_whisper/recordings/2024-06-01-00-00-00.wav" true
     "/home/u/.open_whisper" (Some (mkTimer 1200000000000)),
   [EStart ["ffmpeg"; "-f"; "avfoundation"; "-i"; ":1"; "-y";
            "/home/u/.open_whisper/recordings/2024-06-01-00-00-00.wav"] (Some 501);
    ENewTimer 1200000000000],
   None).
Proof. vm_compute. reflexivity. Qed.


Example StopRecording_ex :
  (StopRecording host_example stop_late_flush recorder_active ∅).1.2 =
  [ETimerStop;
   EInterrupt 501; EWarning "Warning: Failed to interrupt ffmpeg process"; EKill 501;
   EWait 501; EKill 501;
   ERun ["ps"; "-eo"; "pid,command"];
   ERun ["kill"; "-INT"; "501"];
   EWarning "Warning: Failed to interrupt ffmpeg process 501";
   ERun ["kill"; "-9"; "501"];
   EStatFile "/home/u/.open_whisper/recordings/2024-06-01-00-00-00.wav" false; ESleep 100;
   EStatFile "/home/u/.open_whisper/recordings/2024-06-01-00-00-00.wav" false; ESleep 100;
   EStatFile "/home/u/.open_whisper/recordings/2024-06-01-00-00-00.wav" true].
Proof. vm_compute. reflexivity. Qed.

(** C7. While a recording session is active, [StartRecording] fails with the
    already-recording error and changes nothing: the recorder it leaves is
    the recorder it found (same process handle, output file, active flag and
    timer) and no effect on the outside world takes place, so no process is
    started. *)
Theorem StartRecording_while_active (env : StartEnv) (r : Recorder) :
  IsRecording r = true ->
  StartRecording env r = (r, [], Some (ErrorNew "recording is already in progress")).
Proof.
  unfold IsRecording, StartRecording. intros ->. reflexivity.
Qed.

Lemma StartRecording_while_active_witness :
  IsRecording recorder_active = true /\
  StartRecording start_fails recorder_active =
    (recorder_active, [], Some (ErrorNew "recording is already in progress")).
Proof.
  split; [reflexivity | apply (StartRecording_while_active start_fails recorder_active); reflexivity].
Defined.

Lemma StopRecording_inactive h env r fs :
  isRecording r = false ->
  StopRecording h env r fs = (r, fs, [], Some (ErrorNew "no recording in progress")).
Proof. unfold StopRecording. intros ->. reflexivity. Qed.

Lemma StopRecording_active h env r fs :
  isRecording r = true ->
  exists fs' effs,
    StopRecording h env r fs =
      (mkRecorder None (outputFile r) false (appDataDir r) None, fs', effs, None).
Proof.
  unfold StopRecording. intros ->. cbn [negb].
  destruct (waitForFile env (outputFile r) 20 0 fs) as [fs' effsWait].
  eauto.
Qed.

Lemma StopRecording_not_recording h env r fs :
  IsRecording (StopRecording h env r fs).1.1.1 = false.
Proof.
  destruct (isRecording r) eqn:Hrec.
  - destruct (StopRecording_active h env r fs Hrec) as (fs' & effs & ->). reflexivity.
  - rewrite StopRecording_inactive by done. exact Hrec.
Qed.

(** C2, as the code has it.  After any [StopRecording] call returns the
    recorder is not active.  A call that found a session active succeeds and
    clears the process handle and the timer, whatever the shutdown, the
    orphan scan and the wait for the file met; a call that found no session
    fails with the not-recording error and leaves recorder and file system
    as they were.  The same holds at the end of every sequence of calls that
    ends with a stop. *)
Theorem StopRecording_clears_session (h : Host) (env : StopEnv) (r : Recorder) (fs : FS) :
  let '(r', fs', effs, e) := StopRecording h env r fs in
  IsRecording r' = false /\
  (if isRecording r
   then e = None /\ cmd r' = None /\ timer r' = None
   else e = Some (ErrorNew "no recording in progress") /\ r' = r /\ fs' = fs /\ effs = []) /\
  forall (cs : list Call) (st : Recorder * FS),
    IsRecording (calls h (cs ++ [CallStop env]) st).1 = false.
Proof.
  pose proof (StopRecording_not_recording h env r fs) as Hnot.
  destruct (isRecording r) eqn:Hrec.
  - destruct (StopRecording_active h env r fs Hrec) as (fs' & effs & Heq).
    rewrite Heq in *. split; [done|]. split; [done|].
    intros cs st. unfold calls. rewrite fold_left_app. simpl.
    set (st' := fold_left _ cs st).
    pose proof (StopRecording_not_recording h env st'.1 st'.2) as H'.
    destruct (StopRecording h env st'.1 st'.2) as [[[r'' fs''] effs''] e'']. exact H'.
  - rewrite StopRecording_inactive in * by done. split; [done|]. split; [done|].
    intros cs st. unfold calls. rewrite fold_left_app. simpl.
    set (st' := fold_left _ cs st).
    pose proof (StopRecording_not_recording h env st'.1 st'.2) as H'.
    destruct (StopRecording h env st'.1 st'.2) as [[[r'' fs''] effs''] e'']. exact H'.
Qed.

(** C2, as stated, fails: when the capture process could not be started,
    [StartRecording] leaves the command it built in the recorder without
    marking the session active, and the [StopRecording] call that follows
    returns the not-recording error without clearing that handle. *)
Lemma StopRecording_keeps_handle_of_failed_start :
  let st := calls host_example [CallStart start_fails; CallStop stop_quiet] (recorder_idle, ∅) in
  ~ (IsRecording st.1 = false /\ cmd st.1 = None).
Proof. vm_compute. intros [_ H]. discriminate H. Qed.

(** ** The state machine *)

Example initialWorld_ex :
  initialWorld host_example "sk-test" fs_store = inl world_store.
Proof. by_vm. Qed.

Example list_view_ex :
  (fun st : model * World =>
     (transcriptionFiles st.1, selectedIndex st.1, selectedContent st.1,
      showingDeleteConfirmation st.1))
    <$> presses host_example env_example ["l"; "j"; "d"] (initialModel, world_store)
  = Returns ([june; january], 1, "first", true).
Proof. by_vm. Qed.

(** Start, stop and transcribe against a service that answers with the text
    [hello]: the file [<timestamp>.txt] holds exactly [hello] and the model
    ends in [TranscriptionComplete] showing [hello]. *)
Example record_and_transcribe_ex :
  (fun st : model * World =>
     (recordingState st.1, transcription st.1, err st.1,
      w_fs st.2 !! "/home/u/.open_whisper/transcriptions/2024-06-01-00-00-00.txt",
      IsRecording (w_recorder st.2)))
    <$> presses host_example env_example ["r"; " "] (initialModel, world_store)
  = Returns (TranscriptionComplete, "hello", None, Some (RegularFile "hello"), false).
Proof. by_vm. Qed.

Lemma finishUpdate_defined m fs :
  (showingTranscriptions m = true -> listViewDefined m = true) ->
  exists c, finishUpdate m fs = Returns (SetContent c m, nilCmd, fs).
Proof.
  intros Hdef. unfold finishUpdate, refreshContent.
  destruct (showingTranscriptions m); [|eexists; reflexivity].
  specialize (Hdef eq_refl). unfold listViewDefined in Hdef.
  unfold transcriptionListView.
  destruct (llen (transcriptionFiles m) =? 0) eqn:Hlen; [eexists; reflexivity|].
  destruct (showingDeleteConfirmation m); simpl in *.
  - unfold index. apply andb_prop in Hdef as [H0 Hlt].
    apply Z.leb_le in H0. apply Z.ltb_lt in Hlt.
    replace (selectedIndex m <? 0) with false by (symmetry; apply Z.ltb_ge; lia).
    destruct (transcriptionFiles m !! Z.to_nat (selectedIndex m)) eqn:Hlk.
    + eexists; reflexivity.
    + apply lookup_ge_None in Hlk. unfold llen in Hlt. lia.
  - destruct (width m <? minWidthForSidebar); eexists; reflexivity.
Qed.

(** A transcription-finished message that carries an error stores that
    error in the model and moves the recording state to
    [TranscriptionComplete], whatever state it was in, and asks for no
    further command.  The model must be one whose list view can be drawn
    (in the delete confirmation the selected file exists). *)
Lemma Update_transcription_failed (h : Host) (m : model) (text : string) (e : error) (fs : FS) :
  (showingTranscriptions m = true -> listViewDefined m = true) ->
  exists m',
    Update h m (transcriptionFinishedMsg text (Some e)) fs = Returns (m', nilCmd, fs) /\
    err m' = Some e /\
    recordingState m' = TranscriptionComplete /\
    transcription m' = transcription m.
Proof.
  intros Hdef. unfold Update.
  destruct (finishUpdate_defined
              (set_err (Some e) (set_recordingState TranscriptionComplete m)) fs) as [c Hc].
  { exact Hdef. }
  rewrite Hc. eexists. split; [reflexivity|]. repeat split.
Qed.

(** C4 at a failing input.  Recording, then stopping, against a service
    that cannot be reached: the transcription-finished message carries the
    error, the model stores it and moves to [TranscriptionComplete], and the
    view that is drawn reads [Transcription complete:] over an empty
    transcription, without the error.  This holds of every model in the
    recording view and every error: the state advances and the error is
    stored, and what is put on display is the text of the
    [TranscriptionComplete] view, which has no place for the error.  The
    recording-stopped message with an error does show it: it moves to
    [Idle], whose view prints the error. *)
Theorem transcription_error_is_stored_but_not_shown :
  let failure := Errorf "failed to send request" (ErrNetwork "connection refused") in
  let shown (st : model * World) :=
    (recordingState st.1, err st.1, vpContent (viewport st.1)) in
  shown <$> presses host_example env_unreachable ["r"; " "] (initialModel, world_store)
    = Returns (TranscriptionComplete, Some failure,
               Text ("Transcription complete:" +:+ nl +:+ nl)) /\
  (forall (h : Host) (m : model) (text : string) (e : error) (fs : FS),
     exists m',
       Update h (set_showingTranscriptions false m) (transcriptionFinishedMsg text (Some e)) fs
         = Returns (m', nilCmd, fs) /\
       err m' = Some e /\
       recordingState m' = TranscriptionComplete /\
       vpContent (viewport m') =
         Text (if showCopied m
               then "Transcription complete:" +:+ nl +:+ nl +:+ transcription m +:+
                    nl +:+ nl +:+ copiedNote
               else "Transcription complete:" +:+ nl +:+ nl +:+ transcription m)) /\
  (forall (h : Host) (m : model) (e : error) (fs : FS),
     exists m',
       Update h (set_showingTranscriptions false m) (recordingStoppedMsg (Some e)) fs
         = Returns (m', nilCmd, fs) /\
       err m' = Some e /\
       recordingState m' = Idle /\
       vpContent (viewport m') =
         Text ("Error: " +:+ Error e +:+ nl +:+ "Press 'r' to start recording")).
Proof.
  cbv zeta. split; [by_vm|]. split.
  - intros h m text e fs. eexists. split; [reflexivity|].
    do 2 (split; [reflexivity|]).
    cbn [viewport vpContent SetContent set_viewport]. f_equal.
  - intros h m e fs. eexists. split; [reflexivity|].
    do 2 (split; [reflexivity|]). reflexivity.
Qed.

(** The selection stays within the list under the Up and Down keys; at the
    first entry Up changes nothing, at the last entry Down changes
    nothing. *)
Lemma Up_at_first_is_noop h m fs :
  selectedIndex m = 0 ->
  showingDeleteConfirmation m = false ->
  handleTranscriptionListUpdate h m (KeyMsg "up") fs = Returns (m, nilCmd, fs).
Proof.
  intros Hi Hc. unfold handleTranscriptionListUpdate. rewrite Hc, Hi. reflexivity.
Qed.

Lemma Down_at_last_is_noop h m fs :
  selectedIndex m = llen (transcriptionFiles m) - 1 ->
  showingDeleteConfirmation m = false ->
  handleTranscriptionListUpdate h m (KeyMsg "down") fs = Returns (m, nilCmd, fs).
Proof.
  intros Hi Hc. unfold handleTranscriptionListUpdate. rewrite Hc, Hi.
  rewrite Z.ltb_irrefl. reflexivity.
Qed.

(** Every key handled in the list view keeps the selection within the
    list: only Up and Down move it, each behind its bound check. *)
Lemma list_keys_keep_selection h m key fs m' c fs' :
  selectionInBounds m ->
  handleTranscriptionListUpdate h m (KeyMsg key) fs = Returns (m', c, fs') ->
  selectionInBounds m'.
Proof.
  unfold handleTranscriptionListUpdate, reloadSelection, selectionInBounds.
  intros Hin H.
  repeat (first
    [ progress simplify_eq/=
    | match goal with
      | H : mbind _ ?x = Returns _ |- _ => destruct x eqn:?
      | H : context [match ?x with _ => _ end] |- _ =>
          lazymatch x with
          | context [match _ with _ => _ end] => fail
          | _ => destruct x eqn:?
          end
      end ]); try done;
  repeat match goal with
         | H : (_ <? _) = true |- _ => apply Z.ltb_lt in H
         | H : (_ <? _) = false |- _ => apply Z.ltb_ge in H
         end;
  try (destruct Hin as [Hin|Hin]; [by left | right; lia]).
Qed.

(** C1 at a failing input.  In the list view on two files with the second
    one selected, confirming the deletion removes that file and reloads the
    list; the message with the one remaining file replaces the list and
    leaves the selection index at 1, outside the new list, and the next
    press of the delete key indexes the list with it and panics.  Entering
    the list view resets the index before loading; the reload after a
    deletion does not. *)
Theorem selection_out_of_range_after_delete :
  let run keys := presses host_example env_example keys (initialModel, world_store) in
  let selection (st : model * World) := (transcriptionFiles st.1, selectedIndex st.1) in
  selection <$> run ["l"; "j"; "d"] = Returns ([june; january], 1) /\
  selection <$> run ["l"; "j"; "d"; "enter"] = Returns ([june], 1) /\
  (forall m w, run ["l"; "j"; "d"; "enter"] = Returns (m, w) -> ~ selectionInBounds m) /\
  run ["l"; "j"; "d"; "enter"; "d"] = Panics "index out of range".
Proof.
  intros run selection.
  assert (selection <$> run ["l"; "j"; "d"; "enter"] = Returns ([june], 1)) as Hsel by by_vm.
  split; [by_vm|]. split; [exact Hsel|]. split; [|by_vm].
  intros m w Hrun. rewrite Hrun in Hsel. injection Hsel as Hfiles Hidx.
  unfold selectionInBounds. cbn in Hfiles, Hidx. rewrite Hfiles, Hidx.
  intros [H|[_ H]]; [discriminate | vm_compute in H; discriminate H].
Qed.

(** ** The transcription store *)

Section SortingFacts.
Context {A : Type} (less : A -> A -> bool).

Lemma insert_sorted_perm x l : insert_sorted less x l ≡ₚ x :: l.
Proof.
  induction l as [|y l IH]; simpl; [done|].
  destruct (less y x); [|done].
  rewrite IH. apply Permutation_swap.
Qed.

Lemma sort_by_perm l : sort_by less l ≡ₚ l.
Proof.
  induction l as [|x l IH]; simpl; [done|].
  rewrite insert_sorted_perm. by rewrite IH.
Qed.
End SortingFacts.

Lemma ltb_le x y : String.ltb x y = true -> String.le x y.
Proof.
  unfold String.ltb, String.le, String.leb.
  destruct (String.compare x y); simpl; intros H; try discriminate H; exact I.
Qed.

Lemma ltb_false_le x y : String.ltb x y = false -> String.le y x.
Proof.
  unfold String.ltb, String.le, String.leb. rewrite (String.compare_antisym x y).
  destruct (String.compare y x); simpl; intros H; try discriminate H; exact I.
Qed.

Lemma insert_sorted_descending x l :
  descending l -> descending (insert_sorted (fun a b => String.ltb b a) x l).
Proof.
  unfold descending. induction 1 as [|y l Hs IH Hall]; simpl.
  - repeat constructor.
  - destruct (String.ltb x y) eqn:Hlt.
    + constructor; [exact IH|].
      rewrite insert_sorted_perm. constructor; [by apply ltb_le | exact Hall].
    + apply ltb_false_le in Hlt.
      constructor; [by constructor|].
      constructor; [exact Hlt|].
      eapply Forall_impl; [exact Hall|]. intros z Hz. simpl in Hz.
      by transitivity y.
Qed.

Lemma sort_by_descending l : descending (sort_by (fun a b => String.ltb b a) l).
Proof.
  induction l as [|x l IH]; simpl; [constructor|].
  by apply insert_sorted_descending.
Qed.

Lemma collectTxt_filter files :
  collectTxt files =
  map Name (filter (fun e => IsDir e = false /\ Ext (Name e) = ".txt") files).
Proof.
  induction files as [|e files IH]; [done|].
  rewrite filter_cons. cbn [collectTxt].
  destruct (decide (IsDir e = false /\ Ext (Name e) = ".txt")) as [[Hd He]|Hn].
  - rewrite Hd, bool_decide_eq_true_2 by done. cbn. by rewrite IH.
  - destruct (IsDir e); [exact IH|].
    rewrite bool_decide_eq_false_2; [exact IH|]. intros He. by apply Hn.
Qed.

Example loadTranscriptions_ex :
  loadTranscriptions host_example fs_example =
  ((GetAppDataDir host_example fs_example).1, filesMsg [june; january]).
Proof. by_vm. Qed.

(** C5. On a directory without entries the list is empty.  On every
    directory the list holds exactly the names of the entries that are not
    directories and whose extension is [.txt], in descending order of the
    names; for the two files named after 1 January and 1 June 2024, the June
    file comes first. *)
Theorem loadTranscriptions_lists_txt_descending
    (h : Host) (fs fs' : FS) (dir : string) (entries : list DirEntry) :
  GetAppDataDir h fs = (fs', inl dir) ->
  ReadDir fs' (Join [dir; TranscriptionsDir]) = inl entries ->
  exists names,
    loadTranscriptions h fs = (fs', filesMsg names) /\
    names ≡ₚ map Name (filter (fun e => IsDir e = false /\ Ext (Name e) = ".txt") entries) /\
    descending names /\
    (entries = [] -> names = []) /\
    (entries = [mkDirEntry january false; mkDirEntry june false] -> names = [june; january]).
Proof.
  intros Hdir Hread. unfold loadTranscriptions. rewrite Hdir, Hread.
  eexists. split; [reflexivity|].
  split; [by rewrite sort_by_perm, collectTxt_filter|].
  split; [apply sort_by_descending|].
  split; intros ->; vm_compute; reflexivity.
Qed.

Lemma loadTranscriptions_lists_txt_descending_witness :
  exists names,
    loadTranscriptions host_example fs_store = (fs_store, filesMsg names) /\
    names ≡ₚ map Name (filter (fun e => IsDir e = false /\ Ext (Name e) = ".txt")
                         [mkDirEntry january false; mkDirEntry june false]) /\
    descending names /\
    ([mkDirEntry january false; mkDirEntry june false] = [] -> names = []) /\
    ([mkDirEntry january false; mkDirEntry june false]
       = [mkDirEntry january false; mkDirEntry june false] -> names = [june; january]).
Proof.
  apply (loadTranscriptions_lists_txt_descending host_example fs_store fs_store
           "/home/u/.open_whisper" [mkDirEntry january false; mkDirEntry june false]).
  - by_vm.
  - by_vm.
Defined.

Lemma onlyAddsDirectories_refl fs : onlyAddsDirectories fs fs.
Proof. by split. Qed.

Lemma onlyAddsDirectories_trans fs1 fs2 fs3 :
  onlyAddsDirectories fs1 fs2 -> onlyAddsDirectories fs2 fs3 -> onlyAddsDirectories fs1 fs3.
Proof. intros [H1 H2] [H3 H4]. split; eauto. Qed.

Lemma mkdirs_onlyAddsDirectories dirs : forall fs, onlyAddsDirectories fs (mkdirs fs dirs).1.
Proof.
  induction dirs as [|d dirs IH]; intros fs; simpl; [apply onlyAddsDirectories_refl|].
  destruct (fs !! d) as [[c|]|] eqn:Hd; simpl.
  - apply onlyAddsDirectories_refl.
  - apply IH.
  - eapply onlyAddsDirectories_trans; [|apply IH].
    split.
    + intros p n Hp. rewrite lookup_insert_ne; [done|]. intros ->. congruence.
    + intros p c Hp. destruct (decide (d = p)) as [->|Hne].
      * rewrite lookup_insert_eq in Hp. discriminate.
      * by rewrite lookup_insert_ne in Hp.
Qed.

Lemma createDirs_onlyAddsDirectories dirs :
  forall fs, onlyAddsDirectories fs (createDirs fs dirs).1.
Proof.
  induction dirs as [|d dirs IH]; intros fs; simpl; [apply onlyAddsDirectories_refl|].
  pose proof (mkdirs_onlyAddsDirectories (ancestors "" true (Split d Separator)) fs) as Hm.
  unfold MkdirAll.
  destruct (mkdirs fs _) as [fs' [e|]]; simpl in *; [exact Hm|].
  eapply onlyAddsDirectories_trans; [exact Hm | apply IH].
Qed.

Lemma GetAppDataDir_onlyAddsDirectories h fs :
  onlyAddsDirectories fs (GetAppDataDir h fs).1.
Proof.
  unfold GetAppDataDir.
  destruct (UserHomeDir h) as [home|e]; [|apply onlyAddsDirectories_refl].
  match goal with |- context [createDirs fs ?ds] =>
    pose proof (createDirs_onlyAddsDirectories ds fs) as Hc;
    destruct (createDirs fs ds) as [fs' [e|]] end; exact Hc.
Qed.

Lemma loadTranscriptions_onlyAddsDirectories h fs :
  onlyAddsDirectories fs (loadTranscriptions h fs).1.
Proof.
  unfold loadTranscriptions.
  pose proof (GetAppDataDir_onlyAddsDirectories h fs) as Hg.
  destruct (GetAppDataDir h fs) as [fs' [dir|e]]; [|exact Hg].
  destruct (ReadDir fs' _); exact Hg.
Qed.

Lemma Remove_lookup fs p :
  (Remove fs p).1 = fs \/ (Remove fs p).1 = delete p fs.
Proof.
  unfold Remove. destruct (fs !! p) as [[c|]|]; simpl; auto.
  destruct (hasEntries fs p); simpl; auto.
Qed.

Lemma Remove_file fs p c :
  fs !! p = Some (RegularFile c) -> Remove fs p = (delete p fs, None).
Proof. unfold Remove. by intros ->. Qed.

Lemma Remove_absent fs p :
  fs !! p = None -> Remove fs p = (fs, Some (ErrNotExist p)).
Proof. unfold Remove. by intros ->. Qed.

Example deleteTranscription_ex :
  let after := deleteTranscription host_example january fs_store in
  after.2 = filesMsg [june] /\
  after.1 !! "/home/u/.open_whisper/transcriptions/2024-01-01-00-00-00.txt" = None /\
  after.1 !! "/home/u/.open_whisper/recordings/2024-01-01-00-00-00.wav" = None /\
  after.1 !! "/home/u/.open_whisper/recordings/2024-06-01-00-00-00.wav"
    = Some (RegularFile "RIFF2").
Proof. repeat split; by_vm. Qed.

(** C6. With the application data directory in place, deleting a
    transcription whose file exists removes that file and then the paired
    audio file [<stem>.wav] of the recordings directory when there is one;
    when there is none nothing else changes and no error results; every
    other path is left as it was, and the answer is the reloaded list.
    Deleting a transcription whose file does not exist fails with a
    not-found error and leaves the file system as it was, the paired audio
    file included.  Finding the data directory only adds directories that
    were missing. *)
Theorem deleteTranscription_spec (h : Host) (fs fs0 : FS) (dir filename : string) :
  GetAppDataDir h fs = (fs0, inl dir) ->
  let transcriptionPath := Join [dir; TranscriptionsDir; filename] in
  let audioPath := Join [dir; RecordingsDir; TrimSuffix filename ".txt" +:+ ".wav"] in
  (forall content, fs0 !! transcriptionPath = Some (RegularFile content) ->
     exists fs1,
       deleteTranscription h filename fs = loadTranscriptions h fs1 /\
       fs1 !! transcriptionPath = None /\
       (forall audio, fs0 !! audioPath = Some (RegularFile audio) -> fs1 !! audioPath = None) /\
       (fs0 !! audioPath = None -> fs1 = delete transcriptionPath fs0) /\
       (forall p, p <> transcriptionPath -> p <> audioPath -> fs1 !! p = fs0 !! p)) /\
  (fs0 !! transcriptionPath = None ->
     exists e,
       deleteTranscription h filename fs = (fs0, errMsg e) /\
       e = Errorf "failed to delete transcription" (ErrNotExist transcriptionPath) /\
       isNotExist e = true) /\
  onlyAddsDirectories fs fs0.
Proof.
  intros Hdir tp ap. split; [|split].
  - intros content Htp. unfold deleteTranscription. rewrite Hdir.
    cbv zeta. fold tp. fold ap. rewrite (Remove_file _ _ _ Htp).
    exists (Remove (delete tp fs0) ap).1. split; [reflexivity|].
    split; [|split; [|split]].
    + destruct (Remove_lookup (delete tp fs0) ap) as [-> | ->].
      * apply lookup_delete_eq.
      * destruct (decide (ap = tp)) as [->|Hne]; [apply lookup_delete_eq|].
        rewrite lookup_delete_ne by done. apply lookup_delete_eq.
    + intros audio Hap.
      destruct (decide (tp = ap)) as [Heq|Hne].
      * rewrite <- Heq, Remove_absent by apply lookup_delete_eq. apply lookup_delete_eq.
      * rewrite (Remove_file _ _ audio) by (by rewrite lookup_delete_ne).
        apply lookup_delete_eq.
    + intros Hap. rewrite Remove_absent; [done|].
      destruct (decide (tp = ap)) as [Heq|Hne].
      * rewrite <- Heq. apply lookup_delete_eq.
      * by rewrite lookup_delete_ne.
    + intros p Hp1 Hp2.
      destruct (Remove_lookup (delete tp fs0) ap) as [-> | ->].
      * by rewrite lookup_delete_ne.
      * by rewrite !lookup_delete_ne.
  - intros Htp. unfold deleteTranscription. rewrite Hdir.
    cbv zeta. fold tp. rewrite (Remove_absent _ _ Htp).
    eexists. split; [reflexivity|]. split; reflexivity.
  - pose proof (GetAppDataDir_onlyAddsDirectories h fs) as Hg.
    by rewrite Hdir in Hg.
Qed.

Lemma deleteTranscription_spec_witness :
  let dir := "/home/u/.open_whisper" in
  GetAppDataDir host_example fs_store = (fs_store, inl dir) /\
  fs_store !! Join [dir; TranscriptionsDir; january] = Some (RegularFile "first") /\
  fs_store !! Join [dir; TranscriptionsDir; "missing.txt"] = None /\
  (exists fs1,
     deleteTranscription host_example january fs_store = loadTranscriptions host_example fs1 /\
     fs1 !! Join [dir; TranscriptionsDir; january] = None) /\
  (exists e,
     deleteTranscription host_example "missing.txt" fs_store = (fs_store, errMsg e) /\
     isNotExist e = true).
Proof.
  intros dir.
  assert (GetAppDataDir host_example fs_store = (fs_store, inl dir)) as Hdir by by_vm.
  assert (fs_store !! Join [dir; TranscriptionsDir; january] = Some (RegularFile "first"))
    as Hjan by by_vm.
  assert (fs_store !! Join [dir; TranscriptionsDir; "missing.txt"] = None) as Hmiss by by_vm.
  split; [exact Hdir|]. split; [exact Hjan|]. split; [exact Hmiss|]. split.
  - destruct (deleteTranscription_spec host_example fs_store fs_store dir january Hdir)
      as [Hexists _].
    destruct (Hexists "first" Hjan) as (fs1 & Heq & Hgone & _). eauto.
  - destruct (deleteTranscription_spec host_example fs_store fs_store dir "missing.txt" Hdir)
      as (_ & Habsent & _).
    destruct (Habsent Hmiss) as (e & Heq & _ & Hnot). eauto.
Defined.

(** ** Strings as lists of bytes *)

Lemma str_chars s : str (chars s) = s.
Proof. apply string_of_list_ascii_of_string. Qed.

Lemma chars_str l : chars (str l) = l.
Proof. apply list_ascii_of_string_of_list_ascii. Qed.

Lemma chars_inj s1 s2 : chars s1 = chars s2 -> s1 = s2.
Proof. intros H. by rewrite <- (str_chars s1), <- (str_chars s2), H. Qed.

Lemma chars_app s1 s2 : chars (s1 +:+ s2) = chars s1 ++ chars s2.
Proof.
  induction s1 as [|c s1 IH]; [done|].
  change (String c s1 +:+ s2) with (String c (s1 +:+ s2)).
  unfold chars in *. cbn [list_ascii_of_string]. by rewrite IH.
Qed.

Lemma str_app l1 l2 : str (l1 ++ l2) = str l1 +:+ str l2.
Proof. apply chars_inj. by rewrite chars_app, !chars_str. Qed.

Lemma length_chars s : length (chars s) = String.length s.
Proof. induction s as [|c s IH]; [done|]. cbn. by rewrite <- IH. Qed.

Lemma length_append s1 s2 :
  String.length (s1 +:+ s2) = (String.length s1 + String.length s2)%nat.
Proof. by rewrite <- !length_chars, chars_app, length_app. Qed.

Lemma app_assoc_str s1 s2 s3 : (s1 +:+ s2) +:+ s3 = s1 +:+ s2 +:+ s3.
Proof. apply chars_inj. by rewrite !chars_app, app_assoc. Qed.

(** Two concatenations with tails of the same length agree part by part. *)
Lemma app_inj_tail_length s1 t1 s2 t2 :
  String.length t1 = String.length t2 ->
  s1 +:+ t1 = s2 +:+ t2 -> s1 = s2 /\ t1 = t2.
Proof.
  intros Hlen Heq. apply (f_equal chars) in Heq. rewrite !chars_app in Heq.
  apply app_inj_2 in Heq as [H1 H2]; [|by rewrite !length_chars].
  split; by apply chars_inj.
Qed.

Lemma app_inj_head_length s1 t1 s2 t2 :
  String.length s1 = String.length s2 ->
  s1 +:+ t1 = s2 +:+ t2 -> s1 = s2 /\ t1 = t2.
Proof.
  intros Hlen Heq. apply (f_equal chars) in Heq. rewrite !chars_app in Heq.
  apply app_inj_1 in Heq as [H1 H2]; [|by rewrite !length_chars].
  split; by apply chars_inj.
Qed.

(** ** Decimal numbers *)

Lemma parseDigits_digits u : parseDigits (digits u) = Some u.
Proof.
  unfold parseDigits, digits. rewrite NilEmpty.usu. cbn.
  by rewrite DecimalN.Unsigned.of_to.
Qed.

Lemma parseDigits_zeros n s : parseDigits (zeros n +:+ s) = parseDigits s.
Proof.
  induction n as [|n IH]; [done|].
  unfold parseDigits in *. 
  change (zeros (S n) +:+ s) with (String "0" (zeros n +:+ s)).
  cbn [NilEmpty.uint_of_string]. rewrite <- IH.
  destruct (NilEmpty.uint_of_string (zeros n +:+ s)) as [d|]; reflexivity.
Qed.

Lemma parseDigits_not_minus s : parseDigits (String "-" s) = None.
Proof. unfold parseDigits. cbn. by destruct (NilEmpty.uint_of_string s). Qed.

Lemma digits_nonempty u : digits u <> "".
Proof.
  intros H. pose proof (NilEmpty.usu (N.to_uint u)) as Hu.
  unfold digits in H. rewrite H in Hu. cbn in Hu.
  assert (N.to_uint u = Decimal.Nil) as Hnil by congruence.
  apply (f_equal N.of_uint) in Hnil. rewrite DecimalN.Unsigned.of_to in Hnil.
  cbn in Hnil. subst u. discriminate H.
Qed.

Lemma padded_head_not_minus n u :
  exists c s, zeros n +:+ digits u = String c s /\ c <> "-"%char.
Proof.
  destruct (zeros n +:+ digits u) as [|c s] eqn:Heq.
  - apply (f_equal String.length) in Heq. rewrite length_append in Heq.
    pose proof (digits_nonempty u). destruct (digits u); [done|]. cbn in Heq. lia.
  - exists c, s. split; [done|]. intros ->.
    pose proof (parseDigits_zeros n (digits u)) as H.
    rewrite Heq, parseDigits_digits, parseDigits_not_minus in H. discriminate.
Qed.

Lemma parseInt_appendInt x width : parseInt (appendInt x width) = Some x.
Proof.
  unfold appendInt.
  set (k := (width - String.length (digits (Z.abs_N x)))%nat).
  destruct (padded_head_not_minus k (Z.abs_N x)) as (c & s & Heq & Hc).
  pose proof (parseDigits_zeros k (digits (Z.abs_N x))) as Hp.
  rewrite parseDigits_digits in Hp.
  destruct (x <? 0) eqn:Hneg.
  - apply Z.ltb_lt in Hneg.
    change (parseInt (String "-" (zeros k +:+ digits (Z.abs_N x))) = Some x).
    unfold parseInt. rewrite Hp. cbn. f_equal. lia.
  - apply Z.ltb_ge in Hneg.
    change (parseInt (zeros k +:+ digits (Z.abs_N x)) = Some x).
    rewrite Heq in *. unfold parseInt.
    destruct c as [[] [] [] [] [] [] [] []];
      try (rewrite Hp; cbn; f_equal; lia).
    by destruct Hc.
Qed.

Lemma appendInt_inj x y width : appendInt x width = appendInt y width -> x = y.
Proof.
  intros H. apply (f_equal parseInt) in H. rewrite !parseInt_appendInt in H. congruence.
Qed.

(** ** The calendar *)

Lemma yearDay_spec d :
  exists n400 n100 n4 n1 yday,
    yearDay d = (1 + 400 * n400 + 100 * n100 + 4 * n4 + n1, yday) /\
    d = 146097 * n400 + 36524 * n100 + 1461 * n4 + 365 * n1 + yday /\
    0 <= n100 <= 3 /\ 0 <= n4 <= 24 /\ 0 <= n1 <= 3 /\ 0 <= yday <= 365.
Proof.
  unfold yearDay. rewrite !Z.shiftr_div_pow2 by lia.
  change (2 ^ 2) with 4.
  eexists _, _, _, _, _. split; [reflexivity|].
  Z.to_euclidean_division_equations. lia.
Qed.

Lemma yearDay_inj d d' : yearDay d = yearDay d' -> d = d'.
Proof.
  destruct (yearDay_spec d) as (a & b & c & e & y & -> & Hd & ? & ? & ? & ?).
  destruct (yearDay_spec d') as (a' & b' & c' & e' & y' & -> & Hd' & ? & ? & ? & ?).
  intros [= Hyear Hy]. lia.
Qed.

Lemma yearDay_range d : 0 <= (yearDay d).2 <= 365.
Proof.
  destruct (yearDay_spec d) as (a & b & c & e & y & -> & _ & _ & _ & _ & H). exact H.
Qed.

Lemma dayOfYear_monthDay leap yday :
  0 <= yday <= 365 -> dayOfYear leap (monthDay leap yday) = yday.
Proof.
  intros H.
  assert (forallb (fun n => dayOfYear leap (monthDay leap (Z.of_nat n)) =? Z.of_nat n)
            (seq 0 366) = true) as Hall.
  { destruct leap; vm_compute; reflexivity. }
  rewrite forallb_forall in Hall.
  specialize (Hall (Z.to_nat yday)). rewrite Z2Nat.id in Hall by lia.
  apply Z.eqb_eq, Hall, in_seq. lia.
Qed.

Lemma monthDay_inj leap y1 y2 :
  0 <= y1 <= 365 -> 0 <= y2 <= 365 -> monthDay leap y1 = monthDay leap y2 -> y1 = y2.
Proof.
  intros H1 H2 Heq.
  rewrite <- (dayOfYear_monthDay leap y1), <- (dayOfYear_monthDay leap y2) by done.
  by rewrite Heq.
Qed.

Lemma monthDay_range leap yday :
  0 <= yday <= 365 ->
  0 <= (monthDay leap yday).1 < 100 /\ 0 <= (monthDay leap yday).2 < 100.
Proof.
  intros H.
  assert (forallb (fun n => let md := monthDay leap (Z.of_nat n) in
                            (0 <=? md.1) && (md.1 <? 100) && (0 <=? md.2) && (md.2 <? 100))
            (seq 0 366) = true) as Hall.
  { destruct leap; vm_compute; reflexivity. }
  rewrite forallb_forall in Hall.
  specialize (Hall (Z.to_nat yday)). rewrite Z2Nat.id in Hall by lia.
  cbv zeta in Hall. rewrite !andb_true_iff in Hall.
  destruct Hall as [[[? ?] ?] ?]; [apply in_seq; lia|]. lia.
Qed.

Lemma civil_inj w1 w2 : civil w1 = civil w2 -> w1 = w2.
Proof.
  unfold civil.
  pose proof (yearDay_range (w1 `div` 86400 + unixEpochDay)) as Hr1.
  pose proof (yearDay_range (w2 `div` 86400 + unixEpochDay)) as Hr2.
  pose proof (yearDay_inj (w1 `div` 86400 + unixEpochDay) (w2 `div` 86400 + unixEpochDay)) as Hinj.
  destruct (yearDay (w1 `div` 86400 + unixEpochDay)) as [y1 yd1].
  destruct (yearDay (w2 `div` 86400 + unixEpochDay)) as [y2 yd2].
  simpl in Hr1, Hr2.
  pose proof (monthDay_inj (isLeap y1) yd1 yd2 Hr1 Hr2) as Hmd.
  destruct (monthDay (isLeap y1) yd1) as [m1 dd1] eqn:E1.
  destruct (monthDay (isLeap y2) yd2) as [m2 dd2] eqn:E2.
  intros [= -> -> -> Hh Hm Hs].
  rewrite E2 in Hmd. specialize (Hmd eq_refl). subst yd2.
  specialize (Hinj eq_refl).
  Z.to_euclidean_division_equations. lia.
Qed.

(** The fields of the time of day and of the date fit two digits. *)
Lemma civil_range w :
  let '(year, month, day, hour, minute, second) := civil w in
  0 <= month < 100 /\ 0 <= day < 100 /\ 0 <= hour < 100 /\
  0 <= minute < 100 /\ 0 <= second < 100.
Proof.
  unfold civil.
  pose proof (yearDay_range (w `div` 86400 + unixEpochDay)) as Hr.
  destruct (yearDay (w `div` 86400 + unixEpochDay)) as [y yd]. simpl in Hr.
  pose proof (monthDay_range (isLeap y) yd Hr) as Hmd.
  destruct (monthDay (isLeap y) yd) as [m dd]. simpl in Hmd.
  split; [lia|]. split; [lia|].
  Z.to_euclidean_division_equations. lia.
Qed.

Lemma appendInt_two_digits v : 0 <= v < 100 -> String.length (appendInt v 2) = 2%nat.
Proof.
  intros H.
  assert (forallb (fun n => (String.length (appendInt (Z.of_nat n) 2) =? 2)%nat)
            (seq 0 100) = true) as Hall by (vm_compute; reflexivity).
  rewrite forallb_forall in Hall.
  specialize (Hall (Z.to_nat v)). rewrite Z2Nat.id in Hall by lia.
  apply Nat.eqb_eq, Hall, in_seq. lia.
Qed.

(** A dash and a two-digit field in front of a tail. *)
Lemma dash_field_inj v1 v2 t1 t2 :
  0 <= v1 < 100 -> 0 <= v2 < 100 ->
  "-" +:+ appendInt v1 2 +:+ t1 = "-" +:+ appendInt v2 2 +:+ t2 ->
  v1 = v2 /\ t1 = t2.
Proof.
  intros H1 H2 Heq.
  apply app_inj_head_length in Heq as [_ Heq]; [|done].
  apply app_inj_head_length in Heq as [Hv Ht];
    [|by rewrite !appendInt_two_digits].
  split; [by eapply appendInt_inj | done].
Qed.

Lemma Format_civil t :
  let '(year, month, day, hour, minute, second) := civil (wallSeconds t) in
  Format t =
    appendInt year 4 +:+ "-" +:+ appendInt month 2 +:+ "-" +:+ appendInt day 2 +:+ "-" +:+
    appendInt hour 2 +:+ "-" +:+ appendInt minute 2 +:+ "-" +:+ appendInt second 2.
Proof.
  unfold Format. by destruct (civil (wallSeconds t)) as [[[[[y mo] d] hh] mi] s].
Qed.

(** The timestamp determines the wall clock reading, second by second. *)
Lemma Format_inj t1 t2 : Format t1 = Format t2 -> wallSeconds t1 = wallSeconds t2.
Proof.
  intros Heq. apply civil_inj.
  pose proof (Format_civil t1) as F1. pose proof (Format_civil t2) as F2.
  pose proof (civil_range (wallSeconds t1)) as R1.
  pose proof (civil_range (wallSeconds t2)) as R2.
  destruct (civil (wallSeconds t1)) as [[[[[y1 mo1] d1] hh1] mi1] s1].
  destruct (civil (wallSeconds t2)) as [[[[[y2 mo2] d2] hh2] mi2] s2].
  destruct R1 as (? & ? & ? & ? & ?). destruct R2 as (? & ? & ? & ? & ?).
  rewrite F1, F2 in Heq. clear F1 F2.
  apply app_inj_tail_length in Heq as [Hy Heq].
  2:{ rewrite !length_append, !appendInt_two_digits by done. reflexivity. }
  apply appendInt_inj in Hy.
  apply dash_field_inj in Heq as [Hmo Heq]; [|done..].
  apply dash_field_inj in Heq as [Hd Heq]; [|done..].
  apply dash_field_inj in Heq as [Hh Heq]; [|done..].
  apply dash_field_inj in Heq as [Hmi Heq]; [|done..].
  assert (forall s, s = s +:+ "") as Hnil.
  { intros s. apply chars_inj. by rewrite chars_app, app_nil_r. }
  rewrite (Hnil (appendInt s1 2)), (Hnil (appendInt s2 2)) in Heq.
  apply dash_field_inj in Heq as [Hs _]; [|done..].
  by subst.
Qed.

Lemma Format_wallSeconds t1 t2 :
  wallSeconds t1 = wallSeconds t2 -> Format t1 = Format t2.
Proof. unfold Format. by intros ->. Qed.

Lemma noSeparator_app s1 s2 : noSeparator s1 -> noSeparator s2 -> noSeparator (s1 +:+ s2).
Proof. unfold noSeparator. rewrite chars_app, elem_of_app. tauto. Qed.

Lemma noSeparator_string_of_uint d : noSeparator (NilEmpty.string_of_uint d).
Proof.
  unfold noSeparator.
  induction d; cbn; [apply not_elem_of_nil|..];
    (apply not_elem_of_cons; split; [discriminate | exact IHd]).
Qed.

Lemma noSeparator_zeros n : noSeparator (zeros n).
Proof.
  unfold noSeparator. induction n as [|n IH]; cbn; [apply not_elem_of_nil|].
  apply not_elem_of_cons. split; [discriminate | exact IH].
Qed.

Lemma noSeparator_appendInt x width : noSeparator (appendInt x width).
Proof.
  unfold appendInt. apply noSeparator_app; [|apply noSeparator_app].
  - destruct (x <? 0); unfold noSeparator; cbn.
    + apply not_elem_of_cons. split; [discriminate | apply not_elem_of_nil].
    + apply not_elem_of_nil.
  - apply noSeparator_zeros.
  - apply noSeparator_string_of_uint.
Qed.

Lemma noSeparator_literal s :
  forallb (fun c => negb (Ascii.eqb c Separator)) (chars s) = true -> noSeparator s.
Proof.
  unfold noSeparator. rewrite forallb_forall. intros H Hin.
  apply list_elem_of_In, H in Hin. by rewrite Ascii.eqb_refl in Hin.
Qed.

Lemma noSeparator_Format t : noSeparator (Format t).
Proof.
  pose proof (Format_civil t) as F.
  destruct (civil (wallSeconds t)) as [[[[[y mo] d] hh] mi] s]. rewrite F.
  repeat (apply noSeparator_app;
          [first [apply noSeparator_appendInt | by apply noSeparator_literal]|]).
  apply noSeparator_appendInt.
Qed.

Lemma Format_length t : (19 <= String.length (Format t))%nat.
Proof.
  pose proof (Format_civil t) as F. pose proof (civil_range (wallSeconds t)) as R.
  destruct (civil (wallSeconds t)) as [[[[[y mo] d] hh] mi] s].
  destruct R as (? & ? & ? & ? & ?). rewrite F.
  rewrite !length_append, !appendInt_two_digits by done.
  assert (4 <= String.length (appendInt y 4))%nat; [|cbn; lia].
  unfold appendInt. rewrite !length_append.
  assert (String.length (zeros (4 - String.length (digits (Z.abs_N y))))
          = (4 - String.length (digits (Z.abs_N y)))%nat) as ->; [|lia].
  generalize (4 - String.length (digits (Z.abs_N y)))%nat.
  induction n as [|n IH]; cbn; [done | by rewrite IH].
Qed.

(** ** Paths *)

Lemma split_go_no_sep sep cur s :
  sep ∉ s -> split_go sep cur s = [str (rev cur ++ s)].
Proof.
  revert cur. induction s as [|c s IH]; intros cur Hs; cbn.
  - by rewrite app_nil_r.
  - apply not_elem_of_cons in Hs as [Hc Hs].
    destruct (Ascii.eqb_spec c sep) as [->|_]; [done|].
    rewrite IH by done. cbn. by rewrite <- app_assoc.
Qed.

Lemma split_go_app sep cur s t :
  split_go sep cur (s ++ sep :: t) = split_go sep cur s ++ split_go sep [] t.
Proof.
  revert cur. induction s as [|c s IH]; intros cur; cbn.
  - by rewrite Ascii.eqb_refl.
  - destruct (Ascii.eqb c sep); [cbn; f_equal|]; apply IH.
Qed.

(** The last element of a path that ends in a separator-free name. *)
Lemma Split_last p f :
  noSeparator f -> Split (p +:+ "/" +:+ f) Separator = Split p Separator ++ [f].
Proof.
  intros Hf. unfold Split. rewrite !chars_app.
  change (chars "/") with [Separator]. cbn [app].
  rewrite split_go_app, (split_go_no_sep _ _ _ Hf). cbn. by rewrite str_chars.
Qed.

Lemma JoinStrings_last kept f : JoinStrings (kept ++ [f]) "/" = dirPart kept +:+ f.
Proof.
  induction kept as [|k kept IH]; [done|].
  cbn [app dirPart]. rewrite !app_assoc_str, <- IH.
  destruct kept; reflexivity.
Qed.

Lemma isRooted_app p f : isRooted (p +:+ "/" +:+ f) = isRooted (p +:+ "/").
Proof. by destruct p. Qed.

Lemma app_nonempty_r s t : t <> "" -> s +:+ t <> "".
Proof.
  intros Ht H. apply (f_equal String.length) in H. rewrite length_append in H.
  destruct t; [done|]. cbn in H. lia.
Qed.

Lemma clean_step_plain rooted stack f : plain f -> clean_step rooted stack f = f :: stack.
Proof.
  intros (_ & Hne & Hdot & Hdots). unfold clean_step.
  by rewrite !bool_decide_eq_false_2 by done.
Qed.

Lemma Clean_plain_last p f :
  plain f -> Clean (p +:+ "/" +:+ f) = cleanPrefix p +:+ f.
Proof.
  intros Hf. pose proof Hf as (Hsep & Hne & _). unfold Clean, cleanPrefix.
  rewrite bool_decide_eq_false_2 by (apply app_nonempty_r, app_nonempty_r, Hne).
  cbv zeta. rewrite isRooted_app. set (r := isRooted (p +:+ "/")).
  rewrite Split_last, fold_left_app by done.
  cbn [fold_left]. rewrite clean_step_plain by done. cbn [rev].
  rewrite JoinStrings_last.
  destruct r; [by rewrite app_assoc_str|].
  by rewrite bool_decide_eq_false_2 by (apply app_nonempty_r, Hne).
Qed.

Lemma Join_plain_last dir sub f :
  sub <> "" -> plain f -> Join [dir; sub; f] = joinPrefix dir sub +:+ f.
Proof.
  intros Hsub Hf. unfold Join, joinPrefix.
  case_bool_decide as Hdir.
  - rewrite bool_decide_eq_false_2 by done. cbn [JoinStrings].
    by apply Clean_plain_last.
  - cbn [JoinStrings]. rewrite <- Clean_plain_last by done.
    by rewrite !app_assoc_str.
Qed.

Lemma Join_plain_inj dir sub f1 f2 :
  sub <> "" -> plain f1 -> plain f2 ->
  Join [dir; sub; f1] = Join [dir; sub; f2] -> f1 = f2.
Proof.
  intros Hsub H1 H2. rewrite !Join_plain_last by done.
  apply String.app_inj.
Qed.

Lemma dirPart_endsDir kept : endsDir (dirPart kept).
Proof.
  induction kept as [|k kept IH]; [by left|]. right. cbn.
  destruct IH as [->|[y ->]].
  - exists k. apply chars_inj. by rewrite !chars_app.
  - exists (k +:+ "/" +:+ y). by rewrite !app_assoc_str.
Qed.

Lemma cleanPrefix_endsDir p : endsDir (cleanPrefix p).
Proof.
  unfold cleanPrefix. cbv zeta.
  destruct (dirPart_endsDir
              (rev (fold_left (clean_step (isRooted (p +:+ "/"))) (Split p Separator) [])))
    as [->|[y ->]].
  - destruct (isRooted _); [right; by exists "" | by left].
  - right. eexists. by rewrite <- app_assoc_str.
Qed.

Lemma joinPrefix_endsDir dir sub : endsDir (joinPrefix dir sub).
Proof. unfold joinPrefix. case_bool_decide; apply cleanPrefix_endsDir. Qed.

Lemma elem_of_rev {A} (x : A) l : x ∈ rev l <-> x ∈ l.
Proof. rewrite !list_elem_of_In. symmetry. apply in_rev. Qed.

Lemma until_sep_app r1 r2 :
  Separator ∉ r1 -> until_sep (r1 ++ r2) = r1 ++ until_sep r2.
Proof.
  induction r1 as [|c r1 IH]; intros H; [done|].
  apply not_elem_of_cons in H as [Hc H]. cbn.
  destruct (Ascii.eqb_spec c Separator); [done|]. by rewrite IH.
Qed.

Lemma strip_seps_head c r : c <> Separator -> strip_seps (c :: r) = c :: r.
Proof. intros H. cbn. by destruct (Ascii.eqb_spec c Separator). Qed.

(** The base of a directory prefix followed by a separator-free name. *)
Lemma Base_after_dir x f :
  endsDir x -> noSeparator f -> f <> "" -> Base (x +:+ f) = f.
Proof.
  intros Hx Hf Hne. unfold Base.
  rewrite bool_decide_eq_false_2 by (by apply app_nonempty_r).
  rewrite chars_app, rev_app_distr.
  assert (exists c r, rev (chars f) = c :: r /\ c <> Separator) as (c & r & Hr & Hc).
  { destruct (rev (chars f)) as [|c r] eqn:Hr.
    - apply (f_equal (@rev _)) in Hr. rewrite rev_involutive in Hr. cbn in Hr.
      destruct Hne. apply chars_inj. by rewrite Hr.
    - exists c, r. split; [done|]. intros ->. apply Hf.
      apply elem_of_rev. rewrite Hr. left. }
  assert (until_sep (rev (chars x)) = []) as Hx'.
  { destruct Hx as [->|[y ->]]; [done|].
    rewrite chars_app, rev_app_distr. cbn. reflexivity. }
  rewrite Hr. cbn [app]. rewrite strip_seps_head by done.
  change (c :: r ++ rev (chars x)) with ((c :: r) ++ rev (chars x)).
  rewrite until_sep_app by (rewrite <- Hr; by rewrite elem_of_rev).
  rewrite Hx', app_nil_r, <- Hr, rev_involutive. apply str_chars.
Qed.

(** ** Slicing off the extension *)

Lemma len_app s t : len (s +:+ t) = len s + len t.
Proof. unfold len. rewrite length_append. lia. Qed.

Lemma slice_to_in_range s n : is_Some (slice_to s n) <-> 0 <= n <= len s.
Proof.
  unfold slice_to.
  destruct (Z.leb_spec 0 n), (Z.leb_spec n (len s)); cbn; split; intros Hs;
    first [lia | by eexists | by destruct Hs as [? [=]]].
Qed.

Lemma slice_to_app s e : slice_to (s +:+ e) (len (s +:+ e) - len e) = Some s.
Proof.
  unfold slice_to. rewrite len_app.
  replace (len s + len e - len e) with (len s) by lia.
  assert (0 <= len s /\ 0 <= len e) as [Hs He] by (unfold len; lia).
  rewrite (proj2 (Z.leb_le 0 (len s))), (proj2 (Z.leb_le (len s) (len s + len e))) by lia.
  cbn [andb]. unfold len. rewrite Nat2Z.id, chars_app, <- length_chars, take_app_length.
  by rewrite str_chars.
Qed.

Lemma ext_go_spec r : forall acc,
  ext_go r acc <> [] ->
  exists pre q, r = pre ++ "."%char :: q /\ (Separator ∉ pre) /\
                ext_go r acc = "."%char :: (rev pre ++ acc).
Proof.
  induction r as [|c r IH]; intros acc Hres; [done|]. cbn in *.
  destruct (Ascii.eqb_spec c Separator) as [->|Hsep]; [done|].
  destruct (Ascii.eqb_spec c ".") as [->|Hdot].
  - exists [], r. split; [done|]. split; [apply not_elem_of_nil | done].
  - destruct (IH (c :: acc) Hres) as (pre & q & -> & Hpre & ->).
    exists (c :: pre), q. split; [done|]. split.
    + by apply not_elem_of_cons.
    + cbn. by rewrite <- app_assoc.
Qed.

(** A path whose extension has four bytes and whose last element has a
    stem before it: cutting off the last four bytes leaves the stem, and
    the base of what is left is the base without the extension. *)
Lemma stem_of_four_byte_ext p :
  String.length (Ext p) = 4%nat -> Base p <> Ext p ->
  exists stem,
    slice_to p (len p - 4) = Some stem /\
    p = stem +:+ Ext p /\
    Base stem = TrimSuffix (Base p) (Ext p).
Proof.
  intros Hlen Hbase.
  assert (ext_go (rev (chars p)) [] <> []) as Hne.
  { intros H. unfold Ext in Hlen. by rewrite H in Hlen. }
  destruct (ext_go_spec _ _ Hne) as (pre & q & Hr & Hpre & Hext).
  rewrite app_nil_r in Hext.
  assert (chars p = rev q ++ "."%char :: rev pre) as Hp.
  { rewrite <- (rev_involutive (chars p)), Hr, rev_app_distr. cbn.
    by rewrite <- app_assoc. }
  assert (Ext p = str ("."%char :: rev pre)) as HE by (unfold Ext; by rewrite Hext).
  assert (p = str (rev q) +:+ Ext p) as Hsplit.
  { apply chars_inj. by rewrite chars_app, HE, !chars_str. }
  assert (len (Ext p) = 4) as Hlen' by (unfold len; lia).
  exists (str (rev q)). split; [|split; [done|]].
  { rewrite <- Hlen'. rewrite Hsplit at 1 2. apply slice_to_app. }
  (* the base of the whole path *)
  assert (pre <> []) as Hpre_ne.
  { intros ->. rewrite HE in Hlen. cbn in Hlen. lia. }
  assert (Base p = str (rev (until_sep q)) +:+ Ext p) as HB.
  { unfold Base. rewrite bool_decide_eq_false_2.
    2:{ intros ->. by cbn in Hlen. }
    rewrite Hr. destruct pre as [|c pre]; [done|].
    apply not_elem_of_cons in Hpre as [Hc Hpre].
    cbn [app]. rewrite strip_seps_head by done.
    change (c :: pre ++ "."%char :: q) with ((c :: pre) ++ "."%char :: q).
    rewrite until_sep_app by (by apply not_elem_of_cons).
    cbn [until_sep]. change (Ascii.eqb "." Separator) with false. cbv iota.
    rewrite HE. apply chars_inj.
    rewrite chars_app, !chars_str, rev_app_distr. cbn [rev].
    by rewrite <- !app_assoc. }
  assert (until_sep q <> []) as Hq.
  { intros H. rewrite H in HB. cbn [rev] in HB. by apply Hbase. }
  (* the base of the stem *)
  assert (Base (str (rev q)) = str (rev (until_sep q))) as ->.
  { unfold Base. destruct q as [|c q]; [done|].
    cbn in Hq. destruct (Ascii.eqb_spec c Separator) as [|Hc]; [done|].
    rewrite bool_decide_eq_false_2.
    2:{ intros H. apply (f_equal chars) in H. rewrite chars_str in H.
        apply (f_equal (@rev _)) in H. by rewrite rev_involutive in H. }
    rewrite chars_str, rev_involutive, strip_seps_head by done. reflexivity. }
  unfold TrimSuffix, HasSuffix. rewrite HB, <- !length_chars, chars_app, chars_str.
  rewrite length_app, Nat.add_sub, drop_app_length.
  rewrite bool_decide_eq_true_2 by done. by rewrite take_app_length.
Qed.

(** ** The output file of a recording *)

Lemma plain_wav t : plain (Format t +:+ ".wav").
Proof.
  pose proof (Format_length t) as Hlen.
  assert (23 <= String.length (Format t +:+ ".wav"))%nat as Hl
    by (rewrite length_append; cbn; lia).
  split; [|repeat split; intros H; rewrite H in Hl; cbn in Hl; lia].
  apply noSeparator_app; [apply noSeparator_Format | by apply noSeparator_literal].
Qed.

Lemma plain_Format t : plain (Format t).
Proof.
  pose proof (Format_length t) as Hlen.
  split; [apply noSeparator_Format|].
  repeat split; intros H; rewrite H in Hlen; cbn in Hlen; lia.
Qed.

Lemma StartRecording_outputFile env r :
  isRecording r = false ->
  outputFile (StartRecording env r).1.1 =
  Join [appDataDir r; RecordingsDir; Format (Now env) +:+ ".wav"].
Proof.
  unfold StartRecording. intros ->. by destruct (startResult env).
Qed.

Lemma outputFile_shape env r :
  isRecording r = false ->
  outputFile (StartRecording env r).1.1 =
  (joinPrefix (appDataDir r) RecordingsDir +:+ Format (Now env)) +:+ ".wav".
Proof.
  intros Hr. rewrite StartRecording_outputFile by done.
  rewrite Join_plain_last by (done || apply plain_wav).
  by rewrite app_assoc_str.
Qed.

(** C8, as stated, fails: the timestamp is the reading of the local wall
    clock, and when the zone's offset changes between two starts (the hour
    that repeats at the end of daylight saving time), two starts an hour
    apart get the same path. *)
Lemma outputFile_repeats_when_offset_changes :
  let path env := outputFile (StartRecording env recorder_idle).1.1 in
  ~ (1000000000 <= Z.abs (UnixNano (Now start_before_fall_back)
                          - UnixNano (Now start_after_fall_back)) ->
     path start_before_fall_back <> path start_after_fall_back).
Proof.
  intros path H. apply H; [vm_compute; discriminate|]. vm_compute. reflexivity.
Qed.

(** C8, as the code has it.  The output file of [StartRecording] is a
    function of the recorder's data directory and the start time: the
    timestamp of the local wall clock, to the second, with [.wav], in the
    recordings directory.  Two start times get the same path exactly when
    their wall clock readings agree to the second; so two start times at
    least one second apart and under the same offset from UTC get distinct
    paths. *)
Theorem outputFile_of_start_time (r : Recorder) (env1 env2 : StartEnv) :
  isRecording r = false ->
  let path env := outputFile (StartRecording env r).1.1 in
  path env1 = Join [appDataDir r; RecordingsDir; Format (Now env1) +:+ ".wav"] /\
  (path env1 = path env2 <-> wallSeconds (Now env1) = wallSeconds (Now env2)) /\
  (zoneOffset (Now env1) = zoneOffset (Now env2) ->
   0 <= nsec (Now env1) < 1000000000 ->
   0 <= nsec (Now env2) < 1000000000 ->
   1000000000 <= Z.abs (UnixNano (Now env1) - UnixNano (Now env2)) ->
   path env1 <> path env2).
Proof.
  intros Hr path.
  assert (path env1 = path env2 <-> wallSeconds (Now env1) = wallSeconds (Now env2)) as Hiff.
  { unfold path. rewrite !StartRecording_outputFile by done. split.
    - intros H. apply Join_plain_inj in H; [|done|apply plain_wav..].
      apply Format_inj.
      by apply app_inj_tail_length in H as [H _].
    - intros H. by rewrite (Format_wallSeconds _ _ H). }
  split; [by apply StartRecording_outputFile|]. split; [exact Hiff|].
  intros Hzone Hn1 Hn2 Hapart Heq. apply Hiff in Heq.
  unfold wallSeconds, UnixNano in *. lia.
Qed.

Lemma outputFile_of_start_time_witness :
  let path env := outputFile (StartRecording env recorder_idle).1.1 in
  isRecording recorder_idle = false /\
  zoneOffset (Now start_ok) = zoneOffset (Now start_one_second_later) /\
  1000000000 <= Z.abs (UnixNano (Now start_ok) - UnixNano (Now start_one_second_later)) /\
  path start_ok = "/home/u/.open_whisper/recordings/2024-06-01-00-00-00.wav" /\
  path start_ok <> path start_one_second_later.
Proof.
  destruct (outputFile_of_start_time recorder_idle start_ok start_one_second_later)
    as (Hpath & _ & Hneq); [reflexivity|].
  split; [reflexivity|]. split; [reflexivity|]. split; [vm_compute; discriminate|].
  split; [rewrite Hpath; vm_compute; reflexivity|].
  apply Hneq; [reflexivity | vm_compute; split; [discriminate | reflexivity]..
              | vm_compute; discriminate].
Defined.

(** ** The Transcriber *)

Lemma Transcribe_reaches_slice env t audioFile fs data resp text :
  fs !! audioFile = Some (RegularFile data) ->
  sendResult env = inl resp ->
  StatusCode resp = StatusOK ->
  decodeText env (Body resp) = inl text ->
  Transcribe env t audioFile fs =
  let post := EPost apiURL ("Bearer " +:+ apiKey t) (Base audioFile) data "whisper-1" in
  match slice_to audioFile (len audioFile - 4) with
  | None => Panics "slice bounds out of range"
  | Some stem =>
      match WriteFile fs (Join [t_appDataDir t; TranscriptionsDir; Base stem +:+ ".txt"]) text with
      | (fs', Some e) => Returns (fs', [post], ("", Some (Errorf "failed to save transcription" e)))
      | (fs', None) => Returns (fs', [post], (text, None))
      end
  end.
Proof.
  intros Hfile Hsend Hstatus Hdecode. unfold Transcribe.
  rewrite Hfile, Hsend, Hstatus, Hdecode. reflexivity.
Qed.

Lemma WriteFile_ok fs path data :
  fs !! path <> Some Directory ->
  dirExists fs (parentDir path) = true ->
  WriteFile fs path data = (<[path := RegularFile data]> fs, None).
Proof.
  intros Hnd Hdir. unfold WriteFile. rewrite Hdir.
  destruct (fs !! path) as [[c|]|]; done.
Qed.

(** C3, as the code has it.  For an audio path that names a readable file
    and whose last element is a stem followed by an extension of four bytes
    (such as [.wav]), and a response with status 200 whose body decodes to a
    text: when the transcription file can be written, [Transcribe] writes
    exactly that text to the file of the transcriptions directory named by
    the base name with [.txt] in place of the extension, posts the audio
    once, and returns the text. *)
Theorem Transcribe_writes_text
    (env : TranscribeEnv) (t : Transcriber) (audioFile : string) (fs : FS)
    (data : string) (resp : Response) (text : string) :
  fs !! audioFile = Some (RegularFile data) ->
  sendResult env = inl resp ->
  StatusCode resp = StatusOK ->
  decodeText env (Body resp) = inl text ->
  String.length (Ext audioFile) = 4%nat ->
  Base audioFile <> Ext audioFile ->
  let transcriptionFile :=
    Join [t_appDataDir t; TranscriptionsDir;
          TrimSuffix (Base audioFile) (Ext audioFile) +:+ ".txt"] in
  fs !! transcriptionFile <> Some Directory ->
  dirExists fs (parentDir transcriptionFile) = true ->
  Transcribe env t audioFile fs =
  Returns (<[transcriptionFile := RegularFile text]> fs,
           [EPost apiURL ("Bearer " +:+ apiKey t) (Base audioFile) data "whisper-1"],
           (text, None)).
Proof.
  intros Hfile Hsend Hstatus Hdecode Hext Hstem target Hnd Hdir.
  rewrite (Transcribe_reaches_slice _ _ _ _ _ _ _ Hfile Hsend Hstatus Hdecode).
  destruct (stem_of_four_byte_ext audioFile Hext Hstem) as (stem & Hslice & _ & Hbase).
  cbv zeta. rewrite Hslice, Hbase. fold target.
  by rewrite WriteFile_ok.
Qed.

Lemma Transcribe_writes_text_witness :
  let t := w_transcriber world_store in
  let audioFile := "/home/u/.open_whisper/recordings/2024-06-01-00-00-00.wav" in
  let transcriptionFile :=
    Join [t_appDataDir t; TranscriptionsDir;
          TrimSuffix (Base audioFile) (Ext audioFile) +:+ ".txt"] in
  fs_store !! audioFile = Some (RegularFile "RIFF2") /\
  Ext audioFile = ".wav" /\
  transcriptionFile = "/home/u/.open_whisper/transcriptions/2024-06-01-00-00-00.txt" /\
  Transcribe transcribe_hello t audioFile fs_store =
  Returns (<[transcriptionFile := RegularFile "hello"]> fs_store,
           [EPost apiURL ("Bearer " +:+ apiKey t) (Base audioFile) "RIFF2" "whisper-1"],
           ("hello", None)).
Proof.
  intros t audioFile transcriptionFile.
  split; [vm_compute; reflexivity|]. split; [vm_compute; reflexivity|].
  split; [vm_compute; reflexivity|].
  apply (Transcribe_writes_text transcribe_hello t audioFile fs_store
           "RIFF2" (mkResponse 200 body_hello) "hello").
  - vm_compute; reflexivity.
  - reflexivity.
  - reflexivity.
  - vm_compute; reflexivity.
  - vm_compute; reflexivity.
  - vm_compute; discriminate.
  - vm_compute; discriminate.
  - vm_compute; reflexivity.
Defined.

Example Transcribe_flac_ex :
  Transcribe transcribe_hello (w_transcriber world_store) "/tmp/a.flac" fs_flac
  = Returns (<["/home/u/.open_whisper/transcriptions/a..txt" := RegularFile "hello"]> fs_flac,
             [EPost apiURL "Bearer sk-test" "a.flac" "fLaC" "whisper-1"], ("hello", None)).
Proof. by_vm. Qed.

Example Transcribe_short_path_ex :
  Transcribe transcribe_hello (w_transcriber world_store) "rec" fs_flac
  = Panics "slice bounds out of range".
Proof. vm_compute. reflexivity. Qed.

(** C3, as stated, fails for paths that can be opened but do not end in a
    four-byte extension: for [a.flac] the text goes to [a..txt] and nothing
    is written to [a.txt]; for the three-byte path [rec] the call panics. *)
Lemma Transcribe_misnames_other_extensions :
  let t := w_transcriber world_store in
  ~ (exists fs' effs,
       Transcribe transcribe_hello t "/tmp/a.flac" fs_flac = Returns (fs', effs, ("hello", None)) /\
       fs' !! Join [t_appDataDir t; TranscriptionsDir;
                    TrimSuffix (Base "/tmp/a.flac") (Ext "/tmp/a.flac") +:+ ".txt"]
         = Some (RegularFile "hello")) /\
  ~ (exists fs' effs,
       Transcribe transcribe_hello t "rec" fs_flac = Returns (fs', effs, ("hello", None))).
Proof.
  intros t. subst t. split.
  - intros (fs' & effs & Hret & Hfile).
    rewrite Transcribe_flac_ex in Hret. injection Hret as <- _.
    vm_compute in Hfile. discriminate Hfile.
  - intros (fs' & effs & Hret).
    rewrite Transcribe_short_path_ex in Hret. discriminate Hret.
Qed.

Lemma slice_to_split s n stem :
  slice_to s n = Some stem ->
  exists rest, s = stem +:+ rest /\ len stem = n /\ len rest = len s - n.
Proof.
  unfold slice_to.
  destruct (Z.leb_spec 0 n), (Z.leb_spec n (len s)); cbn; intros [= <-].
  exists (str (drop (Z.to_nat n) (chars s))).
  assert (length (chars s) = Z.to_nat (len s)) as Hl
    by (unfold len; rewrite Nat2Z.id; apply length_chars).
  split; [|split].
  - apply chars_inj. by rewrite chars_app, !chars_str, take_drop.
  - unfold len. rewrite <- length_chars, chars_str, length_take. lia.
  - unfold len at 1. rewrite <- length_chars, chars_str, length_drop.
    unfold len in *. rewrite <- length_chars in *. lia.
Qed.

Lemma Ext_wav s : Ext (s +:+ ".wav") = ".wav".
Proof. unfold Ext. rewrite chars_app, rev_app_distr. reflexivity. Qed.

(** C10. Once the response is decoded, [Transcribe] cuts the last four
    bytes off the audio path.  The cut is within bounds exactly when the
    path has at least four bytes: a shorter path makes the call panic, a
    path of four bytes or more is split into what is kept and its last four
    bytes, and the text goes to the file named after the base of what is
    kept.  Every output file of [StartRecording] ends in [.wav], which is
    its extension, has more than four bytes, and is cut to a path whose base
    is the timestamp.
    [Transcribe] does not check the length itself: an existing file with a
    three-byte path makes it panic. *)
Theorem Transcribe_slice_bounds :
  (forall (env : TranscribeEnv) (t : Transcriber) (audioFile : string) (fs : FS)
          (data : string) (resp : Response) (text : string),
     fs !! audioFile = Some (RegularFile data) ->
     sendResult env = inl resp ->
     StatusCode resp = StatusOK ->
     decodeText env (Body resp) = inl text ->
     (Transcribe env t audioFile fs = Panics "slice bounds out of range" <-> len audioFile < 4) /\
     (4 <= len audioFile ->
      exists stem last4,
        audioFile = stem +:+ last4 /\ len last4 = 4 /\
        Transcribe env t audioFile fs =
        let post := EPost apiURL ("Bearer " +:+ apiKey t) (Base audioFile) data "whisper-1" in
        match WriteFile fs (Join [t_appDataDir t; TranscriptionsDir; Base stem +:+ ".txt"]) text with
        | (fs', Some e) =>
            Returns (fs', [post], ("", Some (Errorf "failed to save transcription" e)))
        | (fs', None) => Returns (fs', [post], (text, None))
        end)) /\
  (forall (env : StartEnv) (r : Recorder),
     isRecording r = false ->
     let path := outputFile (StartRecording env r).1.1 in
     HasSuffix path ".wav" = true /\ 4 < len path /\ Ext path = ".wav" /\
     exists stem, slice_to path (len path - 4) = Some stem /\
                  path = stem +:+ ".wav" /\ Base stem = Format (Now env)) /\
  (fs_flac !! "rec" = Some (RegularFile "RIFF") /\
   Transcribe transcribe_hello (w_transcriber world_store) "rec" fs_flac
     = Panics "slice bounds out of range").
Proof.
  split; [|split].
  - intros env t audioFile fs data resp text Hfile Hsend Hstatus Hdecode.
    rewrite (Transcribe_reaches_slice _ _ _ _ _ _ _ Hfile Hsend Hstatus Hdecode).
    cbv zeta.
    pose proof (slice_to_in_range audioFile (len audioFile - 4)) as Hrange.
    destruct (slice_to audioFile (len audioFile - 4)) as [stem|] eqn:Hslice.
    + assert (4 <= len audioFile) as Hlen.
      { destruct Hrange as [Hrange _]. specialize (Hrange (mk_is_Some _ _ eq_refl)). lia. }
      split.
      * split; [|lia]. by destruct (WriteFile fs _ text) as [? []].
      * intros _. destruct (slice_to_split _ _ _ Hslice) as (rest & Hsplit & _ & Hrest).
        exists stem, rest. split; [done|]. split; [lia|]. reflexivity.
    + assert (len audioFile < 4) as Hlen.
      { destruct (Z.lt_ge_cases (len audioFile) 4) as [|Hge]; [done|].
        destruct Hrange as [_ Hrange].
        assert (0 <= len audioFile - 4 <= len audioFile) as Hin by lia.
        by destruct (Hrange Hin). }
      split; [done|]. lia.
  - intros env r Hr path. subst path. rewrite outputFile_shape by done.
    set (stem := joinPrefix (appDataDir r) RecordingsDir +:+ Format (Now env)).
    assert (len (stem +:+ ".wav") = len stem + 4) as Hlen by (by rewrite len_app).
    split; [|split; [|split]].
    + unfold HasSuffix. rewrite <- !length_chars, chars_app, length_app.
      rewrite Nat.add_sub, drop_app_length. by apply bool_decide_eq_true_2.
    + pose proof (Format_length (Now env)) as HF.
      rewrite Hlen. unfold stem. rewrite len_app. unfold len. lia.
    + apply Ext_wav.
    + exists stem. split; [|split; [done|]].
      * change 4 with (len ".wav"). apply slice_to_app.
      * apply Base_after_dir; [apply joinPrefix_endsDir | apply noSeparator_Format|].
        apply plain_Format.
  - split; [by_vm|]. apply Transcribe_short_path_ex.
Qed.

Lemma Transcribe_slice_bounds_witness :
  let t := w_transcriber world_store in
  let audioFile := "/home/u/.open_whisper/recordings/2024-06-01-00-00-00.wav" in
  fs_store !! audioFile = Some (RegularFile "RIFF2") /\
  4 <= len audioFile /\
  Transcribe transcribe_hello t audioFile fs_store <> Panics "slice bounds out of range" /\
  isRecording recorder_idle = false /\
  HasSuffix (outputFile (StartRecording start_ok recorder_idle).1.1) ".wav" = true.
Proof.
  intros t audioFile.
  destruct Transcribe_slice_bounds as (Hslice & Hstart & _).
  assert (fs_store !! audioFile = Some (RegularFile "RIFF2")) as Hfile by by_vm.
  assert (4 <= len audioFile) as Hlen by (vm_compute; discriminate).
  destruct (Hslice transcribe_hello t audioFile fs_store "RIFF2" (mkResponse 200 body_hello)
              "hello" Hfile eq_refl eq_refl) as [Hpanic _]; [by_vm|].
  destruct (Hstart start_ok recorder_idle eq_refl) as [Hsuffix _].
  split; [exact Hfile|]. split; [exact Hlen|]. split; [|split; [reflexivity | exact Hsuffix]].
  intros Hp. apply Hpanic in Hp. lia.
Defined.

(** ** The order of stop and transcribe *)

Lemma handleRecordingUpdate_cmd m msg :
  (handleRecordingUpdate m msg).2 = Sequence [stopRecordingCmd; transcribeCmd] \/
  transcribeFree (handleRecordingUpdate m msg).2 = true.
Proof.
  unfold handleRecordingUpdate.
  destruct msg; try (by right).
  repeat (match goal with |- context [if ?b then _ else _] => destruct b end;
          try (by right); try (by left)).
Qed.

Lemma Update_cmd h m msg fs m' c fs' :
  Update h m msg fs = Returns (m', c, fs') ->
  c = Sequence [stopRecordingCmd; transcribeCmd] \/ transcribeFree c = true.
Proof.
  unfold Update, finishUpdate, refreshContent, handleTranscriptionListUpdate,
    reloadSelection, index.
  pose proof (handleRecordingUpdate_cmd m msg) as Hrec.
  destruct (handleRecordingUpdate m msg) as [mr cr]. cbn [snd] in Hrec.
  intros H.
  repeat (first
    [ progress simplify_eq/=
    | match goal with
      | H : mbind _ ?x = Returns _ |- _ => destruct x eqn:?
      | H : context [match ?x with _ => _ end] |- _ =>
          lazymatch x with
          | context [match _ with _ => _ end] => fail
          | _ => destruct x eqn:?
          end
      end ]); try (by right); try done.
Qed.

Lemma spawn_transcribeFree :
  forall c, transcribeFree c = true ->
  Forall (fun t => pending t = None /\ forallb transcribeFree (remaining t) = true) (spawn c).
Proof.
  fix IH 1. intros c Hfree.
  destruct c; try (by repeat constructor).
  cbn in *. induction cmds as [|c cs IHcs]; [constructor|].
  cbn in *. apply andb_prop in Hfree as [Hc Hcs].
  apply Forall_app. split; [apply IH, Hc | apply IHcs, Hcs].
Qed.

(** The tasks a command returned by [Update] starts are not waiting, and are
    either the stop-then-transcribe sequence or free of transcribe. *)
Lemma spawn_ordered h m msg fs m' c fs' trace i t :
  Update h m msg fs = Returns (m', c, fs') ->
  spawn c !! i = Some t ->
  forall j, taskOrdered trace j t.
Proof.
  intros Hupd Ht j. destruct (Update_cmd _ _ _ _ _ _ _ Hupd) as [->|Hfree].
  - destruct i; [|done]. cbn in Ht. injection Ht as <-. by left.
  - pose proof (spawn_transcribeFree c Hfree) as Hall.
    rewrite Forall_lookup in Hall. destruct (Hall i t Ht) as [_ Hrem].
    by repeat right.
Qed.

Lemma stopProducedThenObserved_snoc i trace ev :
  stopProducedThenObserved i trace -> stopProducedThenObserved i (trace ++ [ev]).
Proof.
  intros (e & p1 & p2 & p3 & ->). exists e, p1, p2, (p3 ++ [ev]).
  by rewrite <- !app_assoc, <- !app_comm_cons, <- !app_assoc, <- !app_comm_cons.
Qed.

Lemma taskOrdered_snoc trace ev i t :
  taskOrdered trace i t -> taskOrdered (trace ++ [ev]) i t.
Proof.
  intros [H|[(e & p1 & p2 & Hp & Hr & ->)|[(Hp & Hr & Hobs)|H]]].
  - by left.
  - right; left. exists e, p1, (p2 ++ [ev]). split; [done|]. split; [done|].
    by rewrite <- app_assoc.
  - right; right; left. split; [done|]. split; [done|].
    by apply stopProducedThenObserved_snoc.
  - by repeat right.
Qed.

Lemma snoc_decomposition (pre post : list Event) x trace ev :
  trace ++ [ev] = pre ++ x :: post ->
  (post = [] /\ pre = trace /\ x = ev) \/
  (exists post', post = post' ++ [ev] /\ trace = pre ++ x :: post').
Proof.
  intros Heq. destruct post as [|y post _] using rev_ind.
  - left. apply app_inj_tail in Heq as [-> ->]. done.
  - right. exists post.
    rewrite app_comm_cons, app_assoc in Heq.
    apply app_inj_tail in Heq as [-> ->]. done.
Qed.

Lemma transcribeAfterStop_snoc trace ev :
  transcribeAfterStop trace ->
  (forall i msg, ev = Ran i transcribeCmd msg -> stopProducedThenObserved i trace) ->
  transcribeAfterStop (trace ++ [ev]).
Proof.
  intros Htr Hev pre i msg post Heq.
  destruct (snoc_decomposition _ _ _ _ _ Heq) as [(-> & -> & <-)|(post' & -> & ->)].
  - by eapply Hev.
  - by eapply Htr.
Qed.

Lemma tasks_after_update (tasks new : list Task) i t' j t :
  (<[i := t']> tasks ++ new) !! j = Some t ->
  (i = j /\ t = t' /\ (j < length tasks)%nat) \/
  (i <> j /\ tasks !! j = Some t) \/
  (exists k, new !! k = Some t).
Proof.
  rewrite lookup_app_Some, length_insert, list_lookup_insert_Some.
  intros [[(-> & -> & Hlt)|[Hne Hj]]|[_ Hnew]]; eauto.
Qed.

Lemma update_ordered h origin msg tasks rt rt' :
  update h origin msg tasks rt = Some rt' ->
  transcribeAfterStop (rt_trace rt) ->
  (forall i t, tasks !! i = Some t ->
               taskOrdered (rt_trace rt ++ [Delivered origin msg]) i t) ->
  runtimeOrdered rt'.
Proof.
  unfold update. intros Hupd Htrace Htasks.
  destruct (Update h (rt_model rt) msg (w_fs (rt_world rt))) as [[[m c] fs]|] eqn:HU;
    [|done].
  injection Hupd as <-. split; cbn.
  - apply transcribeAfterStop_snoc; [done | discriminate].
  - intros i t. rewrite lookup_app_Some. intros [Hi|[_ Hi]]; [by apply Htasks|].
    by eapply spawn_ordered.
Qed.

(** Each action keeps the tasks in their stages and the trace in order. *)
Lemma act_ordered h a rt rt' :
  runtimeOrdered rt -> act h a rt = Some rt' -> runtimeOrdered rt'.
Proof.
  intros [Htrace Htasks] Hact. destruct a as [msg|i env|i]; cbn in Hact.
  - eapply update_ordered; [done..|].
    intros i t Hi. by apply taskOrdered_snoc, Htasks.
  - destruct (rt_tasks rt !! i) as [[[msg|] [|c rest]]|] eqn:Hi; try done.
    specialize (Htasks i _ Hi) as Hstage.
    assert (forall j t ev, j <> i -> rt_tasks rt !! j = Some t ->
                           taskOrdered (rt_trace rt ++ [ev]) j t) as Hothers.
    { intros j t ev _ Hj. by apply taskOrdered_snoc, Htasks. }
    destruct Hstage as [[_ Hrem]|[(e & p1 & p2 & Hp & _)|[(_ & Hrem & Hobs)|Hfree]]];
      cbn in *; [| done | |].
    + (* the stop command of a fresh sequence *)
      injection Hrem as -> ->. cbn in Hact.
      destruct (stopRecording h (stopEnv env) (rt_world rt)) as [w msg] eqn:Hstop.
      injection Hact as <-. split; cbn.
      * apply transcribeAfterStop_snoc; [done | discriminate].
      * intros j t Hj. apply list_lookup_insert_Some in Hj as [(<- & <- & _)|[Hne Hj]];
          [|by apply Hothers].
        unfold stopRecording in Hstop.
        destruct (StopRecording h (stopEnv env) _ _) as [[[r fs] effs] e].
        injection Hstop as _ <-.
        right; left. exists e, (rt_trace rt), []. done.
    + (* the transcribe command, after the stop message was observed *)
      injection Hrem as -> ->. cbn in Hact.
      destruct (transcribe (transcribeEnv env) (rt_world rt)) as [[w msg]|] eqn:Htr;
        [|done].
      cbn in Hact. injection Hact as <-. split; cbn.
      * apply transcribeAfterStop_snoc; [done|]. by intros ? ? [= <- _].
      * intros j t Hj. apply list_lookup_insert_Some in Hj as [(<- & <- & _)|[Hne Hj]];
          [by repeat right | by apply Hothers].
    + (* a command of a task without transcribe *)
      apply andb_prop in Hfree as [Hc Hrest].
      assert (forall ev, taskOrdered (rt_trace rt ++ [ev]) i (mkTask None rest)) as Hnone
        by (intros; by repeat right).
      assert (forall msg ev, taskOrdered (rt_trace rt ++ [ev]) i (mkTask msg rest)) as Hself
        by (intros; by repeat right).
      assert (forall msg, Ran i c msg <> Ran i transcribeCmd msg) as Hc'
        by (intros ? [= ->]; done).
      destruct c; cbn in Hact;
        repeat match goal with
               | H : context [let '(_, _) := ?x in _] |- _ => destruct x
               | H : context [match ?x with _ => _ end] |- _ => destruct x as [[? ?]|]
               end;
        simplify_eq/=;
        (split; cbn;
         [ apply transcribeAfterStop_snoc; [done | discriminate]
         | intros j t Hj;
           first
             [ apply list_lookup_insert_Some in Hj as [(<- & <- & _)|[Hne Hj]];
               [apply Hself | by apply Hothers]
             | apply tasks_after_update in Hj as [(<- & -> & _)|[[Hne Hj]|[k Hk]]];
               [ apply Hnone | by apply Hothers | ] ] ]).
      * pose proof (spawn_transcribeFree (Sequence cmds) Hc) as Hall.
        rewrite Forall_lookup in Hall. destruct (Hall k t Hk) as [_ Hr]. by repeat right.
      * pose proof (spawn_transcribeFree (Batch cmds) Hc) as Hall.
        rewrite Forall_lookup in Hall. destruct (Hall k t Hk) as [_ Hr]. by repeat right.
  - destruct (rt_tasks rt !! i) as [[[msg|] rest]|] eqn:Hi; try done.
    eapply update_ordered; [done..|].
    intros j t Hj. apply list_lookup_insert_Some in Hj as [(<- & <- & _)|[Hne Hj]];
      [|by apply taskOrdered_snoc, Htasks].
    destruct (Htasks i _ Hi) as [[Hp _]|[(e & p1 & p2 & Hp & Hr & Htr)|[(Hp & _)|Hfree]]];
      cbn in *; try done.
    + injection Hp as ->. subst rest. right; right; left.
      split; [done|]. split; [done|].
      exists e, p1, p2, []. by rewrite Htr, <- app_assoc.
    + by repeat right.
Qed.

Lemma exec_cons h a schedule rt :
  exec h (a :: schedule) rt =
  match act h a rt with
  | Some rt' => exec h schedule rt'
  | None => None
  end.
Proof.
  unfold exec. cbn. destruct (act h a rt) as [rt'|]; [done|].
  induction schedule as [|b schedule IH]; [done|]. exact IH.
Qed.

Lemma exec_ordered h schedule : forall rt rt',
  runtimeOrdered rt -> exec h schedule rt = Some rt' -> runtimeOrdered rt'.
Proof.
  induction schedule as [|a schedule IH]; intros rt rt' Hinv Hexec.
  - by injection Hexec as <-.
  - rewrite exec_cons in Hexec.
    destruct (act h a rt) as [rt1|] eqn:Hact; [|done].
    eapply IH; [|done]. by eapply act_ordered.
Qed.

Lemma startProgram_ordered w : runtimeOrdered (startProgram w).
Proof.
  split; cbn.
  - intros pre i msg post Heq. by destruct pre.
  - intros [|i] t Ht; [|done]. injection Ht as <-. by repeat right.
Qed.

(** C9. The Stop key in the [Recording] state hands the runtime the
    sequence of the stop command and the transcribe command, which the
    runtime carries out as one task, command by command.  In every
    execution of the program, under every schedule of tasks, inputs and
    deliveries, a task runs the transcribe command only after it ran the
    stop command, that command produced its recording-stopped message, and
    the loop took that message and passed it to [Update].  Such executions
    exist: one is spelled out. *)
Theorem transcribe_only_after_stop_observed :
  (forall (h : Host) (m : model) (key : string) (fs : FS),
     recordingState m = Recording ->
     showingTranscriptions m = false ->
     helpShowAll m = false ->
     key = " " \/ key = "enter" ->
     Update h m (KeyMsg key) fs
       = Returns (m, Sequence [stopRecordingCmd; transcribeCmd], fs)) /\
  spawn (Sequence [stopRecordingCmd; transcribeCmd])
    = [mkTask None [stopRecordingCmd; transcribeCmd]] /\
  (forall (h : Host) (w : World) (schedule : list Action) (rt : Runtime),
     exec h schedule (startProgram w) = Some rt ->
     transcribeAfterStop (rt_trace rt)) /\
  rt_trace <$> exec host_example schedule_example (startProgram world_store)
    = Some [Delivered None (KeyMsg "r");
            Ran 1 startRecordingCmd (Some recordingStartedMsg);
            Delivered (Some 1%nat) recordingStartedMsg;
            Delivered None (KeyMsg " ");
            Ran 2 stopRecordingCmd (Some (recordingStoppedMsg None));
            Ran 0 Blink (Some otherMsg);
            Delivered (Some 2%nat) (recordingStoppedMsg None);
            Ran 2 transcribeCmd (Some (transcriptionFinishedMsg "hello" None));
            Delivered (Some 2%nat) (transcriptionFinishedMsg "hello" None)].
Proof.
  split; [|split; [reflexivity|split; [|by_vm]]].
  - intros h m key fs Hstate Hview Hhelp Hkey.
    unfold Update, handleRecordingUpdate. rewrite Hview, Hhelp, Hstate.
    by destruct Hkey as [-> | ->].
  - intros h w schedule rt Hexec.
    by destruct (exec_ordered h schedule _ _ (startProgram_ordered w) Hexec).
Qed.

Lemma transcribe_only_after_stop_observed_witness :
  let m := set_recordingState Recording initialModel in
  recordingState m = Recording /\
  Update host_example m (KeyMsg " ") fs_store
    = Returns (m, Sequence [stopRecordingCmd; transcribeCmd], fs_store) /\
  exists rt,
    exec host_example schedule_example (startProgram world_store) = Some rt /\
    transcribeAfterStop (rt_trace rt).
Proof.
  intros m. destruct transcribe_only_after_stop_observed as (Hkey & _ & Hexec & _).
  split; [reflexivity|]. split.
  - apply (Hkey host_example m " " fs_store); auto.
  - assert ((fun _ => tt) <$> exec host_example schedule_example (startProgram world_store)
            = Some tt) as Hsome by by_vm.
    destruct (exec host_example schedule_example (startProgram world_store)) as [rt|] eqn:Hrt;
      [|discriminate Hsome].
    exists rt. split; [reflexivity|].
    apply (Hexec host_example world_store schedule_example rt Hrt).
Defined.

(** ** Further properties of the Recorder *)

Lemma StartRecording_consistent env r :
  recorderConsistent r -> recorderConsistent (StartRecording env r).1.1.
Proof.
  intros Hr. unfold StartRecording.
  destruct (isRecording r) eqn:Hrec; [done|].
  unfold recorderConsistent in Hr. rewrite Hrec in Hr. destruct Hr as [Htimer Hcmd].
  cbv zeta. generalize (Join [appDataDir r; RecordingsDir; Format (Now env) +:+ ".wav"]).
  intros out.
  destruct (startResult env) as [pid|e]; unfold recorderConsistent;
    cbn [fst isRecording cmd timer outputFile].
  - by exists ["ffmpeg"; "-f"; "avfoundation"; "-i"; ":1"; "-y"], pid.
  - split; [exact Htimer|]. intros c Hc. injection Hc as <-. reflexivity.
Qed.

Lemma StopRecording_consistent h env r fs :
  recorderConsistent r -> recorderConsistent (StopRecording h env r fs).1.1.1.
Proof.
  intros Hr. destruct (isRecording r) eqn:Hrec.
  - destruct (StopRecording_active h env r fs Hrec) as (fs' & effs & ->).
    unfold recorderConsistent. cbn. done.
  - by rewrite StopRecording_inactive.
Qed.

Lemma call_consistent h c st :
  recorderConsistent st.1 -> recorderConsistent (call h c st).1.
Proof.
  intros Hr. destruct c as [env|env|env]; cbn.
  - by apply StartRecording_consistent.
  - pose proof (StopRecording_consistent h env st.1 st.2 Hr) as H.
    by destruct (StopRecording h env st.1 st.2) as [[[r' fs'] effs] e].
  - unfold autoStop. destruct (timer st.1); [|done].
    destruct (isRecording st.1); [|done].
    pose proof (StopRecording_consistent h env st.1 st.2 Hr) as H.
    by destruct (StopRecording h env st.1 st.2) as [[[r' fs'] effs] e].
Qed.

Lemma call_appDataDir h c st : appDataDir (call h c st).1 = appDataDir st.1.
Proof.
  destruct c as [env|env|env]; cbn.
  - unfold StartRecording. destruct (isRecording st.1); [done|].
    by destruct (startResult env).
  - destruct (isRecording st.1) eqn:Hrec.
    + by destruct (StopRecording_active h env st.1 st.2 Hrec) as (fs' & effs & ->).
    + by rewrite StopRecording_inactive.
  - unfold autoStop. destruct (timer st.1); [|done].
    destruct (isRecording st.1) eqn:Hrec; [|done].
    by destruct (StopRecording_active h env st.1 st.2 Hrec) as (fs' & effs & ->).
Qed.

(** X1. Whatever calls are made on a recorder that [NewRecorder] returned
    (starts, stops and firings of the timer, each meeting anything
    outside), between calls the recorder is consistent: when it reports
    active it holds a started process whose command line ends in the output
    file and the 20-minute timer is armed; when it reports inactive it holds
    no timer and no started process.  Its data directory never changes. *)
Theorem Recorder_stays_consistent
    (h : Host) (fs fs' : FS) (r : Recorder) (cs : list Call) :
  NewRecorder h fs = (fs', inl r) ->
  recorderConsistent (calls h cs (r, fs')).1 /\
  appDataDir (calls h cs (r, fs')).1 = appDataDir r.
Proof.
  intros Hnew.
  assert (recorderConsistent r) as Hr.
  { unfold NewRecorder in Hnew. destruct (GetAppDataDir h fs) as [fs1 [dir|e]]; [|done].
    injection Hnew as _ <-. split; [done|]. by intros c. }
  clear Hnew. unfold calls.
  change r with (r, fs').1 in Hr. change (appDataDir r) with (appDataDir (r, fs').1).
  generalize dependent (r, fs'). clear r fs'.
  induction cs as [|c cs IH]; intros st Hr; [done|].
  cbn [fold_left]. destruct (IH (call h c st) (call_consistent h c st Hr)) as [H1 H2].
  split; [exact H1|]. by rewrite H2, call_appDataDir.
Qed.

Lemma Recorder_stays_consistent_witness :
  let cs := [CallStart start_fails; CallStart start_ok; TimerFires stop_quiet;
             CallStop stop_quiet; CallStart start_one_second_later] in
  NewRecorder host_example fs_store = (fs_store, inl recorder_idle) /\
  recorderConsistent (calls host_example cs (recorder_idle, fs_store)).1 /\
  appDataDir (calls host_example cs (recorder_idle, fs_store)).1 = appDataDir recorder_idle.
Proof.
  intros cs.
  assert (NewRecorder host_example fs_store = (fs_store, inl recorder_idle)) as Hnew by by_vm.
  split; [exact Hnew|].
  exact (Recorder_stays_consistent host_example fs_store fs_store recorder_idle cs Hnew).
Defined.




Lemma waitForFile_bounds env path n : forall i fs,
  let '(fs', effs) := waitForFile env path n i fs in
  (statCount effs <= n)%nat /\
  0 <= sleepTotal effs <= 100 * Z.of_nat n /\
  (Stat fs' path = true /\ sleepTotal effs = 100 * (Z.of_nat (statCount effs) - 1) \/
   (n = 0%nat /\ fs' = fs \/ Stat fs' path = false) /\ statCount effs = n /\
   sleepTotal effs = 100 * Z.of_nat n) /\
  forall ev, ev ∈ effs -> (exists found, ev = EStatFile path found) \/ ev = ESleep 100.
Proof.
  induction n as [|n IH]; intros i fs; cbn [waitForFile].
  - split; [done|]. split; [done|]. split; [right; auto|]. by intros ev ?%elem_of_nil.
  - destruct (Stat (interference env i fs) path) eqn:Hstat.
    + cbn. split; [lia|]. split; [lia|]. split; [left; done|].
      intros ev Hev. apply elem_of_cons in Hev as [->|Hev]; [eauto|by apply elem_of_nil in Hev].
    + specialize (IH (S i) (interference env i fs)).
      destruct (waitForFile env path n (S i) (interference env i fs)) as [fs2 effs].
      destruct IH as (Hc & Hs & Hcase & Hev). cbn [statCount sleepTotal].
      split; [lia|]. split; [lia|]. split.
      * destruct Hcase as [[Hfound Hsl]|(Hnot & Hcount & Hsl)].
        -- left. split; [done|]. lia.
        -- right. split; [|split; lia]. right.
           destruct Hnot as [[_ ->]|Hnot]; done.
      * intros ev Hin. apply elem_of_cons in Hin as [->|Hin]; [eauto|].
        apply elem_of_cons in Hin as [->|Hin]; [eauto|]. by apply Hev.
Qed.

Lemma sleepTotal_app effs1 effs2 :
  sleepTotal (effs1 ++ effs2) = sleepTotal effs1 + sleepTotal effs2.
Proof.
  induction effs1 as [|e effs1 IH]; [done|]. destruct e; cbn; rewrite ?IH; lia.
Qed.

Lemma statCount_app effs1 effs2 :
  statCount (effs1 ++ effs2) = (statCount effs1 + statCount effs2)%nat.
Proof.
  induction effs1 as [|e effs1 IH]; [done|]. destruct e; cbn; rewrite ?IH; lia.
Qed.

(** Effects among which nobody sleeps or looks at a file. *)
Lemma no_wait_effects effs :
  Forall (fun e => match e with ESleep _ | EStatFile _ _ => False | _ => True end) effs ->
  sleepTotal effs = 0 /\ statCount effs = 0%nat.
Proof.
  induction 1 as [|e effs He _ IH]; [done|]. destruct e; cbn; done.
Qed.

Lemma stopProcess_no_wait env c :
  Forall (fun e => match e with ESleep _ | EStatFile _ _ => False | _ => True end)
         (stopProcess env c).
Proof.
  unfold stopProcess. destruct c as [[argv [pid|]]|]; [|constructor..].
  destruct (signalResult env), (exitedInTime env); repeat constructor.
Qed.

Lemma killOrphans_no_wait h env :
  Forall (fun e => match e with ESleep _ | EStatFile _ _ => False | _ => True end)
         (killOrphanedFFmpegProcesses h env).
Proof.
  unfold killOrphanedFFmpegProcesses. constructor; [done|].
  destruct (psOutput env) as [output|e]; [|repeat constructor].
  apply Forall_forall. intros ev Hin.
  apply list_elem_of_In, in_flat_map in Hin as (line & _ & Hin).
  unfold killOrphanLine in Hin.
  destruct (_ && _); [|done]. destruct (Fields line) as [|pid [|? ?]]; [done..|].
  case_bool_decide; [done|].
  destruct (killIntResult env pid); cbn in Hin; intuition (subst; done).
Qed.

Lemma StopRecording_effects h env r fs :
  isRecording r = true ->
  StopRecording h env r fs =
  (mkRecorder None (outputFile r) false (appDataDir r) None,
   (waitForFile env (outputFile r) 20 0 fs).1,
   match timer r with Some _ => [ETimerStop] | None => [] end ++
   stopProcess env (cmd r) ++ killOrphanedFFmpegProcesses h env ++
   (waitForFile env (outputFile r) 20 0 fs).2,
   None).
Proof.
  unfold StopRecording. intros ->. cbn [negb].
  by destruct (waitForFile env (outputFile r) 20 0 fs).
Qed.

(** X3. Stopping an active recording waits for the output file in a bounded
    way: it looks at most 20 times, sleeps 100 ms after each look that did
    not find the file, so at most 2 seconds in all, and returns right after
    the first look that finds it.  It gives up, the file still missing,
    only after 20 looks and 2 seconds of sleep. *)
Theorem StopRecording_wait_is_bounded (h : Host) (env : StopEnv) (r : Recorder) (fs : FS) :
  isRecording r = true ->
  let '(r', fs', effs, e) := StopRecording h env r fs in
  (statCount effs <= 20)%nat /\
  0 <= sleepTotal effs <= 2000 /\
  (Stat fs' (outputFile r) = true /\
   sleepTotal effs = 100 * (Z.of_nat (statCount effs) - 1) \/
   Stat fs' (outputFile r) = false /\ statCount effs = 20%nat /\ sleepTotal effs = 2000).
Proof.
  intros Hrec. rewrite StopRecording_effects by done.
  pose proof (waitForFile_bounds env (outputFile r) 20 0 fs) as Hw.
  destruct (waitForFile env (outputFile r) 20 0 fs) as [fs' effsWait]. cbn [fst snd].
  destruct Hw as (Hc & Hs & Hcase & _).
  assert (Forall (fun e => match e with ESleep _ | EStatFile _ _ => False | _ => True end)
            (match timer r with Some _ => [ETimerStop] | None => [] end ++
             stopProcess env (cmd r) ++ killOrphanedFFmpegProcesses h env)) as Hpre.
  { rewrite !Forall_app. split; [destruct (timer r); repeat constructor|].
    split; [apply stopProcess_no_wait | apply killOrphans_no_wait]. }
  apply no_wait_effects in Hpre as [Hs0 Hc0].
  rewrite !app_assoc, sleepTotal_app, statCount_app.
  rewrite <- !app_assoc, Hs0, Hc0. cbn [Nat.add].
  split; [lia|]. split; [lia|].
  destruct Hcase as [[Hfound Hsl]|([[? _]|Hnot] & Hcount & Hsl)]; [left|done|right];
    (split; [done|lia]).
Qed.

Lemma StopRecording_wait_is_bounded_witness :
  isRecording recorder_active = true /\
  let '(r', fs', effs, e) := StopRecording host_example stop_late_flush recorder_active ∅ in
  (statCount effs <= 20)%nat /\
  0 <= sleepTotal effs <= 2000 /\
  (Stat fs' (outputFile recorder_active) = true /\
   sleepTotal effs = 100 * (Z.of_nat (statCount effs) - 1) \/
   Stat fs' (outputFile recorder_active) = false /\ statCount effs = 20%nat /\
   sleepTotal effs = 2000).
Proof.
  split; [reflexivity|].
  apply (StopRecording_wait_is_bounded host_example stop_late_flush recorder_active ∅).
  reflexivity.
Defined.

Lemma filter_onProcess_none effs :
  Forall (fun e => onProcess e = false) effs -> List.filter onProcess effs = [].
Proof.
  induction 1 as [|e effs He _ IH]; [done|]. cbn. by rewrite He.
Qed.

Lemma killOrphans_not_onProcess h env :
  Forall (fun e => onProcess e = false) (killOrphanedFFmpegProcesses h env).
Proof.
  unfold killOrphanedFFmpegProcesses. constructor; [done|].
  destruct (psOutput env) as [output|e]; [|repeat constructor].
  apply Forall_forall. intros ev Hin.
  apply list_elem_of_In, in_flat_map in Hin as (line & _ & Hin).
  unfold killOrphanLine in Hin.
  destruct (_ && _); [|done]. destruct (Fields line) as [|pid [|? ?]]; [done..|].
  case_bool_decide; [done|].
  destruct (killIntResult env pid); cbn in Hin; intuition (subst; done).
Qed.

Lemma waitForFile_not_onProcess env path n i fs :
  Forall (fun e => onProcess e = false) (waitForFile env path n i fs).2.
Proof.
  pose proof (waitForFile_bounds env path n i fs) as H.
  destruct (waitForFile env path n i fs) as [fs' effs]. destruct H as (_ & _ & _ & Hev).
  apply Forall_forall. intros ev Hin%Hev. by destruct Hin as [[found ->] | ->].
Qed.

(** X4. Stopping an active recording deals with the capture process
    gracefully, then by force: of all it does to processes through a handle,
    the first is the interrupt to the capture process, followed by a kill
    when the interrupt could not be delivered, then the wait, followed by a
    kill when the process did not exit within the grace period; nothing
    else is signalled or waited for. *)
Theorem StopRecording_graceful_then_forced
    (h : Host) (env : StopEnv) (r : Recorder) (fs : FS) (argv : list string) (pid : Z) :
  isRecording r = true ->
  cmd r = Some (mkCmd argv (Some pid)) ->
  List.filter onProcess (StopRecording h env r fs).1.2 =
  EInterrupt pid ::
  (if signalResult env is Some _ then [EKill pid] else []) ++
  EWait pid ::
  (if exitedInTime env then [] else [EKill pid]).
Proof.
  intros Hrec Hcmd. rewrite StopRecording_effects by done. cbn [fst snd].
  rewrite !List.filter_app.
  rewrite (filter_onProcess_none (killOrphanedFFmpegProcesses h env))
    by apply killOrphans_not_onProcess.
  rewrite (filter_onProcess_none (waitForFile _ _ _ _ _).2)
    by apply waitForFile_not_onProcess.
  rewrite Hcmd, !app_nil_r. unfold stopProcess.
  destruct (timer r), (signalResult env), (exitedInTime env); reflexivity.
Qed.

Lemma StopRecording_graceful_then_forced_witness :
  isRecording recorder_active = true /\
  List.filter onProcess (StopRecording host_example stop_late_flush recorder_active ∅).1.2 =
  [EInterrupt 501; EKill 501; EWait 501; EKill 501].
Proof.
  split; [reflexivity|].
  apply (StopRecording_graceful_then_forced host_example stop_late_flush recorder_active ∅
           ["ffmpeg"; "-f"; "avfoundation"; "-i"; ":1"; "-y";
            "/home/u/.open_whisper/recordings/2024-06-01-00-00-00.wav"] 501).
  - reflexivity.
  - by_vm.
Defined.

(** X5. A recorder is never stuck: after any [StopRecording] call, whatever
    state it was made in and whatever it met, a [StartRecording] whose
    capture process starts succeeds, arms the timer, and records into the
    file named after its own start time. *)
Theorem StartRecording_after_stop
    (h : Host) (stop : StopEnv) (start : StartEnv) (r : Recorder) (fs : FS) (pid : Z) :
  startResult start = inl pid ->
  let r1 := (StopRecording h stop r fs).1.1.1 in
  let '(r2, effs, e) := StartRecording start r1 in
  e = None /\ IsRecording r2 = true /\
  timer r2 = Some (mkTimer (20 * Minute)) /\
  outputFile r2 = Join [appDataDir r; RecordingsDir; Format (Now start) +:+ ".wav"] /\
  exists argv, cmd r2 = Some (mkCmd (argv ++ [outputFile r2]) (Some pid)) /\
               effs = [EStart (argv ++ [outputFile r2]) (Some pid); ENewTimer (20 * Minute)].
Proof.
  intros Hstart r1.
  assert (isRecording r1 = false /\ appDataDir r1 = appDataDir r) as [Hrec Hdir].
  { subst r1. destruct (isRecording r) eqn:Hr.
    - by destruct (StopRecording_active h stop r fs Hr) as (fs' & effs & ->).
    - by rewrite StopRecording_inactive. }
  unfold StartRecording. rewrite Hrec, Hstart, Hdir. cbn.
  repeat split.
  by exists ["ffmpeg"; "-f"; "avfoundation"; "-i"; ":1"; "-y"].
Qed.

Lemma StartRecording_after_stop_witness :
  startResult start_ok = inl 501 /\
  let r1 := (StopRecording host_example stop_quiet recorder_active fs_store).1.1.1 in
  let '(r2, effs, e) := StartRecording start_ok r1 in
  e = None /\ IsRecording r2 = true /\
  timer r2 = Some (mkTimer (20 * Minute)) /\
  outputFile r2 =
    Join [appDataDir recorder_active; RecordingsDir; Format (Now start_ok) +:+ ".wav"] /\
  exists argv, cmd r2 = Some (mkCmd (argv ++ [outputFile r2]) (Some 501)) /\
               effs = [EStart (argv ++ [outputFile r2]) (Some 501); ENewTimer (20 * Minute)].
Proof.
  split; [reflexivity|].
  apply (StartRecording_after_stop host_example stop_quiet start_ok recorder_active fs_store 501).
  reflexivity.
Defined.

(** ** Further properties of package [config] *)

Lemma split_go_nonempty sep cur s : split_go sep cur s <> [].
Proof. revert cur. induction s as [|c s IH]; intros cur; cbn; [done|]. by destruct (Ascii.eqb c sep). Qed.

Lemma JoinStrings_cons e rest sep :
  rest <> [] -> JoinStrings (e :: rest) sep = e +:+ sep +:+ JoinStrings rest sep.
Proof. by destruct rest. Qed.

(** Joining what [strings.Split] gave with the separator gives the string
    back. *)
Lemma JoinStrings_split_go sep cur s :
  JoinStrings (split_go sep cur s) (String sep "") = str (rev cur ++ s).
Proof.
  revert cur. induction s as [|c s IH]; intros cur; cbn [split_go].
  - by rewrite app_nil_r.
  - destruct (Ascii.eqb_spec c sep) as [->|Hne].
    + rewrite JoinStrings_cons by apply split_go_nonempty.
      rewrite IH. cbn [rev app]. apply chars_inj.
      by rewrite !chars_app, !chars_str.
    + rewrite IH. cbn [rev]. by rewrite <- app_assoc.
Qed.

Lemma JoinStrings_Split s : JoinStrings (Split s Separator) "/" = s.
Proof. unfold Split. change "/" with (String Separator ""). rewrite JoinStrings_split_go. apply str_chars. Qed.

Lemma ancestors_last comps : forall acc first,
  comps <> [] ->
  let full := if first : bool then JoinStrings comps "/"
              else acc +:+ "/" +:+ JoinStrings comps "/" in
  full <> "" -> full ∈ ancestors acc first comps.
Proof.
  induction comps as [|c comps IH]; intros acc first Hne full Hfull; [done|].
  cbn [ancestors]. destruct comps as [|c' comps].
  - subst full. cbn [JoinStrings] in *. rewrite bool_decide_eq_false_2 by done.
    apply elem_of_app. left. apply list_elem_of_here.
  - apply elem_of_app. right.
    set (p := if first then c else acc +:+ "/" +:+ c).
    assert (full = p +:+ "/" +:+ JoinStrings (c' :: comps) "/") as Heq.
    { subst full p. rewrite JoinStrings_cons by done.
      destruct first; [done|]. by rewrite !app_assoc_str. }
    rewrite Heq. apply (IH p false); [done|]. by rewrite <- Heq.
Qed.

Lemma path_in_ancestors path :
  path <> "" -> path ∈ ancestors "" true (Split path Separator).
Proof.
  intros Hne. pose proof (ancestors_last (Split path Separator) "" true) as H.
  cbv zeta in H. rewrite JoinStrings_Split in H. apply H; [|done].
  apply split_go_nonempty.
Qed.

Lemma mkdirs_creates dirs : forall fs fs' e,
  mkdirs fs dirs = (fs', e) ->
  e = None -> forall d, d ∈ dirs -> fs' !! d = Some Directory.
Proof.
  induction dirs as [|d0 dirs IH]; intros fs fs' e Hm He d Hd; [by apply elem_of_nil in Hd|].
  cbn in Hm. apply elem_of_cons in Hd as [->|Hd].
  - pose proof (mkdirs_onlyAddsDirectories dirs) as Hadd.
    destruct (fs !! d0) as [[c|]|] eqn:H0.
    + injection Hm as <- <-. done.
    + specialize (Hadd fs). rewrite Hm in Hadd. by apply Hadd.
    + specialize (Hadd (<[d0:=Directory]> fs)). rewrite Hm in Hadd.
      apply Hadd. apply lookup_insert_eq.
  - destruct (fs !! d0) as [[c|]|] eqn:H0.
    + injection Hm as <- <-. done.
    + by eapply IH.
    + by eapply IH.
Qed.

Lemma mkdirs_noop dirs fs :
  (forall d, d ∈ dirs -> fs !! d = Some Directory) -> mkdirs fs dirs = (fs, None).
Proof.
  induction dirs as [|d0 dirs IH]; intros Hall; [done|].
  cbn. rewrite (Hall d0) by apply list_elem_of_here.
  apply IH. intros d Hd. apply Hall. by apply list_elem_of_further.
Qed.

Lemma createDirs_creates dirs : forall fs fs',
  createDirs fs dirs = (fs', None) ->
  forall dir d, dir ∈ dirs -> d ∈ ancestors "" true (Split dir Separator) ->
                fs' !! d = Some Directory.
Proof.
  induction dirs as [|dir0 dirs IH]; intros fs fs' Hc dir d Hdir Hd;
    [by apply elem_of_nil in Hdir|].
  cbn in Hc. unfold MkdirAll in Hc.
  destruct (mkdirs fs (ancestors "" true (Split dir0 Separator))) as [fs1 [e|]] eqn:Hm;
    [done|].
  apply elem_of_cons in Hdir as [->|Hdir].
  - pose proof (createDirs_onlyAddsDirectories dirs fs1) as [Hadd _].
    rewrite Hc in Hadd. apply Hadd. by eapply mkdirs_creates.
  - by eapply IH.
Qed.

Lemma createDirs_noop dirs fs :
  (forall dir d, dir ∈ dirs -> d ∈ ancestors "" true (Split dir Separator) ->
                 fs !! d = Some Directory) ->
  createDirs fs dirs = (fs, None).
Proof.
  induction dirs as [|dir0 dirs IH]; intros Hall; [done|].
  cbn. unfold MkdirAll. rewrite mkdirs_noop.
  - apply IH. intros dir d Hdir. apply Hall. by apply list_elem_of_further.
  - intros d. apply Hall. apply list_elem_of_here.
Qed.

Lemma Clean_nonempty p : Clean p <> "".
Proof.
  unfold Clean. case_bool_decide; [done|]. cbv zeta.
  destruct (isRooted p); [done|]. by case_bool_decide.
Qed.

Lemma Join2_nonempty a b : b <> "" -> Join [a; b] <> "".
Proof.
  intros Hb. cbn. case_bool_decide.
  - rewrite bool_decide_eq_false_2 by done. apply Clean_nonempty.
  - apply Clean_nonempty.
Qed.

Lemma GetAppDataDir_dir h fs fs' dir :
  GetAppDataDir h fs = (fs', inl dir) -> dir = Join [HOME h; "." +:+ AppName].
Proof.
  unfold GetAppDataDir, UserHomeDir. case_bool_decide; [done|].
  destruct (createDirs fs _) as [fs1 [e|]]; congruence.
Qed.

Lemma GetAppDataDir_success (h : Host) (fs fs' : FS) (dir : string) :
  GetAppDataDir h fs = (fs', inl dir) ->
  dir = Join [HOME h; "." +:+ AppName] /\
  fs' !! dir = Some Directory /\
  fs' !! Join [dir; RecordingsDir] = Some Directory /\
  fs' !! Join [dir; TranscriptionsDir] = Some Directory /\
  GetAppDataDir h fs' = (fs', inl dir).
Proof.
  intros Hget. pose proof (GetAppDataDir_dir _ _ _ _ Hget) as Hdir.
  unfold GetAppDataDir in *. destruct (UserHomeDir h) as [home|e] eqn:Hhome; [|done].
  cbv zeta in *.
  assert (home = HOME h) as ->.
  { unfold UserHomeDir in Hhome. case_bool_decide; congruence. }
  rewrite <- Hdir in *.
  destruct (createDirs fs _) as [fs1 [e|]] eqn:Hc; [done|].
  injection Hget as <-.
  pose proof (createDirs_creates _ _ _ Hc) as Hall.
  assert (forall d, d ∈ [dir; Join [dir; RecordingsDir]; Join [dir; TranscriptionsDir]] ->
                    fs1 !! d = Some Directory) as Hdirs.
  { intros d Hd. apply (Hall d d Hd). apply path_in_ancestors.
    rewrite !elem_of_cons in Hd. destruct Hd as [->|[->|[->|Hd]]].
    - rewrite Hdir. by apply Join2_nonempty.
    - by apply Join2_nonempty.
    - by apply Join2_nonempty.
    - by apply elem_of_nil in Hd. }
  split; [done|].
  split; [apply Hdirs; set_solver|]. split; [apply Hdirs; set_solver|].
  split; [apply Hdirs; set_solver|].
  by rewrite createDirs_noop.
Qed.

(** X6. When [GetAppDataDir] succeeds, the data directory it returns is
    [$HOME/.open_whisper] and it, its [recordings] and its [transcriptions]
    subdirectory exist as directories afterwards; calling it again on the
    result returns the same path and changes nothing. *)
Theorem GetAppDataDir_creates_and_is_idempotent (h : Host) (fs fs' : FS) (dir : string) :
  GetAppDataDir h fs = (fs', inl dir) ->
  dir = Join [HOME h; "." +:+ AppName] /\
  fs' !! dir = Some Directory /\
  fs' !! Join [dir; RecordingsDir] = Some Directory /\
  fs' !! Join [dir; TranscriptionsDir] = Some Directory /\
  GetAppDataDir h fs' = (fs', inl dir).
Proof. apply GetAppDataDir_success. Qed.

Lemma GetAppDataDir_creates_and_is_idempotent_witness :
  let after := GetAppDataDir host_example fs_example in
  after.2 = inl "/home/u/.open_whisper" /\
  fs_example !! Join ["/home/u/.open_whisper"; RecordingsDir] = None /\
  after.1 !! Join ["/home/u/.open_whisper"; RecordingsDir] = Some Directory /\
  GetAppDataDir host_example after.1 = (after.1, inl "/home/u/.open_whisper").
Proof.
  intros after.
  assert (after.2 = inl "/home/u/.open_whisper") as H2 by by_vm.
  assert (GetAppDataDir host_example fs_example = (after.1, inl "/home/u/.open_whisper"))
    as Hafter by (rewrite <- H2; apply surjective_pairing).
  destruct (GetAppDataDir_creates_and_is_idempotent host_example fs_example after.1
              "/home/u/.open_whisper" Hafter) as (_ & _ & Hrec & _ & Hagain).
  split; [exact H2|]. split; [by_vm|]. split; [exact Hrec | exact Hagain].
Defined.

(** X7. Whether it succeeds or fails, [GetAppDataDir] only adds
    directories: every entry of the file system is still there with the
    same content afterwards, and no regular file is created.  When [$HOME]
    is not set it fails without touching the file system. *)
Theorem GetAppDataDir_keeps_entries (h : Host) (fs : FS) :
  let '(fs', result) := GetAppDataDir h fs in
  (forall p n, fs !! p = Some n -> fs' !! p = Some n) /\
  (forall p content, fs' !! p = Some (RegularFile content) ->
                     fs !! p = Some (RegularFile content)) /\
  (HOME h = "" ->
   fs' = fs /\ result = inr (Errorf "failed to get home directory" ErrHomeNotDefined)).
Proof.
  pose proof (GetAppDataDir_onlyAddsDirectories h fs) as [H1 H2].
  destruct (GetAppDataDir h fs) as [fs' result] eqn:Hget. cbn in H1, H2.
  split; [exact H1|]. split; [exact H2|].
  intros Hhome. unfold GetAppDataDir, UserHomeDir in Hget.
  rewrite bool_decide_eq_true_2 in Hget by done. by injection Hget as <- <-.
Qed.

Lemma GetAppDataDir_keeps_entries_witness :
  let '(fs', result) := GetAppDataDir (mkHost "" 1) fs_store in
  fs' = fs_store /\ result = inr (Errorf "failed to get home directory" ErrHomeNotDefined).
Proof.
  pose proof (GetAppDataDir_keeps_entries (mkHost "" 1) fs_store) as H.
  destruct (GetAppDataDir (mkHost "" 1) fs_store) as [fs' result].
  destruct H as (_ & _ & H). by apply H.
Defined.

(** ** Further properties of the store: what the list shows *)

Lemma until_sep_no_sep r : Separator ∉ until_sep r.
Proof.
  induction r as [|c r IH]; cbn; [by intros ?%elem_of_nil|].
  destruct (Ascii.eqb_spec c Separator) as [->|Hc]; [by intros ?%elem_of_nil|].
  intros [Heq|H]%elem_of_cons; [by apply Hc|by apply IH].
Qed.

Lemma entryName_spec dir path name :
  entryName dir path = Some name <->
  name <> "" /\ noSeparator name /\ path = dir +:+ "/" +:+ name.
Proof.
  unfold entryName. cbv zeta. split.
  - set (n := str (rev (until_sep (rev (chars path))))).
    intros H. destruct (bool_decide (n <> "")) eqn:Hn; [|done].
    destruct (bool_decide (path = dir +:+ "/" +:+ n)) eqn:Hp; [|done].
    injection H as <-. apply bool_decide_eq_true_1 in Hn, Hp.
    split; [done|]. split; [|done].
    unfold noSeparator, n. rewrite chars_str, elem_of_rev. apply until_sep_no_sep.
  - intros (Hne & Hsep & ->).
    rewrite !chars_app, !rev_app_distr. change (rev (chars "/")) with [Separator].
    rewrite <- app_assoc, until_sep_app by (by rewrite elem_of_rev).
    cbn [app until_sep]. rewrite Ascii.eqb_refl, app_nil_r, rev_involutive, str_chars.
    by rewrite !bool_decide_eq_true_2.
Qed.

Lemma ReadDir_elem fs dir entries e :
  ReadDir fs dir = inl entries ->
  e ∈ entries <->
  Name e <> "" /\ noSeparator (Name e) /\
  exists node, fs !! (dir +:+ "/" +:+ Name e) = Some node /\ IsDir e = isDirectory node.
Proof.
  unfold ReadDir. destruct (fs !! dir) as [[c|]|]; [done| |done]. intros [= <-].
  rewrite sort_by_perm, list_elem_of_omap. split.
  - intros ([k node] & Hin & Hf). apply elem_of_map_to_list in Hin. cbn in Hf.
    destruct (entryName dir k) as [n|] eqn:Hn; [|done]. injection Hf as <-. cbn.
    apply entryName_spec in Hn as (Hne & Hsep & ->). eauto.
  - intros (Hne & Hsep & node & Hnode & Hdir).
    exists (dir +:+ "/" +:+ Name e, node). split; [by apply elem_of_map_to_list|].
    cbn. rewrite (proj2 (entryName_spec dir _ (Name e))) by done.
    cbn. destruct e as [n d]. cbn in *. by rewrite Hdir.
Qed.

Lemma omap_entry_names dir (l : list (string * Node)) :
  map Name (omap (fun kv => (fun n => mkDirEntry n (isDirectory kv.2)) <$> entryName dir kv.1) l)
  = omap (fun k => entryName dir k) l.*1.
Proof.
  induction l as [|[k node] l IH]; [done|]. cbn.
  destruct (entryName dir k); cbn; by rewrite IH.
Qed.

Lemma NoDup_omap_inj {A B} (f : A -> option B) l :
  (forall x y z, f x = Some z -> f y = Some z -> x = y) ->
  NoDup l -> NoDup (omap f l).
Proof.
  intros Hinj. induction 1 as [|x l Hx Hl IH]; cbn; [constructor|].
  destruct (f x) as [z|] eqn:Hz; [|done]. constructor; [|done].
  intros (y & Hy & Hfy)%list_elem_of_omap. by rewrite (Hinj _ _ _ Hz Hfy) in Hx.
Qed.

Lemma NoDup_map_filter {A B} (f : A -> B) (P : A -> Prop) `{!forall x, Decision (P x)} l :
  NoDup (map f l) -> NoDup (map f (filter P l)).
Proof.
  induction l as [|x l IH]; [done|]. cbn [map]. intros [Hx Hl]%NoDup_cons.
  rewrite filter_cons. destruct (decide (P x)); [|by apply IH].
  cbn [map]. constructor; [|by apply IH].
  intros Hin. apply Hx. apply list_elem_of_In, in_map_iff in Hin as (y & <- & Hy).
  apply list_elem_of_In in Hy. apply list_elem_of_filter in Hy as [_ Hy].
  apply list_elem_of_In, in_map, list_elem_of_In, Hy.
Qed.

Lemma ReadDir_NoDup fs dir entries :
  ReadDir fs dir = inl entries -> NoDup (map Name entries).
Proof.
  unfold ReadDir. destruct (fs !! dir) as [[c|]|]; [done| |done]. intros [= <-].
  rewrite sort_by_perm, omap_entry_names.
  apply NoDup_omap_inj; [|apply NoDup_fst_map_to_list].
  intros k1 k2 n (_ & _ & ->)%entryName_spec (_ & _ & ->)%entryName_spec. done.
Qed.

Lemma dirPart_snoc kept k : dirPart (kept ++ [k]) = dirPart kept +:+ k +:+ "/".
Proof.
  induction kept as [|x kept IH]; cbn [app dirPart].
  - apply chars_inj. by rewrite !chars_app.
  - by rewrite IH, !app_assoc_str.
Qed.

Lemma cleanPrefix_plain_last p f :
  plain f -> cleanPrefix (p +:+ "/" +:+ f) = cleanPrefix p +:+ f +:+ "/".
Proof.
  intros Hf. pose proof Hf as (Hsep & _). unfold cleanPrefix. cbv zeta.
  replace (isRooted ((p +:+ "/" +:+ f) +:+ "/")) with (isRooted (p +:+ "/"))
    by (by destruct p).
  rewrite Split_last, fold_left_app by done.
  cbn [fold_left]. rewrite clean_step_plain by done. cbn [rev].
  by rewrite dirPart_snoc, !app_assoc_str.
Qed.

Lemma plain_first f : plain f -> isRooted (f +:+ "/") = false.
Proof.
  intros (Hsep & Hne & _). destruct f as [|c f]; [done|].
  change (isRooted (String c f +:+ "/")) with (Ascii.eqb c Separator).
  destruct (Ascii.eqb_spec c Separator) as [->|]; [|reflexivity].
  exfalso. apply Hsep. unfold noSeparator. apply elem_of_cons. by left.
Qed.

Lemma Split_plain f : noSeparator f -> Split f Separator = [f].
Proof.
  intros Hf. unfold Split. rewrite (split_go_no_sep _ _ _ Hf). cbn. by rewrite str_chars.
Qed.

Lemma cleanPrefix_plain f : plain f -> cleanPrefix f = f +:+ "/".
Proof.
  intros Hf. unfold cleanPrefix. cbv zeta. rewrite plain_first by done.
  rewrite Split_plain by apply Hf. cbn [fold_left]. rewrite clean_step_plain by done.
  cbn. apply chars_inj. by rewrite !chars_app.
Qed.

Lemma Clean_plain f : plain f -> Clean f = f.
Proof.
  intros Hf. pose proof Hf as (Hsep & Hne & _). unfold Clean.
  rewrite bool_decide_eq_false_2 by done. cbv zeta.
  assert (isRooted f = false) as ->.
  { pose proof (plain_first f Hf) as H. by destruct f. }
  rewrite Split_plain by done. cbn [fold_left]. rewrite clean_step_plain by done.
  cbn. by rewrite bool_decide_eq_false_2.
Qed.

Lemma joinPrefix_plain dir sub : plain sub -> joinPrefix dir sub = Join [dir; sub] +:+ "/".
Proof.
  intros Hsub. pose proof Hsub as (_ & Hne & _). unfold joinPrefix, Join.
  case_bool_decide as Hdir.
  - rewrite bool_decide_eq_false_2 by done. cbn [JoinStrings].
    by rewrite cleanPrefix_plain, Clean_plain.
  - cbn [JoinStrings].
    by rewrite cleanPrefix_plain_last, Clean_plain_last, app_assoc_str by done.
Qed.

Lemma Join_under dir sub f :
  plain sub -> plain f -> Join [dir; sub; f] = Join [dir; sub] +:+ "/" +:+ f.
Proof.
  intros Hsub Hf. rewrite Join_plain_last by (done || apply Hsub).
  by rewrite joinPrefix_plain, app_assoc_str.
Qed.

Lemma plain_TranscriptionsDir : plain TranscriptionsDir.
Proof. split; [by apply noSeparator_literal|done]. Qed.

Lemma plain_RecordingsDir : plain RecordingsDir.
Proof. split; [by apply noSeparator_literal|done]. Qed.

Lemma Ext_txt s : Ext (s +:+ ".txt") = ".txt".
Proof. unfold Ext. rewrite chars_app, rev_app_distr. reflexivity. Qed.

Lemma Ext_txt_plain name : noSeparator name -> Ext name = ".txt" -> plain name.
Proof.
  intros Hsep Hext. split; [done|]. repeat split; intros ->; discriminate Hext.
Qed.

Lemma listed_iff fs tdir entries name :
  ReadDir fs tdir = inl entries ->
  name ∈ sort_by (fun a b => String.ltb b a) (collectTxt entries) <->
  noSeparator name /\ Ext name = ".txt" /\
  exists content, fs !! (tdir +:+ "/" +:+ name) = Some (RegularFile content).
Proof.
  intros Hread. rewrite sort_by_perm, collectTxt_filter. split.
  - intros Hin. apply list_elem_of_In, in_map_iff in Hin as (e & <- & He).
    apply list_elem_of_In, list_elem_of_filter in He as [[Hd Hext] He].
    apply (ReadDir_elem _ _ _ _ Hread) in He as (_ & Hsep & node & Hnode & Hdir).
    split; [done|]. split; [done|]. rewrite Hd in Hdir.
    destruct node as [content|]; [by exists content|done].
  - intros (Hsep & Hext & content & Hfile).
    apply list_elem_of_In, in_map_iff. exists (mkDirEntry name false). split; [done|].
    apply list_elem_of_In, list_elem_of_filter. split; [done|].
    apply (ReadDir_elem _ _ _ _ Hread). cbn. split; [by intros ->|]. split; [done|].
    by exists (RegularFile content).
Qed.

Lemma listed_NoDup fs tdir entries :
  ReadDir fs tdir = inl entries ->
  NoDup (sort_by (fun a b => String.ltb b a) (collectTxt entries)).
Proof.
  intros Hread. rewrite sort_by_perm, collectTxt_filter.
  apply NoDup_map_filter. by apply ReadDir_NoDup in Hread.
Qed.

Lemma loadTranscriptions_list h fs fs' dir :
  GetAppDataDir h fs = (fs', inl dir) ->
  exists names,
    loadTranscriptions h fs = (fs', filesMsg names) /\
    NoDup names /\ descending names /\
    forall name,
      name ∈ names <->
      noSeparator name /\ Ext name = ".txt" /\
      exists content,
        fs' !! (Join [dir; TranscriptionsDir] +:+ "/" +:+ name) = Some (RegularFile content).
Proof.
  intros Hget. destruct (GetAppDataDir_success _ _ _ _ Hget) as (_ & _ & _ & Htdir & _).
  unfold loadTranscriptions. rewrite Hget. cbv zeta.
  destruct (ReadDir fs' (Join [dir; TranscriptionsDir])) as [entries|e] eqn:Hread.
  - eexists. split; [done|]. split; [by eapply listed_NoDup|].
    split; [apply sort_by_descending|]. intros name. by apply listed_iff.
  - unfold ReadDir in Hread. by rewrite Htdir in Hread.
Qed.

Lemma loadTranscriptions_inv h fs fs' names :
  loadTranscriptions h fs = (fs', filesMsg names) ->
  exists dir, GetAppDataDir h fs = (fs', inl dir).
Proof.
  unfold loadTranscriptions. destruct (GetAppDataDir h fs) as [fs0 [dir|e]]; [|done].
  cbv zeta. destruct (ReadDir fs0 _); [|done]. intros [= <- _]. by exists dir.
Qed.

Lemma ext_go_under r1 r2 :
  Separator ∉ r1 -> forall acc, ext_go (r1 ++ Separator :: r2) acc = ext_go r1 acc.
Proof.
  induction r1 as [|c r IH]; intros Hsep acc; [reflexivity|].
  apply not_elem_of_cons in Hsep as [Hc Hr]. cbn [app ext_go].
  destruct (Ascii.eqb c Separator); [done|].
  destruct (Ascii.eqb c "."); [done|]. by apply IH.
Qed.

Lemma Ext_under x name : noSeparator name -> Ext (x +:+ "/" +:+ name) = Ext name.
Proof.
  intros Hsep. unfold Ext. rewrite !chars_app, !rev_app_distr.
  change (rev (chars "/")) with [Separator]. rewrite <- app_assoc. cbn [app].
  f_equal. apply ext_go_under. by rewrite elem_of_rev.
Qed.

Lemma noSeparator_TrimSuffix s suffix : noSeparator s -> noSeparator (TrimSuffix s suffix).
Proof.
  unfold TrimSuffix, noSeparator. intros Hs. destruct (HasSuffix s suffix); [|done].
  rewrite chars_str. intros Hin. by apply subseteq_take in Hin.
Qed.

Lemma plain_audio filename :
  noSeparator filename -> plain (TrimSuffix filename ".txt" +:+ ".wav").
Proof.
  intros Hsep.
  assert (4 <= String.length (TrimSuffix filename ".txt" +:+ ".wav"))%nat as Hl
    by (rewrite length_append; cbn; lia).
  split; [|repeat split; intros H; rewrite H in Hl; cbn in Hl; lia].
  apply noSeparator_app; [by apply noSeparator_TrimSuffix | by apply noSeparator_literal].
Qed.

Lemma mkdirs_succeeds dirs : forall fs,
  (forall d c, d ∈ dirs -> fs !! d <> Some (RegularFile c)) -> (mkdirs fs dirs).2 = None.
Proof.
  induction dirs as [|d dirs IH]; intros fs Hfs; [done|]. cbn.
  destruct (fs !! d) as [[c|]|] eqn:Hd.
  - exfalso. apply (Hfs d c); [by left|done].
  - apply IH. intros d' c Hin. apply Hfs. by right.
  - apply IH. intros d' c Hin. destruct (decide (d = d')) as [<-|Hne].
    + by rewrite lookup_insert_eq.
    + rewrite lookup_insert_ne by done. apply Hfs. by right.
Qed.

Lemma createDirs_succeeds dirs : forall fs,
  (forall dir d c, dir ∈ dirs -> d ∈ ancestors "" true (Split dir Separator) ->
                   fs !! d <> Some (RegularFile c)) ->
  (createDirs fs dirs).2 = None.
Proof.
  induction dirs as [|dir dirs IH]; intros fs Hfs; [done|]. cbn. unfold MkdirAll.
  pose proof (mkdirs_succeeds (ancestors "" true (Split dir Separator)) fs) as Hm.
  pose proof (mkdirs_onlyAddsDirectories (ancestors "" true (Split dir Separator)) fs)
    as [_ Hfiles].
  destruct (mkdirs fs _) as [fs' e]. cbn in Hm, Hfiles.
  rewrite Hm; [|intros d c Hd; apply (Hfs dir); [by left|done]].
  apply IH. intros dir' d c Hdir Hd Hfile. apply Hfiles in Hfile.
  revert Hfile. apply (Hfs dir'); [by right|done].
Qed.

Lemma GetAppDataDir_again h fs fs0 dir fs2 :
  GetAppDataDir h fs = (fs0, inl dir) ->
  (forall p c, fs2 !! p = Some (RegularFile c) -> fs0 !! p = Some (RegularFile c)) ->
  exists fs3, GetAppDataDir h fs2 = (fs3, inl dir).
Proof.
  unfold GetAppDataDir. destruct (UserHomeDir h) as [home|e]; [|done]. cbv zeta.
  set (ds := [_; _; _]).
  destruct (createDirs fs ds) as [fs' [e|]] eqn:Hc; [done|]. intros [= -> <-] Hfiles.
  pose proof (createDirs_succeeds ds fs2) as Hs.
  destruct (createDirs fs2 ds) as [fs3 e]. cbn in Hs. rewrite Hs; [by exists fs3|].
  intros d a c Hd Ha Hfile. apply Hfiles in Hfile.
  by rewrite (createDirs_creates _ _ _ Hc d a Hd Ha) in Hfile.
Qed.

Lemma StronglySorted_filter_keeps {A} (R : A -> A -> Prop) (P : A -> Prop)
    `{!forall x, Decision (P x)} l :
  StronglySorted R l -> StronglySorted R (filter P l).
Proof.
  induction 1 as [|x l Hl IH Hx]; [constructor|].
  rewrite filter_cons. destruct (decide (P x)); [|done].
  constructor; [done|]. apply Forall_forall. intros y [_ Hy]%list_elem_of_filter.
  by apply (proj1 (Forall_forall _ _) Hx).
Qed.

Lemma descending_perm_eq l1 : forall l2,
  descending l1 -> descending l2 -> l1 ≡ₚ l2 -> l1 = l2.
Proof.
  induction l1 as [|x l1 IH]; intros l2 H1 H2 Hp.
  - by apply Permutation_nil in Hp.
  - destruct l2 as [|y l2]; [by apply Permutation_sym, Permutation_nil in Hp|].
    apply StronglySorted_inv in H1 as [H1 Hx]. apply StronglySorted_inv in H2 as [H2 Hy].
    assert (x = y) as <-.
    { assert (x ∈ y :: l2) as Hxin by (rewrite <- Hp; by left).
      assert (y ∈ x :: l1) as Hyin by (rewrite Hp; by left).
      apply elem_of_cons in Hxin as [|Hxin]; [done|].
      apply elem_of_cons in Hyin as [|Hyin]; [done|].
      apply (anti_symm String.le).
      - by apply (proj1 (Forall_forall _ _) Hy).
      - by apply (proj1 (Forall_forall _ _) Hx). }
    f_equal. apply IH; [done..|]. by apply Permutation_cons_inv in Hp.
Qed.

Lemma descending_unique l1 l2 :
  descending l1 -> descending l2 -> NoDup l1 -> NoDup l2 ->
  (forall x, x ∈ l1 <-> x ∈ l2) -> l1 = l2.
Proof.
  intros H1 H2 N1 N2 Hiff. apply descending_perm_eq; [done..|].
  by apply NoDup_Permutation.
Qed.

Lemma Base_no_sep p : Base p = "/" \/ noSeparator (Base p).
Proof.
  unfold Base. case_bool_decide; [right; by apply noSeparator_literal|].
  destruct (strip_seps (rev (chars p))) as [|c r]; [by left|]. right.
  unfold noSeparator. rewrite chars_str, elem_of_rev. apply until_sep_no_sep.
Qed.

Lemma listed_Join dir name :
  noSeparator name -> Ext name = ".txt" ->
  Join [dir; TranscriptionsDir; name] = Join [dir; TranscriptionsDir] +:+ "/" +:+ name.
Proof.
  intros Hsep Hext. apply Join_under; [apply plain_TranscriptionsDir|].
  by apply Ext_txt_plain.
Qed.

(** X8. With the data directory in place [loadTranscriptions] answers with
    the list of files, never with an error.  The list holds each name once,
    and a name is in it exactly when it has no separator, its extension is
    [.txt] and the file of that name in the transcriptions directory is a
    regular file. *)
Theorem loadTranscriptions_lists_exactly_the_files
    (h : Host) (fs fs' : FS) (dir : string) :
  GetAppDataDir h fs = (fs', inl dir) ->
  exists names,
    loadTranscriptions h fs = (fs', filesMsg names) /\
    NoDup names /\
    forall name,
      name ∈ names <->
      noSeparator name /\ Ext name = ".txt" /\
      exists content,
        fs' !! Join [dir; TranscriptionsDir; name] = Some (RegularFile content).
Proof.
  intros Hget. destruct (loadTranscriptions_list _ _ _ _ Hget) as (names & Hl & Hn & _ & Hiff).
  exists names. split; [done|]. split; [done|]. intros name. rewrite Hiff.
  split; intros (Hsep & Hext & Hfile); (split; [done|]; split; [done|]);
    by rewrite listed_Join in * by done.
Qed.

Lemma loadTranscriptions_lists_exactly_the_files_witness :
  GetAppDataDir host_example fs_store = (fs_store, inl "/home/u/.open_whisper") /\
  exists names,
    loadTranscriptions host_example fs_store = (fs_store, filesMsg names) /\
    NoDup names /\
    forall name,
      name ∈ names <->
      noSeparator name /\ Ext name = ".txt" /\
      exists content,
        fs_store !! Join ["/home/u/.open_whisper"; TranscriptionsDir; name]
          = Some (RegularFile content).
Proof.
  assert (GetAppDataDir host_example fs_store = (fs_store, inl "/home/u/.open_whisper"))
    as Hget by by_vm.
  split; [exact Hget|].
  exact (loadTranscriptions_lists_exactly_the_files host_example fs_store fs_store _ Hget).
Defined.

(** X9. Every name of the list can be opened: for a list that
    [loadTranscriptions] returned, [loadTranscriptionContent] of any of its
    names returns the content of that file of the transcriptions directory,
    without error and without changing the file system. *)
Theorem listed_file_loads
    (h : Host) (fs fs' : FS) (names : list string) (name : string) :
  loadTranscriptions h fs = (fs', filesMsg names) ->
  name ∈ names ->
  exists dir content,
    GetAppDataDir h fs = (fs', inl dir) /\
    fs' !! Join [dir; TranscriptionsDir; name] = Some (RegularFile content) /\
    loadTranscriptionContent h name fs' = (fs', inl content).
Proof.
  intros Hload Hin. destruct (loadTranscriptions_inv _ _ _ _ Hload) as (dir & Hget).
  destruct (loadTranscriptions_list _ _ _ _ Hget) as (names' & Hl & _ & _ & Hiff).
  assert (names' = names) as -> by congruence.
  destruct (proj1 (Hiff name) Hin) as (Hsep & Hext & content & Hfile).
  rewrite <- listed_Join in Hfile by done.
  exists dir, content. split; [done|]. split; [done|].
  destruct (GetAppDataDir_success _ _ _ _ Hget) as (_ & _ & _ & _ & Hagain).
  unfold loadTranscriptionContent, ReadFile. by rewrite Hagain, Hfile.
Qed.

Lemma listed_file_loads_witness :
  loadTranscriptions host_example fs_store = (fs_store, filesMsg [june; january]) /\
  exists dir content,
    GetAppDataDir host_example fs_store = (fs_store, inl dir) /\
    fs_store !! Join [dir; TranscriptionsDir; january] = Some (RegularFile content) /\
    loadTranscriptionContent host_example january fs_store = (fs_store, inl content).
Proof.
  assert (loadTranscriptions host_example fs_store = (fs_store, filesMsg [june; january]))
    as Hload by by_vm.
  split; [exact Hload|].
  apply (listed_file_loads host_example fs_store fs_store [june; january] january Hload).
  apply elem_of_cons. right. apply elem_of_cons. by left.
Defined.

(** X10. Deleting a listed transcription answers with the list as it was
    without that name, the other names in their order: the paired audio
    file, whether it exists or not, never takes another transcription with
    it, and the reload cannot fail. *)
Theorem deleteTranscription_of_listed
    (h : Host) (fs fs0 : FS) (before : list string) (filename : string) :
  loadTranscriptions h fs = (fs0, filesMsg before) ->
  filename ∈ before ->
  exists fs3,
    deleteTranscription h filename fs
      = (fs3, filesMsg (filter (fun name => name <> filename) before)).
Proof.
  intros Hload Hin. destruct (loadTranscriptions_inv _ _ _ _ Hload) as (dir & Hget).
  destruct (loadTranscriptions_list _ _ _ _ Hget) as (names & Hl & Hnd & Hdesc & Hiff).
  assert (names = before) as -> by congruence.
  destruct (proj1 (Hiff filename) Hin) as (Hsep & Hext & content & Hfile).
  set (tdir := Join [dir; TranscriptionsDir]) in *.
  unfold deleteTranscription. rewrite Hget. cbv zeta.
  rewrite listed_Join by done. fold tdir.
  rewrite (Remove_file _ _ _ Hfile).
  set (ap := Join [dir; RecordingsDir; TrimSuffix filename ".txt" +:+ ".wav"]).
  assert (Ext ap = ".wav") as Hap.
  { unfold ap. rewrite Join_under by (apply plain_RecordingsDir || by apply plain_audio).
    rewrite Ext_under by (by apply plain_audio). apply Ext_wav. }
  set (fs1 := delete (tdir +:+ "/" +:+ filename) fs0).
  set (fs2 := (Remove fs1 ap).1).
  assert (forall p c, Ext p = ".txt" ->
            fs2 !! p = Some (RegularFile c) <->
            p <> tdir +:+ "/" +:+ filename /\ fs0 !! p = Some (RegularFile c)) as Hfs2.
  { intros p c Hp. unfold fs2.
    destruct (Remove_lookup fs1 ap) as [-> | ->]; unfold fs1.
    - rewrite lookup_delete_Some. split; intros [Hne Hc]; by split.
    - rewrite !lookup_delete_Some. split; [by intros (_ & Hne & Hc)|].
      intros [Hne Hc]. split; [|done]. intros <-. rewrite Hap in Hp. discriminate Hp. }
  assert (forall p c, fs2 !! p = Some (RegularFile c) -> fs0 !! p = Some (RegularFile c))
    as Hsub.
  { intros p c. unfold fs2.
    destruct (Remove_lookup fs1 ap) as [-> | ->]; unfold fs1;
      rewrite ?lookup_delete_Some; tauto. }
  destruct (GetAppDataDir_again _ _ _ _ _ Hget Hsub) as (fs3 & Hget3).
  destruct (loadTranscriptions_list _ _ _ _ Hget3) as (after & Hl3 & Hnd3 & Hdesc3 & Hiff3).
  exists fs3. rewrite Hl3. do 2 f_equal.
  apply descending_unique;
    [done | by apply StronglySorted_filter_keeps | done | by apply NoDup_filter |].
  intros name. rewrite Hiff3, list_elem_of_filter, Hiff. fold tdir.
  pose proof (GetAppDataDir_onlyAddsDirectories h fs2) as [Hkeep Hfiles].
  rewrite Hget3 in Hkeep, Hfiles. change (fst (fs3, _)) with fs3 in Hkeep, Hfiles.
  split.
  - intros (Hs & He & c & Hc). apply Hfiles in Hc.
    apply Hfs2 in Hc as [Hne Hc]; [|by rewrite Ext_under].
    split; [by intros ->|]. eauto.
  - intros (Hne & Hs & He & c & Hc). split; [done|]. split; [done|]. exists c.
    apply Hkeep, Hfs2; [by rewrite Ext_under|]. split; [|done].
    intros Heq. apply Hne. by do 2 apply String.app_inj in Heq.
Qed.

Lemma deleteTranscription_of_listed_witness :
  loadTranscriptions host_example fs_store = (fs_store, filesMsg [june; january]) /\
  exists fs3,
    deleteTranscription host_example june fs_store
      = (fs3, filesMsg (filter (fun name => name <> june) [june; january])).
Proof.
  assert (loadTranscriptions host_example fs_store = (fs_store, filesMsg [june; january]))
    as Hload by by_vm.
  split; [exact Hload|].
  apply (deleteTranscription_of_listed host_example fs_store fs_store [june; january] june Hload).
  apply elem_of_cons. by left.
Defined.

(** ** Further properties of the Transcriber *)

Lemma WriteFile_result fs path data :
  (WriteFile fs path data).1 = fs /\ is_Some (WriteFile fs path data).2 \/
  WriteFile fs path data = (<[path := RegularFile data]> fs, None).
Proof.
  unfold WriteFile. destruct (fs !! path) as [[c|]|]; [|left; by eauto|];
    (destruct (dirExists fs (parentDir path)); [by right | left; by eauto]).
Qed.

Lemma Transcribe_cases env t audioFile fs :
  match Transcribe env t audioFile fs with
  | Returns (fs', effs, (text, e)) =>
      (length effs <= 1)%nat /\
      (forall ev, ev ∈ effs ->
         exists data,
           fs !! audioFile = Some (RegularFile data) /\
           ev = EPost apiURL ("Bearer " +:+ apiKey t) (Base audioFile) data "whisper-1") /\
      match e with
      | Some _ => text = "" /\ fs' = fs
      | None =>
          exists resp stem,
            sendResult env = inl resp /\ StatusCode resp = StatusOK /\
            decodeText env (Body resp) = inl text /\
            slice_to audioFile (len audioFile - 4) = Some stem /\
            fs' = <[Join [t_appDataDir t; TranscriptionsDir; Base stem +:+ ".txt"]
                      := RegularFile text]> fs
      end
  | Panics _ =>
      len audioFile < 4 /\
      exists data resp text,
        fs !! audioFile = Some (RegularFile data) /\
        sendResult env = inl resp /\ StatusCode resp = StatusOK /\
        decodeText env (Body resp) = inl text
  end.
Proof.
  unfold Transcribe.
  destruct (fs !! audioFile) as [[data|]|] eqn:Hfile;
    [|by (split; [cbn; lia|split; [by intros ? ?%elem_of_nil|]])..].
  assert (forall ev, ev ∈ [EPost apiURL ("Bearer " +:+ apiKey t) (Base audioFile) data "whisper-1"] ->
            exists data0, Some (RegularFile data) = Some (RegularFile data0) /\
              ev = EPost apiURL ("Bearer " +:+ apiKey t) (Base audioFile) data0 "whisper-1") as Hpost.
  { intros ev Hev. apply list_elem_of_singleton in Hev as ->. eauto. }
  destruct (sendResult env) as [resp|e] eqn:Hsend; [|by split; [cbn; lia|]].
  destruct (StatusCode resp =? StatusOK) eqn:Hstatus; cbn [negb]; [|by split; [cbn; lia|]].
  apply Z.eqb_eq in Hstatus.
  destruct (decodeText env (Body resp)) as [text|e] eqn:Hdecode; [|by split; [cbn; lia|]].
  pose proof (slice_to_in_range audioFile (len audioFile - 4)) as Hrange.
  destruct (slice_to audioFile (len audioFile - 4)) as [stem|] eqn:Hslice.
  - destruct (WriteFile_result fs (Join [t_appDataDir t; TranscriptionsDir; Base stem +:+ ".txt"])
                text) as [[Hfs Herr]|Hok].
    + destruct (WriteFile fs _ text) as [fs' [e|]]; [|by destruct Herr].
      cbn in Hfs. subst fs'. by split; [cbn; lia|].
    + rewrite Hok. split; [cbn; lia|]. split; [done|]. by exists resp, stem.
  - split; [|by exists data, resp, text].
    destruct (Z.lt_ge_cases (len audioFile) 4) as [|Hge]; [done|].
    destruct Hrange as [_ Hrange].
    assert (0 <= len audioFile - 4 <= len audioFile) as Hin by lia.
    by destruct (Hrange Hin).
Qed.

(** X11. What [Transcribe] can do, in every case.  It posts the audio at most
    once, and only what it read from the audio file, under the file's base
    name.  When it returns an error the text is empty and the file system
    is as it was: nothing is written unless the status is 200 and the body
    decodes.  When it returns no error the file system differs by exactly
    the one transcription file holding the returned text.  It panics only
    on a path shorter than four bytes, after a well-formed 200 response. *)
Theorem Transcribe_outcomes
    (env : TranscribeEnv) (t : Transcriber) (audioFile : string) (fs : FS) :
  match Transcribe env t audioFile fs with
  | Returns (fs', effs, (text, e)) =>
      (length effs <= 1)%nat /\
      (forall ev, ev ∈ effs ->
         exists data,
           fs !! audioFile = Some (RegularFile data) /\
           ev = EPost apiURL ("Bearer " +:+ apiKey t) (Base audioFile) data "whisper-1") /\
      match e with
      | Some _ => text = "" /\ fs' = fs
      | None =>
          exists resp stem,
            sendResult env = inl resp /\ StatusCode resp = StatusOK /\
            decodeText env (Body resp) = inl text /\
            slice_to audioFile (len audioFile - 4) = Some stem /\
            fs' = <[Join [t_appDataDir t; TranscriptionsDir; Base stem +:+ ".txt"]
                      := RegularFile text]> fs
      end
  | Panics _ =>
      len audioFile < 4 /\
      exists data resp text,
        fs !! audioFile = Some (RegularFile data) /\
        sendResult env = inl resp /\ StatusCode resp = StatusOK /\
        decodeText env (Body resp) = inl text
  end.
Proof. apply Transcribe_cases. Qed.

(** X12. What [Transcribe] saved is there for the store: after a call that
    returned a text without error, for the transcriber of this host,
    [loadTranscriptionContent] of the name the file was given (the base of
    the audio path without its last four bytes, with [.txt]) returns exactly
    that text, and unless the audio path was cut down to slashes only,
    [loadTranscriptions] lists that name. *)
Theorem Transcribe_then_load
    (h : Host) (env : TranscribeEnv) (t : Transcriber) (audioFile : string)
    (fs fs' fs'' : FS) (effs : list Effect) (text : string) :
  Transcribe env t audioFile fs = Returns (fs', effs, (text, None)) ->
  GetAppDataDir h fs' = (fs'', inl (t_appDataDir t)) ->
  exists stem,
    slice_to audioFile (len audioFile - 4) = Some stem /\
    loadTranscriptionContent h (Base stem +:+ ".txt") fs' = (fs'', inl text) /\
    (Base stem <> "/" ->
     exists names,
       loadTranscriptions h fs' = (fs'', filesMsg names) /\
       Base stem +:+ ".txt" ∈ names).
Proof.
  intros Htr Hget. pose proof (Transcribe_cases env t audioFile fs) as Hcases.
  rewrite Htr in Hcases. destruct Hcases as (_ & _ & resp & stem & _ & _ & _ & Hslice & ->).
  exists stem. split; [done|].
  set (name := Base stem +:+ ".txt") in *.
  set (path := Join [t_appDataDir t; TranscriptionsDir; name]) in *.
  pose proof (GetAppDataDir_onlyAddsDirectories h (<[path := RegularFile text]> fs))
    as [Hkeep _].
  rewrite Hget in Hkeep. change (fst (fs'', _)) with fs'' in Hkeep.
  pose proof (Hkeep _ _ (lookup_insert_eq _ _ _)) as Hfile.
  split.
  - unfold loadTranscriptionContent. rewrite Hget. unfold ReadFile. fold path.
    by rewrite Hfile.
  - intros Hbase.
    destruct (loadTranscriptions_list _ _ _ _ Hget) as (names & Hl & _ & _ & Hiff).
    exists names. split; [done|]. apply Hiff.
    assert (noSeparator name) as Hsep.
    { apply noSeparator_app; [|by apply noSeparator_literal].
      by destruct (Base_no_sep stem). }
    split; [done|]. split; [apply Ext_txt|]. exists text.
    rewrite <- listed_Join by (done || apply Ext_txt). exact Hfile.
Qed.

Lemma Transcribe_then_load_witness :
  let t := w_transcriber world_store in
  let audioFile := "/home/u/.open_whisper/recordings/2024-06-01-00-00-00.wav" in
  exists fs',
    Transcribe transcribe_hello t audioFile fs_store
      = Returns (fs', [EPost apiURL ("Bearer " +:+ apiKey t) (Base audioFile) "RIFF2" "whisper-1"],
                 ("hello", None)) /\
    exists stem,
      slice_to audioFile (len audioFile - 4) = Some stem /\
      loadTranscriptionContent host_example (Base stem +:+ ".txt") fs' = (fs', inl "hello").
Proof.
  intros t audioFile.
  set (target := Join [t_appDataDir t; TranscriptionsDir;
                       Base "/home/u/.open_whisper/recordings/2024-06-01-00-00-00" +:+ ".txt"]).
  assert (Transcribe transcribe_hello t audioFile fs_store
          = Returns (<[target := RegularFile "hello"]> fs_store,
                     [EPost apiURL ("Bearer " +:+ apiKey t) (Base audioFile) "RIFF2" "whisper-1"],
                     ("hello", None))) as Htr by by_vm.
  exists (<[target := RegularFile "hello"]> fs_store). split; [exact Htr|].
  assert (GetAppDataDir host_example (<[target := RegularFile "hello"]> fs_store)
          = (<[target := RegularFile "hello"]> fs_store, inl (t_appDataDir t))) as Hget by by_vm.
  destruct (Transcribe_then_load host_example transcribe_hello t audioFile fs_store _ _ _ _
              Htr Hget) as (stem & Hslice & Hload & _).
  exists stem. split; [exact Hslice|exact Hload].
Defined.

(** ** Further properties of the model *)

Ltac walk_goal :=
  repeat (cbn;
          match goal with
          | |- context [match ?x with _ => _ end] =>
              lazymatch x with
              | context [match _ with _ => _ end] => fail
              | _ => destruct x eqn:?
              end
          end).


Ltac unfold_update :=
  unfold Update, finishUpdate, refreshContent, handleTranscriptionListUpdate,
    handleRecordingUpdate, reloadSelection, transcriptionListView, index, pressed in *.

(** The texts of the views do not matter to what [Update] decides, and a
    key matters only through the bindings it matches. *)
Ltac by_message h msg :=
  unfold_update;
  generalize recordingView leftPaneLines TrimSuffix itoa Render;
  intros ? ? ? ? ?;
  destruct msg as [?k| | | | | | | | | |];
  [match goal with k : string |- _ => generalize (Matches k); intros ? end|..].




(** X14. The recording state and the error of the model after a message.
    The state moves to [Recording] on the recording-started message, to
    [Transcribing] or (with an error) to [Idle] on the recording-stopped
    message, to [TranscriptionComplete] on the transcription-finished
    message; a key changes it only by leaving the list view through the
    Record or Back key, to [Idle]; nothing else changes it.  The error is
    cleared only by the recording-started message and replaced only by a
    message that carries an error; every other message keeps it. *)
Theorem Update_state_and_error (h : Host) (m : model) (msg : Msg) (fs : FS) :
  match Update h m msg fs with
  | Returns (m', _, _) =>
      err m' = match msg with
               | recordingStartedMsg => None
               | recordingStoppedMsg (Some e) | transcriptionFinishedMsg _ (Some e)
               | copyToClipboardMsg (Some e) | errMsg e => Some e
               | _ => err m
               end /\
      match msg with
      | recordingStartedMsg => recordingState m' = Recording
      | recordingStoppedMsg (Some _) => recordingState m' = Idle
      | recordingStoppedMsg None => recordingState m' = Transcribing
      | transcriptionFinishedMsg _ _ => recordingState m' = TranscriptionComplete
      | KeyMsg _ =>
          recordingState m' = recordingState m \/
          recordingState m' = Idle /\
          showingTranscriptions m = true /\ showingTranscriptions m' = false /\
          helpShowAll m = false /\ showingDeleteConfirmation m = false /\
          (pressed msg keys_Record = true \/ pressed msg keys_Back = true)
      | _ => recordingState m' = recordingState m
      end
  | Panics _ => True
  end.
Proof.
  unfold_update. generalize (loadTranscriptionContent h). intros load.
  by_message h msg; walk_goal; cbn in *; auto 10.
Qed.

Lemma Update_commands_table (h : Host) (m : model) (msg : Msg) (fs : FS) :
  match Update h m msg fs with
  | Returns (m', c, fs') =>
      match c with
      | nilCmd => True
      | startRecordingCmd =>
          pressed msg keys_Record = true /\ helpShowAll m = false /\
          if showingTranscriptions m then showingDeleteConfirmation m = false
          else recordingState m = Idle \/ recordingState m = TranscriptionComplete
      | Sequence cs =>
          cs = [stopRecordingCmd; transcribeCmd] /\
          pressed msg keys_StopRecording = true /\ helpShowAll m = false /\
          showingTranscriptions m = false /\ recordingState m = Recording /\ m' = m
      | Batch cs => cs = [nilCmd; Sequence [tickCmd]] /\ msg = copyToClipboardMsg None
      | deleteTranscriptionCmd filename =>
          pressed msg keys_Confirm = true /\ helpShowAll m = false /\
          showingTranscriptions m = true /\ showingDeleteConfirmation m = true /\
          index (transcriptionFiles m) (selectedIndex m) = Returns filename /\
          showingDeleteConfirmation m' = false /\ fs' = fs
      | copyToClipboardCmd text =>
          pressed msg keys_CopyToClip = true /\ helpShowAll m = false /\ text <> "" /\
          if showingTranscriptions m then text = selectedContent m
          else text = transcription m /\ recordingState m = TranscriptionComplete
      | loadTranscriptionsCmd =>
          showingTranscriptions m' = true /\
          (pressed msg keys_ListTranscriptions = true \/
           exists text, msg = transcriptionFinishedMsg text None)
      | windowSizeCmd w ht =>
          w = width m /\ ht = height m /\
          (pressed msg keys_Help = true \/ pressed msg keys_Back = true)
      | Quit => pressed msg keys_Quit = true
      | Blink | stopRecordingCmd | transcribeCmd | tickCmd => False
      end
  | Panics _ => True
  end.
Proof.
  unfold_update. generalize (loadTranscriptionContent h). intros load.
  by_message h msg; walk_goal; cbn in *; try done;
    repeat match goal with
           | H : bool_decide _ = true |- _ => apply bool_decide_eq_true_1 in H
           | H : (_ && _) = true |- _ => apply andb_prop in H as [? ?]
           | H : (_ || _) = true |- _ => apply orb_prop in H as [?|?]
           | H : negb _ = true |- _ => apply negb_true_iff in H
           end;
    try match goal with
        | H1 : (_ <? 0) = false, H2 : _ !! _ = Some _ |- _ => rewrite ?H1, ?H2
        end;
    try (by auto 10);
    by (split; [done|]; right; eexists).
Qed.

(** X15. The commands [Update] can ask for, and when.  A recording is
    started only on the Record key, outside the help panel.  The stop
    followed by the transcription is asked for only on the Stop key while
    the model is in the [Recording] state of the recording view.  A file is
    deleted only on the Confirm key while the delete confirmation is
    showing, and it is the selected file.  A text is copied only on the
    Copy key and is not empty: the transcription of the recording view or
    the selected content of the list view.  The stop, the transcription and
    the tick are never asked for on their own. *)
Theorem Update_commands (h : Host) (m : model) (msg : Msg) (fs : FS) :
  match Update h m msg fs with
  | Returns (m', c, fs') =>
      match c with
      | nilCmd => True
      | startRecordingCmd =>
          pressed msg keys_Record = true /\ helpShowAll m = false /\
          if showingTranscriptions m then showingDeleteConfirmation m = false
          else recordingState m = Idle \/ recordingState m = TranscriptionComplete
      | Sequence cs =>
          cs = [stopRecordingCmd; transcribeCmd] /\
          pressed msg keys_StopRecording = true /\ helpShowAll m = false /\
          showingTranscriptions m = false /\ recordingState m = Recording /\ m' = m
      | Batch cs => cs = [nilCmd; Sequence [tickCmd]] /\ msg = copyToClipboardMsg None
      | deleteTranscriptionCmd filename =>
          pressed msg keys_Confirm = true /\ helpShowAll m = false /\
          showingTranscriptions m = true /\ showingDeleteConfirmation m = true /\
          index (transcriptionFiles m) (selectedIndex m) = Returns filename /\
          showingDeleteConfirmation m' = false /\ fs' = fs
      | copyToClipboardCmd text =>
          pressed msg keys_CopyToClip = true /\ helpShowAll m = false /\ text <> "" /\
          if showingTranscriptions m then text = selectedContent m
          else text = transcription m /\ recordingState m = TranscriptionComplete
      | loadTranscriptionsCmd =>
          showingTranscriptions m' = true /\
          (pressed msg keys_ListTranscriptions = true \/
           exists text, msg = transcriptionFinishedMsg text None)
      | windowSizeCmd w ht =>
          w = width m /\ ht = height m /\
          (pressed msg keys_Help = true \/ pressed msg keys_Back = true)
      | Quit => pressed msg keys_Quit = true
      | Blink | stopRecordingCmd | transcribeCmd | tickCmd => False
      end
  | Panics _ => True
  end.
Proof. apply Update_commands_table. Qed.

(** X16. Handling a message writes and deletes nothing: whatever the
    message, the file system after [Update] has every entry of the file
    system before it, with the same content, and no new regular file; the
    only change it can make is to create missing data directories. *)
Theorem Update_only_adds_directories (h : Host) (m : model) (msg : Msg) (fs : FS) :
  match Update h m msg fs with
  | Returns (_, _, fs') =>
      (forall p n, fs !! p = Some n -> fs' !! p = Some n) /\
      (forall p content, fs' !! p = Some (RegularFile content) ->
                         fs !! p = Some (RegularFile content))
  | Panics _ => True
  end.
Proof.
  assert (forall f, onlyAddsDirectories fs (loadTranscriptionContent h f fs).1) as Hload.
  { intros f. unfold loadTranscriptionContent.
    pose proof (GetAppDataDir_onlyAddsDirectories h fs) as Hg.
    destruct (GetAppDataDir h fs) as [fs' [dir|e]]; [|done].
    cbv zeta. by destruct (ReadFile fs' _). }
  pose proof (onlyAddsDirectories_refl fs) as Hrefl.
  change (match Update h m msg fs with
          | Returns (_, _, fs') => onlyAddsDirectories fs fs'
          | Panics _ => True
          end).
  unfold_update. revert Hload. generalize (loadTranscriptionContent h). intros load Hload.
  by_message h msg; walk_goal; cbn in *; try done;
    match goal with
    | H : load ?f fs = (?fs', _) |- onlyAddsDirectories fs ?fs' =>
        specialize (Hload f); by rewrite H in Hload
    end.
Qed.

(** ** Keys carried through: from the key to the model after its commands *)

(** Which bindings a given key matches is decided by evaluation. *)
Ltac decide_keys :=
  repeat match goal with
         | |- context [Matches ?k ?b] =>
             let v := eval vm_compute in (Matches k b) in
             change (Matches k b) with v
         end.

Lemma carryOut_nil n h env st : carryOut n h env nilCmd st = Returns st.
Proof. destruct n; [done|]. by destruct st. Qed.

Lemma StartRecording_inactive env r :
  isRecording r = false ->
  StartRecording env r =
  let outputFile' := Join [appDataDir r; RecordingsDir; Format (Now env) +:+ ".wav"] in
  let argv := ["ffmpeg"; "-f"; "avfoundation"; "-i"; ":1"; "-y"; outputFile'] in
  match startResult env with
  | inr e =>
      (mkRecorder (Some (mkCmd argv None)) outputFile' false (appDataDir r) (timer r),
       [EStart argv None], Some (Errorf "failed to start recording" e))
  | inl pid =>
      (mkRecorder (Some (mkCmd argv (Some pid))) outputFile' true (appDataDir r)
                  (Some (mkTimer (20 * Minute))),
       [EStart argv (Some pid); ENewTimer (20 * Minute)], None)
  end.
Proof. intros Hr. unfold StartRecording. by rewrite Hr. Qed.

Lemma Update_record_key h m fs :
  showingTranscriptions m = false -> helpShowAll m = false ->
  recordingState m = Idle \/ recordingState m = TranscriptionComplete ->
  Update h m (KeyMsg "r") fs = Returns (set_transcription "" m, startRecordingCmd, fs).
Proof.
  intros Hlist Hhelp Hstate. unfold Update, handleRecordingUpdate. decide_keys.
  rewrite Hlist, Hhelp. cbn [andb negb].
  by destruct Hstate as [-> | ->].
Qed.

(** One level of [carryOut], the fuel left as it is. *)
Lemma carryOut_step n h env c st :
  (forall cs, c <> Sequence cs) -> (forall cs, c <> Batch cs) ->
  carryOut (S n) h env c st =
  '(w, msg) ← runCmd h env c st.2;
  match msg with
  | None => Returns (st.1, w)
  | Some msg => '(m, w', c') ← deliver h msg (st.1, w); carryOut n h env c' (m, w')
  end.
Proof.
  intros Hs Hb. destruct c; try reflexivity; [by destruct (Hs cmds)|by destruct (Hb cmds)].
Qed.

Lemma carryOut_parts n h env cs st :
  carryOut (S n) h env (Sequence cs) st =
  fold_left (fun acc c' => st' ← acc; carryOut n h env c' st') cs (Returns st) /\
  carryOut (S n) h env (Batch cs) st =
  fold_left (fun acc c' => st' ← acc; carryOut n h env c' st') cs (Returns st).
Proof. by split. Qed.

Lemma finishUpdate_recording m fs :
  showingTranscriptions m = false ->
  finishUpdate m fs = Returns (SetContent (Text (recordingView m)) m, nilCmd, fs).
Proof. intros Hlist. unfold finishUpdate, refreshContent. by rewrite Hlist. Qed.

(** X17. The Record key carried through, in the recording view with the
    help panel closed, the model idle or showing a finished transcription,
    and the recorder inactive.  The old transcription is cleared and the
    file system is untouched.  When the capture process starts, the model
    ends in [Recording] without error, showing the recording notice, and
    the recorder is active on the output file named after the start time.
    When it cannot be started, the model ends in [Idle] with the wrapped
    error on display and the recorder stays inactive. *)
Theorem record_key_carried_through (h : Host) (env : CmdEnv) (m : model) (w : World) :
  showingTranscriptions m = false -> helpShowAll m = false ->
  recordingState m = Idle \/ recordingState m = TranscriptionComplete ->
  isRecording (w_recorder w) = false ->
  exists m' w',
    press h env "r" (m, w) = Returns (m', w') /\
    transcription m' = "" /\ w_fs w' = w_fs w /\
    match startResult (startEnv env) with
    | inl pid =>
        recordingState m' = Recording /\ err m' = None /\
        vpContent (viewport m') = Text "Recording... Press SPACE to stop" /\
        isRecording (w_recorder w') = true /\
        outputFile (w_recorder w') =
          Join [appDataDir (w_recorder w); RecordingsDir;
                Format (Now (startEnv env)) +:+ ".wav"]
    | inr e =>
        recordingState m' = Idle /\
        err m' = Some (Errorf "failed to start recording" e) /\
        vpContent (viewport m') =
          Text ("Error: failed to start recording: " +:+ Error e +:+ nl +:+
                "Press 'r' to start recording") /\
        isRecording (w_recorder w') = false
    end.
Proof.
  intros Hlist Hhelp Hstate Hrec. destruct w as [wfs r t effs]. cbn [w_recorder w_fs] in *.
  unfold press, deliver. cbn [fst snd w_fs].
  rewrite (Update_record_key _ _ _ Hlist Hhelp Hstate).
  cbn [mbind Outcome_bind with_fs w_fs w_recorder w_transcriber w_effects].
  rewrite carryOut_step by done.
  unfold runCmd, startRecording, with_fs.
  cbn [fst snd w_recorder w_fs w_transcriber w_effects].
  rewrite (StartRecording_inactive _ _ Hrec). cbv zeta.
  destruct (startResult (startEnv env)) as [pid|e];
    cbn [mbind Outcome_bind fst snd w_fs]; unfold deliver, Update;
    cbn [fst snd w_fs]; rewrite finishUpdate_recording by done;
    cbn [mbind Outcome_bind]; rewrite carryOut_nil;
    (eexists _, _; split; [reflexivity|]); repeat split.
Qed.

Lemma record_key_carried_through_witness :
  exists m' w',
    press host_example env_example "r" (initialModel, world_store) = Returns (m', w') /\
    recordingState m' = Recording /\
    outputFile (w_recorder w') =
      Join [appDataDir (w_recorder world_store); RecordingsDir;
            Format (Now (startEnv env_example)) +:+ ".wav"].
Proof.
  destruct (record_key_carried_through host_example env_example initialModel world_store
              eq_refl eq_refl (or_introl eq_refl) eq_refl)
    as (m' & w' & Hpress & _ & _ & Hstate & _ & _ & _ & Hfile).
  exists m', w'. exact (conj Hpress (conj Hstate Hfile)).
Defined.

Lemma Update_record_key_in_list h m fs :
  showingTranscriptions m = true -> helpShowAll m = false ->
  showingDeleteConfirmation m = false ->
  Update h m (KeyMsg "r") fs =
  let m1 := set_recordingState Idle (set_transcription "" (set_showCopied false
              (set_showingTranscriptions false m))) in
  Returns (SetContent (Text (recordingView m1)) m1, startRecordingCmd, fs).
Proof.
  intros Hlist Hhelp Hconfirm. unfold Update, handleTranscriptionListUpdate. decide_keys.
  by rewrite Hlist, Hhelp, Hconfirm.
Qed.

(** X18. The Record key in the list view while the recorder is still
    recording.  The list view does not look at the recording state: it
    leaves the list, sets the state to [Idle] and asks for a start.  The
    recorder refuses (it is active) and nothing outside changes; the model
    ends in [Idle] showing the already-recording error, while the recorder
    goes on recording.  From that model no key asks for the stop. *)
Theorem record_key_in_list_view_while_recording
    (h : Host) (env : CmdEnv) (m : model) (w : World) :
  showingTranscriptions m = true -> helpShowAll m = false ->
  showingDeleteConfirmation m = false ->
  isRecording (w_recorder w) = true ->
  exists m',
    press h env "r" (m, w) = Returns (m', w) /\
    recordingState m' = Idle /\ showingTranscriptions m' = false /\
    err m' = Some (ErrorNew "recording is already in progress") /\
    vpContent (viewport m') =
      Text ("Error: recording is already in progress" +:+ nl +:+
            "Press 'r' to start recording") /\
    isRecording (w_recorder w) = true /\
    forall key fs m'' c fs',
      Update h m' (KeyMsg key) fs = Returns (m'', c, fs') ->
      c <> Sequence [stopRecordingCmd; transcribeCmd].
Proof.
  intros Hlist Hhelp Hconfirm Hrec.
  set (m1 := set_recordingState Idle (set_transcription "" (set_showCopied false
               (set_showingTranscriptions false m)))).
  set (m2 := set_recordingState Idle
               (set_err (Some (ErrorNew "recording is already in progress"))
                  (SetContent (Text (recordingView m1)) m1))).
  exists (SetContent (Text (recordingView m2)) m2).
  split; [|do 5 (split; [done|])].
  - destruct w as [wfs r t effs]. cbn [w_recorder w_fs] in *.
    unfold press, deliver. cbn [fst snd w_fs].
    rewrite (Update_record_key_in_list _ _ _ Hlist Hhelp Hconfirm). cbv zeta. fold m1.
    cbn [mbind Outcome_bind with_fs w_fs w_recorder w_transcriber w_effects].
    rewrite carryOut_step by done.
    unfold runCmd, startRecording, with_fs, StartRecording.
    cbn [fst snd w_recorder w_fs w_transcriber w_effects]. rewrite Hrec.
    cbn [mbind Outcome_bind fst snd w_fs]. unfold deliver, Update.
    cbn [fst snd w_fs]. rewrite finishUpdate_recording by done.
    cbn [mbind Outcome_bind]. by rewrite carryOut_nil, app_nil_r.
  - intros key fs m'' c fs' Hup Hc.
    pose proof (Update_commands_table h (SetContent (Text (recordingView m2)) m2)
                  (KeyMsg key) fs) as Htable.
    rewrite Hup, Hc in Htable. by destruct Htable as (_ & _ & _ & _ & Hstate & _).
Qed.

Lemma record_key_in_list_view_while_recording_witness :
  let m := set_showingTranscriptions true (set_recordingState Recording initialModel) in
  let w := mkWorld fs_store recorder_active (w_transcriber world_store) [] in
  exists m',
    press host_example env_example "r" (m, w) = Returns (m', w) /\
    recordingState m' = Idle /\
    err m' = Some (ErrorNew "recording is already in progress") /\
    isRecording (w_recorder w) = true.
Proof.
  intros m w.
  destruct (record_key_in_list_view_while_recording host_example env_example m w
              eq_refl eq_refl eq_refl eq_refl)
    as (m' & Hpress & Hstate & _ & Herr & _ & Hrec & _).
  exists m'. exact (conj Hpress (conj Hstate (conj Herr Hrec))).
Defined.

Lemma Update_stop_key h m key fs :
  showingTranscriptions m = false -> helpShowAll m = false ->
  recordingState m = Recording ->
  key = " " \/ key = "enter" ->
  Update h m (KeyMsg key) fs = Returns (m, Sequence [stopRecordingCmd; transcribeCmd], fs).
Proof.
  intros Hlist Hhelp Hstate Hkey. unfold Update, handleRecordingUpdate.
  destruct Hkey as [-> | ->]; decide_keys; by rewrite Hlist, Hhelp, Hstate.
Qed.

Lemma StopRecording_outputFile h env r fs :
  outputFile (StopRecording h env r fs).1.1.1 = outputFile r /\
  isRecording (StopRecording h env r fs).1.1.1 = false.
Proof.
  destruct (isRecording r) eqn:Hrec.
  - by destruct (StopRecording_active h env r fs Hrec) as (fs' & effs & ->).
  - by rewrite StopRecording_inactive.
Qed.

(** X19. The Stop key carried through, in the [Recording] state of the
    recording view with the help panel closed.  The recorder is stopped,
    then the output file is transcribed, whatever the stop returned: also
    when the recorder had already stopped on its own (the timer fired) and
    the stop fails with the not-recording error, the transcription still
    runs on the same output file.  Unless [Transcribe] panics the model
    ends in [TranscriptionComplete], the recorder inactive; the text is the
    transcription when there is no error, and the error of the
    transcription, or else of the stop, is kept in the model. *)
Theorem stop_key_carried_through
    (h : Host) (env : CmdEnv) (m : model) (w : World) (key : string)
    (r1 : Recorder) (fs1 : FS) (effs1 : list Effect) (e1 : option error) :
  showingTranscriptions m = false -> helpShowAll m = false ->
  recordingState m = Recording ->
  key = " " \/ key = "enter" ->
  StopRecording h (stopEnv env) (w_recorder w) (w_fs w) = (r1, fs1, effs1, e1) ->
  isRecording r1 = false /\
  match Transcribe (transcribeEnv env) (w_transcriber w) (outputFile (w_recorder w)) fs1 with
  | Returns (fs2, effs2, (text, e2)) =>
      exists m',
        press h env key (m, w)
          = Returns (m', mkWorld fs2 r1 (w_transcriber w) ((w_effects w ++ effs1) ++ effs2)) /\
        recordingState m' = TranscriptionComplete /\
        transcription m' = match e2 with Some _ => transcription m | None => text end /\
        err m' = match e2, e1 with
                 | Some _, _ => e2
                 | None, Some _ => e1
                 | None, None => err m
                 end
  | Panics p => press h env key (m, w) = Panics p
  end.
Proof.
  intros Hlist Hhelp Hstate Hkey Hstop.
  pose proof (StopRecording_outputFile h (stopEnv env) (w_recorder w) (w_fs w)) as [Hout Hrec].
  rewrite Hstop in Hout, Hrec. cbn [fst] in Hout, Hrec. split; [exact Hrec|].
  destruct w as [wfs r t effs]. cbn [w_recorder w_fs w_transcriber w_effects] in *.
  assert (exists ms,
            Update h m (recordingStoppedMsg e1) fs1 = Returns (ms, nilCmd, fs1) /\
            showingTranscriptions ms = false /\
            transcription ms = transcription m /\
            err ms = match e1 with Some _ => e1 | None => err m end)
    as (ms & Hstopped & Hl & Ht & He).
  { unfold Update. destruct e1; rewrite finishUpdate_recording by done; eauto. }
  assert (press h env key (m, mkWorld wfs r t effs) =
          carryOut 7 h env transcribeCmd (ms, mkWorld fs1 r1 t (effs ++ effs1))) as ->.
  { unfold press, deliver. cbn [fst snd w_fs].
    rewrite (Update_stop_key _ _ _ _ Hlist Hhelp Hstate Hkey).
    cbn [mbind Outcome_bind]. unfold with_fs.
    cbn [w_fs w_recorder w_transcriber w_effects].
    rewrite (proj1 (carryOut_parts _ _ _ _ _)). cbn [fold_left mbind Outcome_bind].
    rewrite carryOut_step by done. unfold runCmd, stopRecording.
    cbn [fst snd w_recorder w_fs w_transcriber w_effects]. rewrite Hstop.
    cbn [mbind Outcome_bind]. unfold deliver. cbn [fst snd w_fs]. rewrite Hstopped.
    cbn [mbind Outcome_bind]. unfold with_fs. cbn [w_fs w_recorder w_transcriber w_effects].
    by rewrite carryOut_nil. }
  rewrite carryOut_step by done. unfold runCmd, transcribe, GetOutputFile.
  cbn [fst snd w_recorder w_fs w_transcriber w_effects]. rewrite Hout.
  destruct (Transcribe (transcribeEnv env) t (outputFile r) fs1)
    as [[[fs2 effs2] [text e2]]|p]; [|reflexivity].
  cbn [mbind Outcome_bind]. unfold deliver. cbn [fst snd w_fs]. unfold Update.
  destruct e2 as [e2|].
  - rewrite finishUpdate_recording by done. cbn [mbind Outcome_bind]. unfold with_fs.
    cbn [w_fs w_recorder w_transcriber w_effects]. rewrite carryOut_nil.
    eexists. split; [reflexivity|]. by repeat split.
  - cbn [showingTranscriptions set_transcription set_recordingState]. rewrite Hl.
    rewrite finishUpdate_recording by done. cbn [mbind Outcome_bind]. unfold with_fs.
    cbn [w_fs w_recorder w_transcriber w_effects]. rewrite carryOut_nil.
    eexists. split; [reflexivity|]. by repeat split.
Qed.

Lemma stop_key_carried_through_witness :
  let m := set_recordingState Recording initialModel in
  let w := mkWorld fs_store recorder_active (w_transcriber world_store) [] in
  let s := StopRecording host_example (stopEnv env_example) (w_recorder w) (w_fs w) in
  isRecording s.1.1.1 = false /\
  match Transcribe (transcribeEnv env_example) (w_transcriber w) (outputFile (w_recorder w))
                   s.1.1.2 with
  | Returns (fs2, effs2, (text, e2)) =>
      exists m',
        press host_example env_example " " (m, w)
          = Returns (m', mkWorld fs2 s.1.1.1 (w_transcriber w)
                                 ((w_effects w ++ s.1.2) ++ effs2)) /\
        recordingState m' = TranscriptionComplete /\
        transcription m' = match e2 with Some _ => transcription m | None => text end /\
        err m' = match e2, s.2 with
                 | Some _, _ => e2
                 | None, Some _ => s.2
                 | None, None => err m
                 end
  | Panics p => press host_example env_example " " (m, w) = Panics p
  end.
Proof.
  intros m w s.
  apply (stop_key_carried_through host_example env_example m w " " s.1.1.1 s.1.1.2 s.1.2 s.2
           eq_refl eq_refl eq_refl (or_introl eq_refl)).
  unfold s. by destruct (StopRecording _ _ _ _) as [[[? ?] ?] ?].
Defined.

Lemma Update_copy_key h m fs :
  showingTranscriptions m = false -> helpShowAll m = false ->
  recordingState m = TranscriptionComplete -> transcription m <> "" ->
  Update h m (KeyMsg "c") fs = Returns (m, copyToClipboardCmd (transcription m), fs).
Proof.
  intros Hlist Hhelp Hstate Htext. unfold Update, handleRecordingUpdate. decide_keys.
  rewrite Hlist, Hhelp, Hstate. cbn [andb negb].
  by rewrite !bool_decide_eq_true_2.
Qed.

(** X20. The Copy key carried through, in the recording view on a finished,
    non-empty transcription with the help panel closed.  [pbcopy] is run
    once with exactly the transcription on its standard input.  When it
    succeeds the model is marked as copied without the view being redrawn,
    the tick waits two seconds and clears the mark before the view is
    redrawn: at the end the mark is off and the view shows the transcription
    without the copied note.  When [pbcopy] fails its error is stored and
    there is no tick. *)
Theorem copy_key_carried_through (h : Host) (env : CmdEnv) (m : model) (w : World) :
  showingTranscriptions m = false -> helpShowAll m = false ->
  recordingState m = TranscriptionComplete -> transcription m <> "" ->
  (exists fs', Update h m (copyToClipboardMsg None) (w_fs w)
               = Returns (set_showCopied true m, Batch [nilCmd; Sequence [tickCmd]], fs') /\
               viewport (set_showCopied true m) = viewport m) /\
  exists m' effs,
    press h env "c" (m, w)
      = Returns (m', mkWorld (w_fs w) (w_recorder w) (w_transcriber w) (w_effects w ++ effs)) /\
    recordingState m' = TranscriptionComplete /\ transcription m' = transcription m /\
    match pbcopyResult env with
    | None =>
        effs = [ERunStdin ["pbcopy"] (transcription m); ESleep 2000] /\
        showCopied m' = false /\ err m' = err m /\
        vpContent (viewport m') =
          Text ("Transcription complete:" +:+ nl +:+ nl +:+ transcription m)
    | Some e =>
        effs = [ERunStdin ["pbcopy"] (transcription m)] /\
        showCopied m' = showCopied m /\ err m' = Some e
    end.
Proof.
  intros Hlist Hhelp Hstate Htext. split; [by eexists|].
  destruct w as [wfs r t effs0]. cbn [w_recorder w_fs w_transcriber w_effects].
  unfold press, deliver. cbn [fst snd w_fs].
  rewrite (Update_copy_key _ _ _ Hlist Hhelp Hstate Htext).
  cbn [mbind Outcome_bind]. unfold with_fs. cbn [w_fs w_recorder w_transcriber w_effects].
  rewrite carryOut_step by done. unfold runCmd, copyToClipboard.
  cbn [fst snd w_recorder w_fs w_transcriber w_effects mbind Outcome_bind].
  unfold deliver. cbn [fst snd w_fs]. unfold Update at 1.
  destruct (pbcopyResult env) as [e|].
  - rewrite finishUpdate_recording by done. cbn [mbind Outcome_bind]. unfold with_fs.
    cbn [w_fs w_recorder w_transcriber w_effects]. rewrite carryOut_nil.
    eexists _, _. split; [reflexivity|]. by repeat split.
  - cbn [mbind Outcome_bind]. unfold with_fs. cbn [w_fs w_recorder w_transcriber w_effects].
    rewrite (proj2 (carryOut_parts _ _ _ _ _)). cbn [fold_left mbind Outcome_bind].
    rewrite carryOut_nil. cbn [mbind Outcome_bind].
    rewrite (proj1 (carryOut_parts _ _ _ _ _)). cbn [fold_left mbind Outcome_bind].
    rewrite carryOut_step by done. unfold runCmd, tick.
    cbn [fst snd w_recorder w_fs w_transcriber w_effects mbind Outcome_bind].
    unfold deliver. cbn [fst snd w_fs]. unfold Update.
    rewrite finishUpdate_recording by done. cbn [mbind Outcome_bind]. unfold with_fs.
    cbn [w_fs w_recorder w_transcriber w_effects]. rewrite carryOut_nil, <- app_assoc.
    eexists _, _. split; [reflexivity|]. split; [done|]. split; [done|].
    split; [done|]. split; [done|]. split; [done|].
    cbn [viewport vpContent SetContent set_viewport]. f_equal.
    unfold recordingView. cbn [recordingState set_showCopied showCopied transcription].
    by rewrite Hstate.
Qed.

Lemma copy_key_carried_through_witness :
  let m := set_transcription "hello" (set_recordingState TranscriptionComplete initialModel) in
  exists m' effs,
    press host_example env_example "c" (m, world_store)
      = Returns (m', mkWorld (w_fs world_store) (w_recorder world_store)
                             (w_transcriber world_store) (w_effects world_store ++ effs)) /\
    effs = [ERunStdin ["pbcopy"] "hello"; ESleep 2000] /\
    showCopied m' = false.
Proof.
  intros m.
  destruct (copy_key_carried_through host_example env_example m world_store
              eq_refl eq_refl eq_refl ltac:(discriminate))
    as (_ & m' & effs & Hpress & _ & _ & Heffs & Hcopied & _).
  exists m', effs. exact (conj Hpress (conj Heffs Hcopied)).
Defined.





(** ** The help panel *)

(** X22. The two help listings agree.  Whatever the model, every binding
    of the short help is also in a column of the full help, the Help key is
    in the short help, and the Help and Quit keys are together in a column
    of the full help. *)
Theorem short_help_within_full_help (m : model) :
  Forall (fun b => Exists (fun col => b ∈ col) (FullHelp m)) (ShortHelp m) /\
  keys_Help ∈ ShortHelp m /\
  [keys_Help; keys_Quit] ∈ FullHelp m.
Proof.
  unfold ShortHelp, FullHelp.
  destruct (showingTranscriptions m), (showingDeleteConfirmation m), (width m <? 100),
    (recordingState m);
    (split; [repeat constructor; set_solver|split; set_solver]).
Qed.
